(** * feels: the backup synchronisation protocol

    A shallow embedding of the sync service of the feels mood tracker
    (google/syncService.ts, db.ts, google/driveApi.ts) and the properties
    its specification states about it.
    The development goes on with the code around the service: the first
    start and the helpers of db.ts, the sign-in state of
    google/GoogleAuthContext.tsx, hooks/useAutoSync.ts, the handlers of the
    settings page and of the sync section, the entry form of
    components/QuickEntry.tsx, the grouping of components/History.tsx and
    of components/Chart.tsx, with properties read off that code.

    Conventions of the embedding.
    - JavaScript numbers that the application stores (identifiers, display
      order, ratings 0..10, time values in milliseconds) are integers and
      are modelled in [Z].
    - A JavaScript string is a Rocq [string]; each character stands for one
      UTF-16 code unit (so code units below 256).
    - A JSON text is represented by the value [JSON.parse] makes of it
      (type [json]); [JSON.stringify] is written out where the source
      hashes its characters.
    - [async] functions run to completion one after the other; they are
      modelled in a state-and-exception monad over the [World]: the local
      store, the remote folder, the clock and an oracle that decides which
      awaited call rejects. *)

From Stdlib Require Import ZArith List String Ascii Bool Lia.
From Stdlib Require DecimalString HexadecimalString.
From Stdlib Require Import Permutation Sorted.
Import ListNotations.

Set Warnings "-register-all".

Local Open Scope string_scope.
Local Open Scope Z_scope.

(** ** The JavaScript runtime: what the source takes from the language *)

Module JS.

(** ToInt32: the wrap-around every bitwise operator applies. *)
Definition toInt32 (z : Z) : Z :=
  let m := z mod 4294967296 in
  if m <? 2147483648 then m else m - 4294967296.

(** [s.charCodeAt(i)] for the i-th character. *)
Definition charCode (c : ascii) : Z := Z.of_N (N_of_ascii c).

Definition dquote : ascii := ascii_of_nat 34.
Definition backslash : ascii := ascii_of_nat 92.

Definition hexDigit (n : Z) : ascii :=
  if n <? 10 then ascii_of_N (Z.to_N (48 + n)) else ascii_of_N (Z.to_N (87 + n)).

(** QuoteJSONString: how [JSON.stringify] writes one code unit. *)
Definition quoteChar (c : ascii) : string :=
  let n := charCode c in
  if n =? 8 then "\b"
  else if n =? 9 then "\t"
  else if n =? 10 then "\n"
  else if n =? 12 then "\f"
  else if n =? 13 then "\r"
  else if n =? 34 then String backslash (String dquote "")
  else if n =? 92 then String backslash (String backslash "")
  else if n <? 32 then "\u00" ++ String (hexDigit (n / 16)) (String (hexDigit (n mod 16)) "")
  else String c "".

Fixpoint quoteBody (s : string) : string :=
  match s with
  | EmptyString => ""
  | String c r => quoteChar c ++ quoteBody r
  end.

Definition quote (s : string) : string :=
  String dquote (quoteBody s ++ String dquote "").

(** Number::toString for an integer (below 1e21 in absolute value). *)
Definition numberToString (n : Z) : string :=
  DecimalString.NilZero.string_of_int (Z.to_int n).

(** [Math.abs(n).toString(16)]. *)
Definition absToHex (n : Z) : string :=
  HexadecimalString.NilZero.string_of_uint (N.to_hex_uint (Z.to_N (Z.abs n))).

(** JSON values. *)
Inductive json : Type :=
| JNull
| JBool (b : bool)
| JNum (n : Z)
| JStr (s : string)
| JArr (items : list json)
| JObj (members : list (string * json)).

(** [JSON.stringify(v)] with no indentation. *)
Fixpoint stringify (j : json) : string :=
  match j with
  | JNull => "null"
  | JBool true => "true"
  | JBool false => "false"
  | JNum n => numberToString n
  | JStr s => quote s
  | JArr items =>
      "[" ++
      (fix elems (l : list json) : string :=
         match l with
         | [] => ""
         | x :: r =>
             stringify x ++ match r with [] => "" | _ :: _ => "," ++ elems r end
         end) items ++ "]"
  | JObj members =>
      "{" ++
      (fix membs (l : list (string * json)) : string :=
         match l with
         | [] => ""
         | (k, v) :: r =>
             quote k ++ ":" ++ stringify v ++
             match r with [] => "" | _ :: _ => "," ++ membs r end
         end) members ++ "}"
  end.

(** Property lookup on a parsed value: [v.key], [None] for undefined. *)
Fixpoint lookup (key : string) (members : list (string * json)) : option json :=
  match members with
  | [] => None
  | (k, v) :: r => if String.eqb k key then Some v else lookup key r
  end.

Definition keys (j : json) : list string :=
  match j with
  | JObj members => map fst members
  | _ => []
  end.

(** *** Dates: [Date.prototype.toISOString] *)

Definition digit (n : Z) : ascii := ascii_of_N (Z.to_N (48 + n mod 10)).

(** The last [k] decimal digits of [n], most significant first. *)
Fixpoint digits (k : nat) (n : Z) (acc : string) : string :=
  match k with
  | O => acc
  | S k' => digits k' (n / 10) (String (digit n) acc)
  end.

Definition pad (k : nat) (n : Z) : string := digits k n "".

Definition msPerDay : Z := 86400000.

(** Year, month and day of the proleptic Gregorian calendar for a day
    number counted from 1970-01-01. *)
Definition civilFromDays (day : Z) : Z * Z * Z :=
  let z := day + 719468 in
  let era := z / 146097 in
  let doe := z - era * 146097 in
  let yoe := (doe - doe / 1460 + doe / 36524 - doe / 146096) / 365 in
  let doy := doe - (365 * yoe + yoe / 4 - yoe / 100) in
  let mp := (5 * doy + 2) / 153 in
  let d := doy - (153 * mp + 2) / 5 + 1 in
  let m := if mp <? 10 then mp + 3 else mp - 9 in
  let y := yoe + era * 400 + (if m <=? 2 then 1 else 0) in
  (y, m, d).

Definition yearToString (y : Z) : string :=
  if (0 <=? y) && (y <=? 9999) then pad 4 y
  else if y <? 0 then "-" ++ pad 6 (- y)
  else "+" ++ pad 6 y.

(** [new Date(t).toISOString()] for a time value [t] in milliseconds. *)
Definition toISOString (t : Z) : string :=
  let day := t / msPerDay in
  let ms := t mod msPerDay in
  let '(y, m, d) := civilFromDays day in
  yearToString y ++ "-" ++ pad 2 m ++ "-" ++ pad 2 d ++ "T" ++
  pad 2 (ms / 3600000) ++ ":" ++ pad 2 (ms / 60000 mod 60) ++ ":" ++
  pad 2 (ms / 1000 mod 60) ++ "." ++ pad 3 (ms mod 1000) ++ "Z".

(** *** Dates: [Date.parse] on the format toISOString writes

    The language fixes what [Date.parse] makes of that format; what it
    makes of other strings is the runtime's choice (NaN here). The sync
    service is stated for any [Date.parse]; this one serves to run it. *)

Definition isDigit (c : ascii) : bool := (48 <=? charCode c) && (charCode c <=? 57).

(** Reads exactly [k] digits. *)
Fixpoint readDigits (k : nat) (s : string) (acc : Z) : option (Z * string) :=
  match k with
  | O => Some (acc, s)
  | S k' =>
      match s with
      | String c r =>
          if isDigit c then readDigits k' r (10 * acc + (charCode c - 48)) else None
      | EmptyString => None
      end
  end.

Definition expect (c : ascii) (s : string) : option string :=
  match s with
  | String c' r => if Ascii.eqb c c' then Some r else None
  | EmptyString => None
  end.

Definition readYear (s : string) : option (Z * string) :=
  match s with
  | String c r =>
      if Ascii.eqb c "+" then readDigits 6 r 0
      else if Ascii.eqb c "-" then
        match readDigits 6 r 0 with
        | Some (y, r') => if y =? 0 then None else Some (- y, r')
        | None => None
        end
      else readDigits 4 s 0
  | EmptyString => None
  end.

Definition daysFromCivil (y m d : Z) : Z :=
  let y := if m <=? 2 then y - 1 else y in
  let era := y / 400 in
  let yoe := y - era * 400 in
  let mp := if 2 <? m then m - 3 else m + 9 in
  let doy := (153 * mp + 2) / 5 + d - 1 in
  let doe := yoe * 365 + yoe / 4 - yoe / 100 + doy in
  era * 146097 + doe - 719468.

Definition andThen {A B : Type} (o : option A) (k : A -> option B) : option B :=
  match o with
  | Some a => k a
  | None => None
  end.

Definition isoParse (s : string) : option Z :=
  andThen (readYear s) (fun '(y, s) =>
  andThen (expect "-" s) (fun s =>
  andThen (readDigits 2 s 0) (fun '(m, s) =>
  andThen (expect "-" s) (fun s =>
  andThen (readDigits 2 s 0) (fun '(d, s) =>
  andThen (expect "T" s) (fun s =>
  andThen (readDigits 2 s 0) (fun '(h, s) =>
  andThen (expect ":" s) (fun s =>
  andThen (readDigits 2 s 0) (fun '(mi, s) =>
  andThen (expect ":" s) (fun s =>
  andThen (readDigits 2 s 0) (fun '(sec, s) =>
  andThen (expect "." s) (fun s =>
  andThen (readDigits 3 s 0) (fun '(ms, s) =>
  andThen (expect "Z" s) (fun s =>
  match s with
  | EmptyString =>
      if (1 <=? m) && (m <=? 12) && (1 <=? d) && (d <=? 31) && (h <=? 23)
         && (mi <=? 59) && (sec <=? 59)
      then Some (daysFromCivil y m d * msPerDay + h * 3600000 + mi * 60000
                 + sec * 1000 + ms)
      else None
  | String _ _ => None
  end)))))))))))))).

End JS.

Import JS.

(** ** The data model (types.ts, google/types.ts) *)

(** A date field. In the store it holds a [Date] object; in a backup that
    went through JSON it holds the ISO string [JSON.stringify] wrote, or
    [null] where the [Date] was invalid. *)
Inductive Date : Type :=
| DateObj (tv : option Z)   (* a Date object; [None] is the time value NaN *)
| DateStr (s : string)
| DateNull.

Module Stat.
Record t : Type := mk {
  id : option Z;
  name : string;
  color : string;
  order : Z;
  createdAt : Date;
  updatedAt : Date
}.
End Stat.

Module Entry.
Record t : Type := mk {
  id : option Z;
  statId : Z;
  value : Z;
  date : string;
  createdAt : Date;
  updatedAt : Date
}.
End Entry.

(** What [Stat] and [Entry] share: the store's tables ([EntityTable<T, 'id'>])
    and the merge only use the identifier and the two timestamps. *)
Class Row (A : Type) : Type := {
  row_id : A -> option Z;
  row_createdAt : A -> Date;
  row_updatedAt : A -> Date;
  with_id : Z -> A -> A;
  with_stamps : Date -> Date -> A -> A
}.

#[global] Instance StatRow : Row Stat.t := {
  row_id := Stat.id;
  row_createdAt := Stat.createdAt;
  row_updatedAt := Stat.updatedAt;
  with_id k s :=
    Stat.mk (Some k) (Stat.name s) (Stat.color s) (Stat.order s)
            (Stat.createdAt s) (Stat.updatedAt s);
  with_stamps c u s :=
    Stat.mk (Stat.id s) (Stat.name s) (Stat.color s) (Stat.order s) c u
}.

#[global] Instance EntryRow : Row Entry.t := {
  row_id := Entry.id;
  row_createdAt := Entry.createdAt;
  row_updatedAt := Entry.updatedAt;
  with_id k e :=
    Entry.mk (Some k) (Entry.statId e) (Entry.value e) (Entry.date e)
             (Entry.createdAt e) (Entry.updatedAt e);
  with_stamps c u e :=
    Entry.mk (Entry.id e) (Entry.statId e) (Entry.value e) (Entry.date e) c u
}.

Record Dataset : Type := mkDataset {
  stats : list Stat.t;
  entries : list Entry.t
}.

Record BackupMetadata : Type := mkMetadata {
  version : Z;
  exportedAt : string;
  appVersion : string;
  entryCount : Z;
  statCount : Z;
  checksum : string
}.

Record BackupFile : Type := mkBackup {
  metadata : BackupMetadata;
  data : Dataset
}.

Inductive ConflictResolution : Type := KeepLocal | UseCloud | Merge.

Inductive SyncStatus : Type := StSuccess | StConflict | StNoChanges | StError.

Record SyncResult : Type := mkResult {
  status : SyncStatus;
  message : string;
  cloudBackup : option BackupFile;
  localBackup : option BackupFile
}.

(** ** generateChecksum (google/syncService.ts) *)

(** What [JSON.stringify] makes of a date field: a [Date] object answers
    through [toJSON], that is [toISOString] or [null] when invalid. *)
Definition dateToJSON (d : Date) : json :=
  match d with
  | DateObj (Some t) => JStr (toISOString t)
  | DateObj None => JNull
  | DateStr s => JStr s
  | DateNull => JNull
  end.

(** A property whose value is [undefined] is left out by [JSON.stringify]. *)
Definition optMember (key : string) (v : option json) : list (string * json) :=
  match v with
  | Some j => [(key, j)]
  | None => []
  end.

Definition statProjection (s : Stat.t) : json :=
  JObj (optMember "id" (option_map JNum (Stat.id s)) ++
        [("name", JStr (Stat.name s));
         ("updatedAt", dateToJSON (Stat.updatedAt s))])%list.

Definition entryProjection (e : Entry.t) : json :=
  JObj (optMember "id" (option_map JNum (Entry.id e)) ++
        [("value", JNum (Entry.value e));
         ("updatedAt", dateToJSON (Entry.updatedAt e))])%list.

(** One turn of the loop:
    [hash = (hash << 5) - hash + char; hash = hash & hash]. *)
Definition hashStep (hash : Z) (char : Z) : Z :=
  let hash := toInt32 (Z.shiftl (toInt32 hash) 5) - hash + char in
  Z.land (toInt32 hash) (toInt32 hash).

Fixpoint hashLoop (str : string) (hash : Z) : Z :=
  match str with
  | EmptyString => hash
  | String c rest => hashLoop rest (hashStep hash (charCode c))
  end.

Definition generateChecksum (d : Dataset) : string :=
  let str :=
    stringify
      (JObj [("stats", JArr (map statProjection (stats d)));
             ("entries", JArr (map entryProjection (entries d)))]) in
  absToHex (hashLoop str 0).

(** ** JSON encodings of the records

    [statToJSON] is the value [JSON.parse(JSON.stringify(s))] of a stored or
    downloaded record; [statOfJSON] reads a parsed value back as a record of
    the declared type. Values that do not have the declared shape are
    outside this typed model ([None]). *)

Definition statToJSON (s : Stat.t) : json :=
  JObj (optMember "id" (option_map JNum (Stat.id s)) ++
        [("name", JStr (Stat.name s));
         ("color", JStr (Stat.color s));
         ("order", JNum (Stat.order s));
         ("createdAt", dateToJSON (Stat.createdAt s));
         ("updatedAt", dateToJSON (Stat.updatedAt s))])%list.

Definition entryToJSON (e : Entry.t) : json :=
  JObj (optMember "id" (option_map JNum (Entry.id e)) ++
        [("statId", JNum (Entry.statId e));
         ("value", JNum (Entry.value e));
         ("date", JStr (Entry.date e));
         ("createdAt", dateToJSON (Entry.createdAt e));
         ("updatedAt", dateToJSON (Entry.updatedAt e))])%list.

Definition metadataToJSON (m : BackupMetadata) : json :=
  JObj [("version", JNum (version m));
        ("exportedAt", JStr (exportedAt m));
        ("appVersion", JStr (appVersion m));
        ("entryCount", JNum (entryCount m));
        ("statCount", JNum (statCount m));
        ("checksum", JStr (checksum m))].

Definition datasetToJSON (d : Dataset) : json :=
  JObj [("stats", JArr (map statToJSON (stats d)));
        ("entries", JArr (map entryToJSON (entries d)))].

Definition backupToJSON (b : BackupFile) : json :=
  JObj [("metadata", metadataToJSON (metadata b));
        ("data", datasetToJSON (data b))].

Definition numOf (o : option json) : option Z :=
  match o with Some (JNum n) => Some n | _ => None end.

Definition strOf (o : option json) : option string :=
  match o with Some (JStr s) => Some s | _ => None end.

Definition dateOf (o : option json) : option Date :=
  match o with
  | Some (JStr s) => Some (DateStr s)
  | Some JNull => Some DateNull
  | _ => None
  end.

(** An optional identifier: absent, or a number. *)
Definition idOf (o : option json) : option (option Z) :=
  match o with
  | None => Some None
  | Some (JNum n) => Some (Some n)
  | _ => None
  end.

Definition statOfJSON (j : json) : option Stat.t :=
  match j with
  | JObj m =>
      match idOf (lookup "id" m), strOf (lookup "name" m), strOf (lookup "color" m),
            numOf (lookup "order" m), dateOf (lookup "createdAt" m),
            dateOf (lookup "updatedAt" m) with
      | Some i, Some n, Some c, Some o, Some ca, Some ua => Some (Stat.mk i n c o ca ua)
      | _, _, _, _, _, _ => None
      end
  | _ => None
  end.

Definition entryOfJSON (j : json) : option Entry.t :=
  match j with
  | JObj m =>
      match idOf (lookup "id" m), numOf (lookup "statId" m), numOf (lookup "value" m),
            strOf (lookup "date" m), dateOf (lookup "createdAt" m),
            dateOf (lookup "updatedAt" m) with
      | Some i, Some s, Some v, Some d, Some ca, Some ua => Some (Entry.mk i s v d ca ua)
      | _, _, _, _, _, _ => None
      end
  | _ => None
  end.

(** Reads every element, or nothing when one of them is ill-shaped. *)
Fixpoint allOf {A : Type} (f : json -> option A) (l : list json) : option (list A) :=
  match l with
  | [] => Some []
  | x :: r =>
      match f x, allOf f r with
      | Some a, Some ar => Some (a :: ar)
      | _, _ => None
      end
  end.

Definition arrOf {A : Type} (f : json -> option A) (o : option json) : option (list A) :=
  match o with
  | Some (JArr l) => allOf f l
  | _ => None
  end.

Definition metadataOfJSON (j : json) : option BackupMetadata :=
  match j with
  | JObj m =>
      match numOf (lookup "version" m), strOf (lookup "exportedAt" m),
            strOf (lookup "appVersion" m), numOf (lookup "entryCount" m),
            numOf (lookup "statCount" m), strOf (lookup "checksum" m) with
      | Some v, Some x, Some a, Some ec, Some sc, Some c => Some (mkMetadata v x a ec sc c)
      | _, _, _, _, _, _ => None
      end
  | _ => None
  end.

Definition datasetOfJSON (j : json) : option Dataset :=
  match j with
  | JObj m =>
      match arrOf statOfJSON (lookup "stats" m), arrOf entryOfJSON (lookup "entries" m) with
      | Some ss, Some es => Some (mkDataset ss es)
      | _, _ => None
      end
  | _ => None
  end.

Definition backupOfJSON (j : json) : option BackupFile :=
  match j with
  | JObj m =>
      match lookup "metadata" m, lookup "data" m with
      | Some jm, Some jd =>
          match metadataOfJSON jm, datasetOfJSON jd with
          | Some md, Some d => Some (mkBackup md d)
          | _, _ => None
          end
      | _, _ => None
      end
  | _ => None
  end.

(** The record as it comes back from JSON: dates have become strings. *)
Definition wireDate (d : Date) : Date :=
  match d with
  | DateObj (Some t) => DateStr (toISOString t)
  | DateObj None => DateNull
  | DateStr s => DateStr s
  | DateNull => DateNull
  end.

Definition wireStat (s : Stat.t) : Stat.t :=
  Stat.mk (Stat.id s) (Stat.name s) (Stat.color s) (Stat.order s)
          (wireDate (Stat.createdAt s)) (wireDate (Stat.updatedAt s)).

Definition wireEntry (e : Entry.t) : Entry.t :=
  Entry.mk (Entry.id e) (Entry.statId e) (Entry.value e) (Entry.date e)
           (wireDate (Entry.createdAt e)) (wireDate (Entry.updatedAt e)).

Definition wireDataset (d : Dataset) : Dataset :=
  mkDataset (map wireStat (stats d)) (map wireEntry (entries d)).

Definition wireBackup (b : BackupFile) : BackupFile :=
  mkBackup (metadata b) (wireDataset (data b)).

(** An identifier Drive gives to a file: an opaque, non-empty string. It is
    modelled as a positive number, so that every identifier is truthy, as
    every identifier of Drive is. *)
Definition FileId : Type := positive.

(** ** Settings: the singleton row of the settings table *)

Module Settings.
(** The identifier of a settings row is only ever assigned by the store's
    key generator (initializeDatabase adds the row without one), so it is
    a positive number: a row that has an identifier has a truthy one. *)
Record t : Type := mk {
  id : option positive;
  lastStatId : option Z;
  daysToShow : Z;
  syncEnabled : option bool;
  lastSyncTime : option string;
  lastSyncChecksum : option string;
  driveFileId : option FileId;
  createdAt : option Date;
  updatedAt : option Date
}.

(** [Partial<Settings>] as the callers of updateSettings build it. *)
Record partial : Type := mkPartial {
  p_daysToShow : option Z;
  p_syncEnabled : option bool;
  p_driveFileId : option FileId;
  p_lastSyncTime : option string;
  p_lastSyncChecksum : option string
}.

Definition orElse {A : Type} (new old : option A) : option A :=
  match new with Some _ => new | None => old end.

(** [db.settings.update(key, changes)] followed by what the updating hook
    adds: [updatedAt]. *)
Definition modify (changes : partial) (stamp : Date) (s : t) : t :=
  mk (id s) (lastStatId s)
     (match p_daysToShow changes with Some d => d | None => daysToShow s end)
     (orElse (p_syncEnabled changes) (syncEnabled s))
     (orElse (p_lastSyncTime changes) (lastSyncTime s))
     (orElse (p_lastSyncChecksum changes) (lastSyncChecksum s))
     (orElse (p_driveFileId changes) (driveFileId s))
     (createdAt s) (Some stamp).
End Settings.

Definition DEFAULT_SETTINGS : Settings.t :=
  Settings.mk None None 14 None None None None None None.

(** ** The world an async function runs in *)

(** What a rejected promise carries: an [Error] with its message, or any
    other thrown value. *)
Inductive exn : Type :=
| ErrorObj (msg : string)
| Thrown.

Inductive Result (A : Type) : Type :=
| Ok (a : A)
| Throw (e : exn).
Arguments Ok {A} a.
Arguments Throw {A} e.

(** A table with an auto-incremented primary key ['++id']: its rows in key
    order, as toArray returns them, and the key generator. *)
Record Table (A : Type) : Type := mkTable {
  rows : list A;
  keygen : Z
}.
Arguments mkTable {A} rows keygen.
Arguments rows {A} t.
Arguments keygen {A} t.

(** The backup file of the application folder: its identifier and its
    content (a JSON text). *)
Record DriveFile : Type := mkDriveFile {
  fileId : FileId;
  body : json
}.

(** The trace of what a run did to its collaborators, as a test double of
    the transport and the store would record it. *)
Inductive Event : Type :=
| CallList
| CallUpload (backupData : BackupFile) (existingFileId : option FileId)
| Uploaded (fid : FileId) (backupData : BackupFile)
| CallDownload (fid : FileId)
| Imported (content : json)
| SettingsWritten (changes : Settings.partial).

Record World : Type := mkWorld {
  statsT : Table Stat.t;              (* db.stats *)
  entriesT : Table Entry.t;           (* db.entries *)
  settingsRow : option Settings.t;    (* db.settings.toCollection().first() *)
  drive : option DriveFile;           (* the application folder *)
  freshId : nat -> FileId;            (* the identifiers Drive gives to new files *)
  created : nat;
  clock : nat -> Z;                   (* what the n-th [new Date()] reads *)
  reads : nat;
  fault : nat -> option exn;          (* whether the n-th awaited call rejects *)
  calls : nat;
  log : list Event
}.

Definition set_statsT (t : Table Stat.t) (w : World) : World :=
  mkWorld t (entriesT w) (settingsRow w) (drive w) (freshId w) (created w)
          (clock w) (reads w) (fault w) (calls w) (log w).

Definition set_entriesT (t : Table Entry.t) (w : World) : World :=
  mkWorld (statsT w) t (settingsRow w) (drive w) (freshId w) (created w)
          (clock w) (reads w) (fault w) (calls w) (log w).

Definition set_settingsRow (s : option Settings.t) (w : World) : World :=
  mkWorld (statsT w) (entriesT w) s (drive w) (freshId w) (created w)
          (clock w) (reads w) (fault w) (calls w) (log w).

Definition set_drive (d : option DriveFile) (w : World) : World :=
  mkWorld (statsT w) (entriesT w) (settingsRow w) d (freshId w) (created w)
          (clock w) (reads w) (fault w) (calls w) (log w).

Definition set_created (n : nat) (w : World) : World :=
  mkWorld (statsT w) (entriesT w) (settingsRow w) (drive w) (freshId w) n
          (clock w) (reads w) (fault w) (calls w) (log w).

Definition set_reads (n : nat) (w : World) : World :=
  mkWorld (statsT w) (entriesT w) (settingsRow w) (drive w) (freshId w) (created w)
          (clock w) n (fault w) (calls w) (log w).

Definition set_calls (n : nat) (w : World) : World :=
  mkWorld (statsT w) (entriesT w) (settingsRow w) (drive w) (freshId w) (created w)
          (clock w) (reads w) (fault w) n (log w).

Definition set_log (l : list Event) (w : World) : World :=
  mkWorld (statsT w) (entriesT w) (settingsRow w) (drive w) (freshId w) (created w)
          (clock w) (reads w) (fault w) (calls w) l.

(** The watermark: the checksum recorded at the last successful sync. *)
Definition watermark (w : World) : option string :=
  match settingsRow w with
  | Some s => Settings.lastSyncChecksum s
  | None => None
  end.

(** *** The monad *)

Definition M (A : Type) : Type := World -> Result A * World.

Definition ret {A : Type} (a : A) : M A := fun w => (Ok a, w).

Definition throw {A : Type} (e : exn) : M A := fun w => (Throw e, w).

Definition bind {A B : Type} (m : M A) (k : A -> M B) : M B :=
  fun w =>
    match m w with
    | (Ok a, w') => k a w'
    | (Throw e, w') => (Throw e, w')
    end.

Notation "x <- m ;; k" := (bind m (fun x => k))
  (at level 61, m at next level, right associativity).
Notation "m ;;; k" := (bind m (fun _ => k))
  (at level 61, right associativity).

(** [try { body } catch (error) { handler }]. *)
Definition tryCatch {A : Type} (body : M A) (handler : exn -> M A) : M A :=
  fun w =>
    match body w with
    | (Ok a, w') => (Ok a, w')
    | (Throw e, w') => handler e w'
    end.

(** Every awaited call to the store or to the network may reject. *)
Definition await_io : M unit :=
  fun w =>
    let w' := set_calls (S (calls w)) w in
    match fault w (calls w) with
    | Some e => (Throw e, w')
    | None => (Ok tt, w')
    end.

(** [new Date()]: one reading of the clock. *)
Definition newDate : M Z :=
  fun w => (Ok (clock w (reads w)), set_reads (S (reads w)) w).

Definition emit (e : Event) : M unit :=
  fun w => (Ok tt, set_log (log w ++ [e])%list w).

Definition getWorld : M World := fun w => (Ok w, w).

(** A step that only computes: its value, or what it throws. *)
Definition lift {A : Type} (r : Result A) : M A := fun w => (r, w).

(** ** The local store (db.ts and the tables Dexie keeps) *)

Record TableRef (A : Type) : Type := mkRef {
  tget : World -> Table A;
  tset : Table A -> World -> World
}.
Arguments mkRef {A} tget tset.
Arguments tget {A} t w.
Arguments tset {A} t tbl w.

Definition statsRef : TableRef Stat.t := mkRef statsT set_statsT.
Definition entriesRef : TableRef Entry.t := mkRef entriesT set_entriesT.

Definition keyIs {A : Type} `{Row A} (k : Z) (r : A) : bool :=
  match row_id r with
  | Some k' => k' =? k
  | None => false
  end.

Definition hasKey {A : Type} `{Row A} (k : Z) (l : list A) : bool :=
  existsb (keyIs k) l.

Fixpoint insertByKey {A : Type} `{Row A} (k : Z) (obj : A) (l : list A) : list A :=
  match l with
  | [] => [obj]
  | r :: rest =>
      match row_id r with
      | Some k' => if k <? k' then obj :: l else r :: insertByKey k obj rest
      | None => r :: insertByKey k obj rest
      end
  end.

(** [table.add(obj)] once the hooks have run: the key is the object's [id]
    or, without one, the next number of the key generator, which is then
    written into the object; a key that is already there is refused
    (ConstraintError). An explicit key moves the generator past it. *)
Definition tableAdd {A : Type} `{Row A} (obj : A) (t : Table A) : option (Table A) :=
  let key := match row_id obj with Some k => k | None => keygen t end in
  if hasKey key (rows t) then None
  else
    Some (mkTable (insertByKey key (with_id key obj) (rows t))
                  (match row_id obj with
                   | Some k => Z.max (keygen t) (k + 1)
                   | None => keygen t + 1
                   end)).

(** The text of the errors the libraries raise is theirs; only that they
    are [Error] objects matters here. *)
Definition constraintError : exn := ErrorObj "ConstraintError".
Definition syntaxError : exn := ErrorObj "SyntaxError".
Definition typeError : exn := ErrorObj "TypeError".
(** A value that does not have the declared TypeScript type reached typed
    code: outside this model. *)
Definition illTyped : exn := ErrorObj "ill-typed value".

(** db.ts, the creating hook:
    [obj.createdAt = new Date(); obj.updatedAt = new Date();] *)
Definition creatingHook {A : Type} `{Row A} (obj : A) : M A :=
  c <- newDate ;;
  u <- newDate ;;
  ret (with_stamps (DateObj (Some c)) (DateObj (Some u)) obj).

Fixpoint addEach {A : Type} `{Row A} (items : list A) (t : Table A) : M (Table A) :=
  match items with
  | [] => ret t
  | obj :: rest =>
      obj' <- creatingHook obj ;;
      match tableAdd obj' t with
      | Some t' => addEach rest t'
      | None => throw constraintError
      end
  end.

Definition putTable {A : Type} (tbl : TableRef A) (t : Table A) : M unit :=
  fun w => (Ok tt, tset tbl t w).

Definition bulkAdd {A : Type} `{Row A} (tbl : TableRef A) (items : list A) : M unit :=
  await_io ;;;
  w <- getWorld ;;
  t' <- addEach items (tget tbl w) ;;
  putTable tbl t'.

Definition clear {A : Type} (tbl : TableRef A) : M unit :=
  await_io ;;;
  w <- getWorld ;;
  putTable tbl (mkTable [] (keygen (tget tbl w))).

Definition toArray {A : Type} (tbl : TableRef A) : M (list A) :=
  await_io ;;;
  w <- getWorld ;;
  ret (rows (tget tbl w)).

(** An aborted transaction leaves both tables as they were. *)
Definition rollback (before after : World) : World :=
  set_entriesT (entriesT before) (set_statsT (statsT before) after).

(** [db.transaction('rw', [db.stats, db.entries], body)]. *)
Definition transaction {A : Type} (body : M A) : M A :=
  fun w =>
    match await_io w with
    | (Throw e, w1) => (Throw e, w1)
    | (Ok _, w1) =>
        match body w1 with
        | (Throw e, w2) => (Throw e, rollback w1 w2)
        | (Ok a, w2) =>
            match await_io w2 with
            | (Throw e, w3) => (Throw e, rollback w1 w3)
            | (Ok _, w3) => (Ok a, w3)
            end
        end
    end.

Definition getSettings : M Settings.t :=
  await_io ;;;
  w <- getWorld ;;
  ret (match settingsRow w with
       | Some settings => settings
       | None => DEFAULT_SETTINGS
       end).

Definition updateSettings (updates : Settings.partial) : M unit :=
  await_io ;;;
  w <- getWorld ;;
  match settingsRow w with
  | Some settings =>
      match Settings.id settings with
      | Some _ =>
          await_io ;;;
          now <- newDate ;;
          (fun w' =>
             (Ok tt,
              set_settingsRow
                (Some (Settings.modify updates (DateObj (Some now)) settings)) w')) ;;;
          emit (SettingsWritten updates)
      | None => ret tt
      end
  | None => ret tt
  end.

(** A string handed to [JSON.parse]: not JSON at all, or the text of a
    value. *)
Inductive Text : Type :=
| NotJSON
| TextOf (j : json).

Definition JSON_parse (t : Text) : M json :=
  match t with
  | NotJSON => throw syntaxError
  | TextOf j => ret j
  end.

Definition exportData : M Text :=
  stats <- toArray statsRef ;;
  entries <- toArray entriesRef ;;
  now <- newDate ;;
  ret (TextOf (JObj [("stats", JArr (map statToJSON stats));
                     ("entries", JArr (map entryToJSON entries));
                     ("exportedAt", JStr (toISOString now))])).

Definition truthy (j : json) : bool :=
  match j with
  | JNull => false
  | JBool b => b
  | JNum n => negb (n =? 0)
  | JStr s => negb (String.eqb s "")
  | JArr _ => true
  | JObj _ => true
  end.

(** [if (data.key?.length) ... data.key.map(...)]: the elements to insert,
    nothing when the test is falsy, a TypeError when [data] is null or the
    property has a length but is no array. *)
Definition arrayToImport (key : string) (data : json) : Result (option (list json)) :=
  match data with
  | JNull => Throw typeError
  | JObj m =>
      match lookup key m with
      | Some (JArr []) => Ok None
      | Some (JArr l) => Ok (Some l)
      | Some (JStr s) => if String.eqb s "" then Ok None else Throw typeError
      | Some (JObj m') =>
          match lookup "length" m' with
          | Some v => if truthy v then Throw typeError else Ok None
          | None => Ok None
          end
      | _ => Ok None
      end
  | _ => Ok None
  end.

(** The elements read at their declared type. *)
Definition typed {A : Type} (f : json -> option A) (l : list json) : Result (list A) :=
  match allOf f l with
  | Some items => Ok items
  | None => Throw illTyped
  end.

(** ** The remote transport (google/driveApi.ts)

    The application folder holds the files this application put there: the
    one backup file, named BACKUP_FILENAME, or nothing. A rejected fetch and
    a response that is not ok both end in a thrown [Error]; the oracle of
    the world stands for both. *)

Definition notFound (what : string) : exn := ErrorObj ("Failed to " ++ what ++ ": 404").

Definition listAppDataFiles (accessToken : string) : M (list DriveFile) :=
  emit CallList ;;;
  await_io ;;;
  w <- getWorld ;;
  ret (match drive w with
       | Some f => [f]
       | None => []
       end).

(** [files.find((f) => f.name === BACKUP_FILENAME)], then the identifier of
    what was found. *)
Definition findBackupFile (accessToken : string) : M (option FileId) :=
  files <- listAppDataFiles accessToken ;;
  ret (match files with
       | backup :: _ => Some (fileId backup)
       | [] => None
       end).

Definition putDrive (f : DriveFile) : M unit :=
  fun w => (Ok tt, set_drive (Some f) w).

Definition takeFreshId : M FileId :=
  fun w => (Ok (freshId w (created w)), set_created (S (created w)) w).

Definition uploadBackup (accessToken : string) (backupData : BackupFile)
    (existingFileId : option FileId) : M FileId :=
  emit (CallUpload backupData existingFileId) ;;;
  let body := backupToJSON backupData in
  await_io ;;;
  w <- getWorld ;;
  match existingFileId with
  | Some fid =>
      (* PATCH files/fid *)
      match drive w with
      | Some f =>
          if Pos.eqb (fileId f) fid then
            putDrive (mkDriveFile fid body) ;;;
            emit (Uploaded fid backupData) ;;;
            ret fid
          else throw (notFound "upload backup")
      | None => throw (notFound "upload backup")
      end
  | None =>
      (* POST files: Drive creates a file and names its identifier *)
      fid <- takeFreshId ;;
      putDrive (mkDriveFile fid body) ;;;
      emit (Uploaded fid backupData) ;;;
      ret fid
  end.

Definition downloadBackup (accessToken : string) (fid : FileId) : M BackupFile :=
  emit (CallDownload fid) ;;;
  await_io ;;;
  w <- getWorld ;;
  match drive w with
  | Some f =>
      if Pos.eqb (fileId f) fid then
        match backupOfJSON (body f) with
        | Some b => ret b
        | None => throw illTyped
        end
      else throw (notFound "download backup")
  | None => throw (notFound "download backup")
  end.

(** ** A map with insertion order ([Map<number, T>]) *)

Fixpoint map_set {V : Type} (k : Z) (v : V) (m : list (Z * V)) : list (Z * V) :=
  match m with
  | [] => [(k, v)]
  | (k', v') :: r => if k' =? k then (k, v) :: r else (k', v') :: map_set k v r
  end.

Fixpoint map_get {V : Type} (k : Z) (m : list (Z * V)) : option V :=
  match m with
  | [] => None
  | (k', v') :: r => if k' =? k then Some v' else map_get k r
  end.

Definition map_values {V : Type} (m : list (Z * V)) : list V := map snd m.

(** [s.id && ...], [if (!s.id) return]: undefined and 0 are falsy. *)
Definition truthyKey (i : option Z) : option Z :=
  match i with
  | Some k => if k =? 0 then None else Some k
  | None => None
  end.

Section Sync.

(** [Date.parse]: the time value of a date string, [None] for NaN. Only
    the ISO format is fixed by the language; the function is left to the
    runtime. *)
Variable Date_parse : string -> option Z.

(** The time value of [new Date(d)] for the content [d] of a date field. *)
Definition timeValue (d : Date) : option Z :=
  match d with
  | DateObj tv => tv
  | DateStr s => Date_parse s
  | DateNull => Some 0
  end.

Definition newDateOf (d : Date) : Date := DateObj (timeValue d).

(** [new Date(a) > new Date(b)]: false as soon as one side is NaN. *)
Definition laterThan (a b : Date) : bool :=
  match timeValue a, timeValue b with
  | Some x, Some y => y <? x
  | _, _ => false
  end.

(** *** importData (db.ts) *)

(** [{ ...s, createdAt: new Date(s.createdAt), updatedAt: new Date(s.updatedAt) }] *)
Definition rehydrate {A : Type} `{Row A} (s : A) : A :=
  with_stamps (newDateOf (row_createdAt s)) (newDateOf (row_updatedAt s)) s.

Definition importTable {A : Type} `{Row A} (tbl : TableRef A) (key : string)
    (decode : json -> option A) (data : json) : M unit :=
  found <- lift (arrayToImport key data) ;;
  match found with
  | Some l =>
      items <- lift (typed decode l) ;;
      bulkAdd tbl (map rehydrate items)
  | None => ret tt
  end.

Definition importData (jsonString : Text) : M unit :=
  data <- JSON_parse jsonString ;;
  transaction (
    clear statsRef ;;;
    clear entriesRef ;;;
    importTable statsRef "stats" statOfJSON data ;;;
    importTable entriesRef "entries" entryOfJSON data) ;;;
  emit (Imported data).

(** components/Settings.tsx, handleImportFile: what the user is told
    ([importError]) after the file has been read. *)
Definition handleImportFile (text : Text) : World -> string * World :=
fun w =>
  match importData text w with
  | (Ok _, w') => ("", w')
  | (Throw _, w') => ("failed to import: invalid file format", w')
  end.

(** *** google/syncService.ts *)

Definition buildBackupFile : M BackupFile :=
  stats <- toArray statsRef ;;
  entries <- toArray entriesRef ;;
  now <- newDate ;;
  ret (mkBackup
         (mkMetadata 1 (toISOString now) "1.0.0"
                     (Z.of_nat (List.length entries)) (Z.of_nat (List.length stats))
                     (generateChecksum (mkDataset stats entries)))
         (mkDataset stats entries)).

(** [cloud.data.stats.forEach((s) => s.id && mergedStats.set(s.id, s))] *)
Definition setCloud {A : Type} `{Row A} (merged : list (Z * A)) (s : A) : list (Z * A) :=
  match truthyKey (row_id s) with
  | Some k => map_set k s merged
  | None => merged
  end.

(** The body of [local.data.stats.forEach]. *)
Definition mergeLocal {A : Type} `{Row A} (merged : list (Z * A)) (s : A) : list (Z * A) :=
  match truthyKey (row_id s) with
  | None => merged
  | Some k =>
      match map_get k merged with
      | None => map_set k s merged
      | Some existing =>
          if laterThan (row_updatedAt s) (row_updatedAt existing)
          then map_set k s merged
          else merged
      end
  end.

Definition mergeRecords {A : Type} `{Row A} (local cloud : list A) : list A :=
  map_values (fold_left mergeLocal local (fold_left setCloud cloud [])).

(** mergeData; [now] is what its [new Date()] reads. *)
Definition mergeData (now : Z) (local cloud : BackupFile) : BackupFile :=
  let stats := mergeRecords (stats (data local)) (stats (data cloud)) in
  let entries := mergeRecords (entries (data local)) (entries (data cloud)) in
  mkBackup
    (mkMetadata 1 (toISOString now) "1.0.0"
                (Z.of_nat (List.length entries)) (Z.of_nat (List.length stats))
                (generateChecksum (mkDataset stats entries)))
    (mkDataset stats entries).

(** [JSON.stringify({ stats, entries, exportedAt })] *)
Definition importText (stats : list Stat.t) (entries : list Entry.t)
    (exportedAt : string) : Text :=
  TextOf (JObj [("stats", JArr (map statToJSON stats));
                ("entries", JArr (map entryToJSON entries));
                ("exportedAt", JStr exportedAt)]).

Definition syncUpdate (driveFileId : option FileId) (now : Z)
    (lastSyncChecksum : option string) : Settings.partial :=
  Settings.mkPartial None None driveFileId (Some (toISOString now)) lastSyncChecksum.

Definition success (msg : string) : SyncResult := mkResult StSuccess msg None None.

Definition resolveConflict (accessToken : string) (fileId : FileId)
    (localBackup cloudBackup : BackupFile) (resolution : ConflictResolution)
    : M SyncResult :=
  match resolution with
  | KeepLocal =>
      uploadBackup accessToken localBackup (Some fileId) ;;;
      now <- newDate ;;
      updateSettings (syncUpdate None now (Some (checksum (metadata localBackup)))) ;;;
      ret (success "Local data uploaded to cloud")
  | UseCloud =>
      importData (importText (stats (data cloudBackup)) (entries (data cloudBackup))
                             (exportedAt (metadata cloudBackup))) ;;;
      now <- newDate ;;
      updateSettings (syncUpdate None now (Some (checksum (metadata cloudBackup)))) ;;;
      ret (success "Cloud data restored to device")
  | Merge =>
      t <- newDate ;;
      let merged := mergeData t localBackup cloudBackup in
      t' <- newDate ;;
      importData (importText (stats (data merged)) (entries (data merged))
                             (toISOString t')) ;;;
      newBackup <- buildBackupFile ;;
      uploadBackup accessToken newBackup (Some fileId) ;;;
      now <- newDate ;;
      updateSettings (syncUpdate None now (Some (checksum (metadata newBackup)))) ;;;
      ret (success "Data merged successfully")
  end.

(** [a === b] where [a] may be undefined and [b] is a string. *)
Definition sameString (a : option string) (b : string) : bool :=
  match a with
  | Some s => String.eqb s b
  | None => false
  end.

(** The body of the [try] block of performSync. *)
Definition syncBody (accessToken : string)
    (conflictResolution : option ConflictResolution) : M SyncResult :=
  settings <- getSettings ;;
  localBackup <- buildBackupFile ;;
  existingFile <- findBackupFile accessToken ;;
  match existingFile with
  | None =>
      (* No cloud backup exists - just upload *)
      fileId <- uploadBackup accessToken localBackup None ;;
      now <- newDate ;;
      updateSettings
        (syncUpdate (Some fileId) now (Some (checksum (metadata localBackup)))) ;;;
      ret (success "Backup created in Google Drive")
  | Some existingId =>
      cloudBackup <- downloadBackup accessToken existingId ;;
      if String.eqb (checksum (metadata cloudBackup)) (checksum (metadata localBackup))
      then
        (* Same checksum - no changes needed *)
        now <- newDate ;;
        updateSettings (syncUpdate (Some existingId) now None) ;;;
        ret (mkResult StNoChanges "Data is already in sync" None None)
      else
        if sameString (Settings.lastSyncChecksum settings)
                      (checksum (metadata cloudBackup))
        then
            (* only local changed (cloud matches last sync) *)
            uploadBackup accessToken localBackup (Some existingId) ;;;
            now <- newDate ;;
            updateSettings
              (syncUpdate None now (Some (checksum (metadata localBackup)))) ;;;
            ret (success "Backup updated in Google Drive")
        else
            match conflictResolution with
            | None =>
                ret (mkResult StConflict "Both local and cloud data have changed"
                              (Some cloudBackup) (Some localBackup))
            | Some resolution =>
                resolveConflict accessToken existingId localBackup cloudBackup
                                resolution
            end
  end.

Definition errorMessage (error : exn) : string :=
  match error with
  | ErrorObj msg => msg
  | Thrown => "Unknown sync error"
  end.

Definition performSync (accessToken : string)
    (conflictResolution : option ConflictResolution) : World -> SyncResult * World :=
  fun w =>
    match syncBody accessToken conflictResolution w with
    | (Ok result, w') => (result, w')
    | (Throw error, w') => (mkResult StError (errorMessage error) None None, w')
    end.

End Sync.

(** * The rest of the application *)

(** ** The rest of db.ts *)

(** [table.count()] *)
Definition count {A : Type} (tbl : TableRef A) : M Z :=
  await_io ;;;
  w <- getWorld ;;
  ret (Z.of_nat (List.length (rows (tget tbl w)))).

(** [table.add(obj)]: the creating hook, then the insertion; the key is
    returned. *)
Definition add {A : Type} `{Row A} (tbl : TableRef A) (obj : A) : M Z :=
  await_io ;;;
  w <- getWorld ;;
  obj' <- creatingHook obj ;;
  match tableAdd obj' (tget tbl w) with
  | Some t' =>
      putTable tbl t' ;;;
      ret (match row_id obj' with Some k => k | None => keygen (tget tbl w) end)
  | None => throw constraintError
  end.

Definition DEFAULT_COLORS : list string :=
  ["#e07a5f"; "#3d405b"; "#81b29a"; "#f2cc8f"; "#9a8c98"; "#c9ada7"; "#577590"; "#f4a261"].

(** A date field of an object literal that does not mention it: the
    creating hook writes it before the object is stored. *)
Definition notYet : Date := DateNull.

(** [{ name, color, order } as Stat] *)
Definition newStat (name color : string) (order : Z) : Stat.t :=
  Stat.mk None name color order notYet notYet.

(** [db.settings.count()]: the table holds the row that [first()] reads,
    or nothing. *)
Definition settingsCount : M Z :=
  await_io ;;;
  w <- getWorld ;;
  ret (match settingsRow w with Some _ => 1 | None => 0 end).

(** [db.settings.add({ daysToShow })]; [key] is what the key generator of
    the settings table gives. *)
Definition addSettings (key : positive) (daysToShow : Z) : M unit :=
  await_io ;;;
  c <- newDate ;;
  u <- newDate ;;
  fun w =>
    (Ok tt,
     set_settingsRow
       (Some (Settings.mk (Some key) None daysToShow None None None None
                          (Some (DateObj (Some c))) (Some (DateObj (Some u))))) w).

Definition initializeDatabase (settingsKey : positive) : M unit :=
  statCount <- count statsRef ;;
  (if statCount =? 0
   then add statsRef (newStat "mood" (nth 0 DEFAULT_COLORS "") 0) ;;; ret tt
   else ret tt) ;;;
  settingsCount <- settingsCount ;;
  if settingsCount =? 0
  then addSettings settingsKey (Settings.daysToShow DEFAULT_SETTINGS)
  else ret tt.

(** getNextColor; [random] is what
    [Math.floor(Math.random() * DEFAULT_COLORS.length)] evaluates to. *)
Definition getNextColor (random : nat) (existingStats : list Stat.t) : string :=
  let usedColors := map Stat.color existingStats in
  match find (fun c => negb (existsb (String.eqb c) usedColors)) DEFAULT_COLORS with
  | Some available => available
  | None => nth random DEFAULT_COLORS ""
  end.

(** [s.split(sep)[0]] for a separator of one character. *)
Fixpoint firstField (sep : ascii) (s : string) : string :=
  match s with
  | EmptyString => EmptyString
  | String c r => if Ascii.eqb c sep then EmptyString else String c (firstField sep r)
  end.

Definition getTodayDateString : M string :=
  now <- newDate ;;
  ret (firstField "T" (toISOString now)).

(** ** Signing in (google/GoogleAuthContext.tsx) *)

Module GoogleAuthState.
Record t : Type := mk {
  accessToken : option string;
  expiresAt : option Z;
  userEmail : option string;
  userPicture : option string
}.
End GoogleAuthState.

(** [!!s] for a string that may be null: null and the empty string are
    falsy. *)
Definition truthyString (s : option string) : bool :=
  match s with
  | Some s => negb (String.eqb s "")
  | None => false
  end.

(** [onSuccess] of useGoogleLogin: [userInfo] is the email and the picture
    the userinfo endpoint answered, or nothing when that request failed;
    [now] is what [Date.now()] reads then. *)
Definition onSuccess (access_token : string) (expires_in : Z)
    (userInfo : option (option string * option string)) (now : Z) : GoogleAuthState.t :=
  match userInfo with
  | Some (email, picture) =>
      GoogleAuthState.mk (Some access_token) (Some (now + expires_in * 1000)) email picture
  | None =>
      GoogleAuthState.mk (Some access_token) (Some (now + expires_in * 1000)) None None
  end.

Definition handleLogout : GoogleAuthState.t := GoogleAuthState.mk None None None None.

Definition isAuthenticated (authState : GoogleAuthState.t) : bool :=
  truthyString (GoogleAuthState.accessToken authState).

(** getValidAccessToken; [Date.now()] is a reading of the clock, made only
    when [expiresAt] is truthy. *)
Definition getValidAccessToken (authState : GoogleAuthState.t) : M (option string) :=
  if negb (truthyString (GoogleAuthState.accessToken authState)) then ret None
  else
    match GoogleAuthState.expiresAt authState with
    | Some expiresAt =>
        if expiresAt =? 0 then ret (GoogleAuthState.accessToken authState)
        else
          now <- newDate ;;
          if expiresAt - 300000 <? now then ret None
          else ret (GoogleAuthState.accessToken authState)
    | None => ret (GoogleAuthState.accessToken authState)
    end.

Section Callers.

Variable Date_parse : string -> option Z.

(** performSync as the callers await it: it never rejects. *)
Definition awaitSync (accessToken : string)
    (conflictResolution : option ConflictResolution) : M SyncResult :=
  fun w =>
    let '(result, w') := performSync Date_parse accessToken conflictResolution w in
    (Ok result, w').

Definition isConflict (result : SyncResult) : bool :=
  match status result with StConflict => true | _ => false end.

(** ** hooks/useAutoSync.ts *)

(** triggerSync; [onLine] is [navigator.onLine], [onConflict] tells
    whether the callback was given; the answer is the result the callback
    is called with. *)
Definition triggerSync (onLine : bool) (authState : GoogleAuthState.t)
    (onConflict : bool) : M (option SyncResult) :=
  if negb onLine then ret None
  else if negb (isAuthenticated authState) then ret None
  else
    settings <- getSettings ;;
    match Settings.syncEnabled settings with
    | Some true =>
        token <- getValidAccessToken authState ;;
        match token with
        | Some token =>
            result <- awaitSync token None ;;
            if isConflict result && onConflict then ret (Some result) else ret None
        | None => ret None
        end
    | _ => ret None
    end.

(** ** components/GoogleSyncSection.tsx *)

Inductive SyncStatusUi : Type := UiIdle | UiSyncing | UiSuccess | UiError.

(** The state of the section: [syncStatus], [syncMessage],
    [conflictResult] (the conflict dialog is open when it is set). *)
Record SectionState : Type := mkSection {
  syncStatus : SyncStatusUi;
  syncMessage : string;
  conflictResult : option SyncResult
}.

(** handleManualSync: the state of the section when the handler returns
    (three seconds after a success the status goes back to idle). *)
Definition handleManualSync (authState : GoogleAuthState.t) (ui : SectionState)
    : M SectionState :=
  token <- getValidAccessToken authState ;;
  match token with
  | None => ret (mkSection UiError "Please sign in again" (conflictResult ui))
  | Some token =>
      result <- awaitSync token None ;;
      match status result with
      | StConflict => ret (mkSection UiIdle (syncMessage ui) (Some result))
      | StError => ret (mkSection UiError (message result) (conflictResult ui))
      | _ => ret (mkSection UiSuccess (message result) (conflictResult ui))
      end
  end.

(** handleConflictResolution of the section. *)
Definition handleConflictResolution (authState : GoogleAuthState.t)
    (resolution : ConflictResolution) (ui : SectionState) : M SectionState :=
  token <- getValidAccessToken authState ;;
  match token with
  | None => ret (mkSection UiSyncing (syncMessage ui) None)
  | Some token =>
      result <- awaitSync token (Some resolution) ;;
      match status result with
      | StSuccess => ret (mkSection UiSuccess (message result) None)
      | _ => ret (mkSection UiError (message result) None)
      end
  end.

End Callers.

(** ** components/Settings.tsx: deleting a stat *)

(** [table.where(index).equals(v).delete()] and [table.delete(key)]: the
    rows that match are removed. *)
Definition deleteWhere {A : Type} (tbl : TableRef A) (matches : A -> bool) : M unit :=
  await_io ;;;
  w <- getWorld ;;
  putTable tbl (mkTable (filter (fun r => negb (matches r)) (rows (tget tbl w)))
                        (keygen (tget tbl w))).

Definition handleDelete (id : Z) : M unit :=
  transaction (
    deleteWhere entriesRef (fun e => Entry.statId e =? id) ;;;
    deleteWhere statsRef (keyIs id)).

(** ** A [Map] with keys of any type, in insertion order *)

Section KeyedMap.

Context {K V : Type} (eqb : K -> K -> bool).

(** [m.get(k)] *)
Fixpoint assoc (k : K) (m : list (K * V)) : option V :=
  match m with
  | [] => None
  | (k', v) :: r => if eqb k' k then Some v else assoc k r
  end.

(** [if (!m.has(k)) m.set(k, init); change(m.get(k))], the value being
    changed in place. *)
Fixpoint upsert (k : K) (init : V) (change : V -> V) (m : list (K * V)) : list (K * V) :=
  match m with
  | [] => [(k, change init)]
  | (k', v) :: r =>
      if eqb k' k then (k', change v) :: r else (k', v) :: upsert k init change r
  end.

(** [m.set(k, v)] *)
Definition assocSet (k : K) (v : V) (m : list (K * V)) : list (K * V) :=
  upsert k v (fun _ => v) m.

End KeyedMap.

(** [array.sort(comparefn)] for a consistent comparison function: the
    stable sort. [before a b] tells that [comparefn(a, b) <= 0]. *)
Fixpoint insertSorted {A : Type} (before : A -> A -> bool) (x : A) (l : list A) : list A :=
  match l with
  | [] => [x]
  | y :: r => if before x y then x :: l else y :: insertSorted before x r
  end.

Definition sortBy {A : Type} (before : A -> A -> bool) (l : list A) : list A :=
  fold_right (insertSorted before) [] l.

(** ** components/History.tsx *)

Section History.

(** [a.localeCompare(b)]: negative, zero or positive; the order is that
    of the locale of the browser. *)
Variable localeCompare : string -> string -> Z.

Definition groupEntriesByDate (entries : list Entry.t) : list (string * list Entry.t) :=
  let groups :=
    fold_left (fun groups entry =>
                 upsert String.eqb (Entry.date entry) [] (fun es => es ++ [entry])%list groups)
              entries [] in
  sortBy (fun a b => localeCompare (fst b) (fst a) <=? 0) groups.

End History.

(** ** components/Chart.tsx *)

Section Chart.

(** The numbers of the chart and the division of JavaScript, applied to
    the sum of the ratings of a day and their count. *)
Variable number : Type.
Variable divide : Z -> Z -> number.

Definition optZ_eqb (a b : option Z) : bool :=
  match a, b with
  | Some x, Some y => x =? y
  | None, None => true
  | _, _ => false
  end.

(** [vals.reduce((a, b) => a + b, 0) / vals.length] *)
Definition average (vals : list Z) : number :=
  divide (fold_left Z.add vals 0) (Z.of_nat (List.length vals)).

Definition byDateAndStat (entries : list Entry.t) : list (string * list (Z * list Z)) :=
  fold_left (fun m entry =>
               upsert String.eqb (Entry.date entry) []
                      (fun dateMap =>
                         upsert Z.eqb (Entry.statId entry) []
                                (fun vals => vals ++ [Entry.value entry])%list dateMap)
                      m)
            entries [].

(** The value of a stat on a date: null, or the average of its ratings. *)
Definition seriesValue (m : list (string * list (Z * list Z))) (statId : option Z)
    (date : string) : option number :=
  match assoc String.eqb date m with
  | None => None
  | Some dateMap =>
      match statId with
      | None => None            (* no key of the map is undefined *)
      | Some k =>
          match assoc Z.eqb k dateMap with
          | None => None
          | Some [] => None
          | Some vals => Some (average vals)
          end
      end
  end.

(** processChartData: the dates, and the series of each stat. The dates
    are sorted as strings, by their code units. *)
Definition processChartData (entries : list Entry.t) (stats : list Stat.t)
    : list string * list (option Z * list (option number)) :=
  let m := byDateAndStat entries in
  let dates := sortBy String.leb (map fst m) in
  let series :=
    fold_left (fun series stat =>
                 assocSet optZ_eqb (Stat.id stat)
                          (map (seriesValue m (Stat.id stat)) dates) series)
              stats [] in
  (dates, series).

(** getXLabels: the dates to write under the axis, with their index. *)
Definition getXLabels (dates : list string) : list (string * nat) :=
  let n := List.length dates in
  if (n =? 0)%nat then []
  else if (n <=? 3)%nat then combine dates (seq 0 n)
  else
    let midIndex := (n / 2)%nat in
    [(nth 0 dates "", 0%nat); (nth midIndex dates "", midIndex);
     (nth (n - 1) dates "", (n - 1)%nat)].

End Chart.

(** ** components/Settings.tsx: adding a stat *)

(** WhiteSpace and LineTerminator among the code units below 256. *)
Definition isWhiteSpace (c : ascii) : bool :=
  let n := charCode c in
  (n =? 9) || (n =? 10) || (n =? 11) || (n =? 12) || (n =? 13) || (n =? 32) || (n =? 160).

Fixpoint trimStart (s : string) : string :=
  match s with
  | EmptyString => EmptyString
  | String c r => if isWhiteSpace c then trimStart r else s
  end.

Fixpoint trimEnd (s : string) : string :=
  match s with
  | EmptyString => EmptyString
  | String c r =>
      match trimEnd r with
      | EmptyString => if isWhiteSpace c then EmptyString else String c EmptyString
      | r' => String c r'
      end
  end.

(** [s.trim()] *)
Definition trim (s : string) : string := trimEnd (trimStart s).

(** The lower case of a code unit below 256: of a letter A-Z, and of a
    capital letter of Latin-1. *)
Definition lowerChar (c : ascii) : ascii :=
  let n := charCode c in
  if ((65 <=? n) && (n <=? 90)) || ((192 <=? n) && (n <=? 214))
     || ((216 <=? n) && (n <=? 222))
  then ascii_of_N (Z.to_N (n + 32))
  else c.

(** [s.toLowerCase()] *)
Fixpoint toLowerCase (s : string) : string :=
  match s with
  | EmptyString => EmptyString
  | String c r => String (lowerChar c) (toLowerCase r)
  end.

(** [stats.length > 0 ? Math.max(...stats.map((s) => s.order)) : -1] *)
Definition maxOrder (stats : list Stat.t) : Z :=
  match map Stat.order stats with
  | [] => -1
  | o :: os => fold_left Z.max os o
  end.

(** handleAddStat; [stats] is the list the page was given, [random] what
    getNextColor draws; the answer is the content of the input field
    afterwards. *)
Definition handleAddStat (newStatName : string) (stats : list Stat.t) (random : nat)
    : M string :=
  if String.eqb (trim newStatName) "" then ret newStatName
  else
    add statsRef (newStat (toLowerCase (trim newStatName)) (getNextColor random stats)
                          (maxOrder stats + 1)) ;;;
    ret "".

(** ** components/QuickEntry.tsx: recording a rating *)

Module QuickEntry.
Record state : Type := mk {
  selectedStatId : option Z;
  value : Z;
  isSubmitting : bool;
  showSuccess : bool
}.
End QuickEntry.

(** [{ statId, value, date } as Entry] *)
Definition newEntry (statId value : Z) (date : string) : Entry.t :=
  Entry.mk None statId value date notYet notYet.

(** handleSubmit: what the handler answers (it rejects when the insertion
    does) and the state of the component it leaves; [finally] resets
    [isSubmitting] on both paths. (A second after a success [showSuccess]
    goes back to false.) *)
Definition handleSubmit (st : QuickEntry.state)
    : World -> (Result unit * QuickEntry.state) * World :=
  fun w =>
    match truthyKey (QuickEntry.selectedStatId st), QuickEntry.isSubmitting st with
    | Some statId, false =>
        match (today <- getTodayDateString ;;
               add entriesRef (newEntry statId (QuickEntry.value st) today)) w with
        | (Ok _, w') =>
            ((Ok tt, QuickEntry.mk (QuickEntry.selectedStatId st) 5 false true), w')
        | (Throw e, w') =>
            ((Throw e,
              QuickEntry.mk (QuickEntry.selectedStatId st) (QuickEntry.value st) false
                            (QuickEntry.showSuccess st)), w')
        end
    | _, _ => ((Ok tt, st), w)
    end.

(** ** components/Settings.tsx: the number of days of the chart *)

(** handleDaysChange: what the handler answers and the number the slider
    of the page shows afterwards ([setDaysToShow] runs before the store is
    asked). *)
Definition handleDaysChange (value : Z) : World -> (Result unit * Z) * World :=
  fun w =>
    match updateSettings (Settings.mkPartial (Some value) None None None None) w with
    | (r, w') => ((r, value), w')
    end.

(** ** Vocabulary of the statements *)

(** No awaited call of the run rejects. *)
Definition quiet (w : World) : Prop := forall n, fault w n = None.

(** The dataset buildBackupFile reads from the store. *)
Definition localData (w : World) : Dataset :=
  mkDataset (rows (statsT w)) (rows (entriesT w)).

(** The backup file buildBackupFile returns when its clock reading is [now]. *)
Definition builtAt (now : Z) (d : Dataset) : BackupFile :=
  mkBackup
    (mkMetadata 1 (toISOString now) "1.0.0"
                (Z.of_nat (List.length (entries d))) (Z.of_nat (List.length (stats d)))
                (generateChecksum d))
    d.

(** The remote backup a run finds and downloads. *)
Definition remoteBackup (w : World) : option (FileId * BackupFile) :=
  match drive w with
  | Some f =>
      match backupOfJSON (body f) with
      | Some b => Some (fileId f, b)
      | None => None
      end
  | None => None
  end.

(** The fields of a record the checksum looks at. *)
Definition statFields (s : Stat.t) : option Z * string * Date :=
  (Stat.id s, Stat.name s, Stat.updatedAt s).

Definition entryFields (e : Entry.t) : option Z * Z * Date :=
  (Entry.id e, Entry.value e, Entry.updatedAt e).

(** An entry moved to another day and another stat. *)
Definition moved (date : Entry.t -> string) (statId : Entry.t -> Z) (e : Entry.t) : Entry.t :=
  Entry.mk (Entry.id e) (statId e) (Entry.value e) (date e)
           (Entry.createdAt e) (Entry.updatedAt e).

(** [s] takes part in the merge under the key [k]: its identifier is [k]
    and is truthy. *)
Definition keyed {A : Type} `{Row A} (k : Z) (s : A) : Prop :=
  truthyKey (row_id s) = Some k.

(** [x] is the one record of [xs] with the key [k]. *)
Definition onlyWith {A : Type} `{Row A} (k : Z) (x : A) (xs : list A) : Prop :=
  In x xs /\ keyed k x /\ forall y, In y xs -> keyed k y -> y = x.

(** What the two record types owe to the operations of [Row]. *)
Class RowLaws (A : Type) `{Row A} : Prop := {
  id_with_stamps : forall c u (s : A), row_id (with_stamps c u s) = row_id s;
  id_with_id : forall k (s : A), row_id (with_id k s) = Some k;
  createdAt_stored : forall k c u (s : A),
      row_createdAt (with_id k (with_stamps c u s)) = c;
  updatedAt_stored : forall k c u (s : A),
      row_updatedAt (with_id k (with_stamps c u s)) = u;
  stamps_twice : forall c u c' u' (s : A),
      with_stamps c u (with_stamps c' u' s) = with_stamps c u s
}.

(** What bulkAdd makes of a table when the clock reads [clock n],
    [clock (n+1)], ... in the hooks: the table with the items added, or
    nothing when a key is refused; and the number of the next reading. *)
Fixpoint stampAll {A : Type} `{Row A} (items : list A) (t : Table A)
    (clock : nat -> Z) (n : nat) : option (Table A) * nat :=
  match items with
  | [] => (Some t, n)
  | obj :: rest =>
      match tableAdd (with_stamps (DateObj (Some (clock n)))
                                  (DateObj (Some (clock (S n)))) obj) t with
      | Some t' => stampAll rest t' clock (S (S n))
      | None => (None, S (S n))
      end
  end.

(** The record [r] is [obj] as the store keeps it after an insertion made
    between the clock readings [lo] and [hi]: with the identifier of [obj]
    or, if it has none, one that the key generator (at [floor] or above)
    gave, and with both stamps read from the clock at the insertion. *)
Definition storedAs {A : Type} `{Row A} (clock : nat -> Z) (lo hi : nat) (floor : Z)
    (obj r : A) : Prop :=
  exists i key,
    (lo <= i /\ S i < hi)%nat /\
    r = with_id key (with_stamps (DateObj (Some (clock i)))
                                 (DateObj (Some (clock (S i)))) obj) /\
    match row_id obj with
    | Some k => key = k
    | None => floor <= key
    end.

(** Every row of the table has its key, below the key generator. *)
Definition tableKeyed {A : Type} `{Row A} (t : Table A) : Prop :=
  forall r, In r (rows t) -> exists k, row_id r = Some k /\ k < keygen t.

(** The table [t'] holds the records of [source], as stored by an insertion
    made between the clock readings [lo] and [hi], and nothing else: a key
    of [t] that no record of [source] has is gone. *)
Definition replacedBy {A : Type} `{Row A} (clock : nat -> Z) (lo hi : nat)
    (source : list A) (t t' : Table A) : Prop :=
  (forall c, In c source ->
     exists r, In r (rows t') /\ storedAs clock lo hi (keygen t) c r) /\
  (forall r, In r (rows t') ->
     exists c, In c source /\ storedAs clock lo hi (keygen t) c r) /\
  (forall k, hasKey k (rows t) = true ->
     (forall c, In c source -> row_id c <> Some k) ->
     hasKey k (rows t') = false).

Section MergeVocabulary.

Variable Date_parse : string -> option Z.

(** What the merge of two collections is: no identifier twice; every
    record kept comes from one of the two collections and has an
    identifier that is neither missing nor 0; every such identifier of
    either collection is kept; where both collections have one record
    with an identifier, the local one is kept if its updatedAt is
    strictly later, the cloud one otherwise. *)
Definition mergeSpec {A : Type} `{Row A} (local cloud result : list A) : Prop :=
  NoDup (map row_id result) /\
  (forall r, In r result ->
     (In r local \/ In r cloud) /\ exists k, row_id r = Some k /\ k <> 0) /\
  (forall r k, In r local \/ In r cloud -> row_id r = Some k -> k <> 0 ->
     exists r', In r' result /\ row_id r' = Some k) /\
  (forall k l c, onlyWith k l local -> onlyWith k c cloud ->
     In (if laterThan Date_parse (row_updatedAt l) (row_updatedAt c) then l else c)
        result).

(** The records importData inserts into a table for the property [key]
    of the parsed text. *)
Definition itemsToImport {A : Type} `{Row A} (key : string)
    (decode : json -> option A) (data : json) : Result (list A) :=
  match arrayToImport key data with
  | Ok (Some l) =>
      match typed decode l with
      | Ok items => Ok (map (rehydrate Date_parse) items)
      | Throw e => Throw e
      end
  | Ok None => Ok []
  | Throw e => Throw e
  end.

End MergeVocabulary.

(** No two rows of the table have the same key. *)
Definition tableUnique {A : Type} `{Row A} (t : Table A) : Prop :=
  NoDup (map row_id (rows t)).

(** A row read from the settings table carries its primary key. *)
Definition settingsKeyed (w : World) : Prop :=
  forall s, settingsRow w = Some s -> Settings.id s <> None.

(** What updateSettings leaves in the table: the changes and the stamp of
    the updating hook on the row it finds, nothing without a row. *)
Definition settingsAfter (changes : Settings.partial) (stamp : Z)
    (row : option Settings.t) : option Settings.t :=
  match row with
  | Some s =>
      match Settings.id s with
      | Some _ => Some (Settings.modify changes (DateObj (Some stamp)) s)
      | None => row
      end
  | None => None
  end.

Definition writtenBy (changes : Settings.partial) (row : option Settings.t) : list Event :=
  match row with
  | Some s =>
      match Settings.id s with
      | Some _ => [SettingsWritten changes]
      | None => []
      end
  | None => []
  end.

(** An event that leaves the watermark alone: anything but a settings write
    that carries a checksum. *)
Definition carriesNoMark (ev : Event) : Prop :=
  match ev with
  | SettingsWritten changes => Settings.p_lastSyncChecksum changes = None
  | _ => True
  end.

(** The events [evs] end with the step that makes the checksum [c] the one
    of the last synchronisation: the upload of a backup file with that
    checksum has returned, or the import has been committed. *)
Definition confirmed (evs : list Event) (c : string) : Prop :=
  exists pre ev,
    evs = (pre ++ [ev])%list /\
    match ev with
    | Uploaded _ b => checksum (metadata b) = c
    | Imported _ => True
    | _ => False
    end.

(** What a run of the body of performSync may have done when it ends in
    the world [w'] with the outcome [r]: either it left the watermark as it
    was, or it succeeded and its last event is the settings write that
    records the checksum [c], right after the step that confirms [c]. *)
Definition disciplinedRun (w : World) (r : Result SyncResult) (w' : World) : Prop :=
  (exists evs,
      log w' = (log w ++ evs)%list /\ Forall carriesNoMark evs /\
      watermark w' = watermark w /\
      forall res, r = Ok res -> status res <> StError) \/
  (exists evs changes c res,
      r = Ok res /\ status res = StSuccess /\
      log w' = (log w ++ evs ++ [SettingsWritten changes])%list /\
      Forall carriesNoMark evs /\
      Settings.p_lastSyncChecksum changes = Some c /\
      watermark w' = Some c /\
      confirmed evs c).

(** A computation that never writes the settings row and whose events
    carry no checksum, whatever its outcome. *)
Definition calm {A : Type} (m : M A) : Prop :=
  forall w r w', m w = (r, w') ->
    settingsRow w' = settingsRow w /\
    exists evs, log w' = (log w ++ evs)%list /\ Forall carriesNoMark evs.

(** The tables a computation is calm on: the two of the store. *)
Definition calmRef {A : Type} (tbl : TableRef A) : Prop :=
  forall t, calm (putTable tbl t).

(** A computation all of whose runs are disciplined. *)
Definition disciplined (m : M SyncResult) : Prop :=
  forall w r w', m w = (r, w') -> disciplinedRun w r w'.

(** A computation that stops at the first call that rejects: it only
    moves the counter of calls forward and leaves the oracle alone, and
    when one of the calls it made was rejected, that call was its last and
    it throws what the call threw. *)
Definition stopsAtRejection {A : Type} (m : M A) : Prop :=
  forall w r w', m w = (r, w') ->
    (calls w <= calls w')%nat /\ fault w' = fault w /\
    forall n e, (calls w <= n < calls w')%nat -> fault w n = Some e ->
      r = Throw e /\ calls w' = S n.

(** The invariant of the two maps of mergeData. *)
Definition mergeInv {A : Type} `{Row A} (l1 l2 : list A) (m : list (Z * A)) : Prop :=
  NoDup (map fst m) /\
  forall k v, In (k, v) m -> keyed k v /\ (In v l1 \/ In v l2).

(** ** Dates that survive the JSON round trip *)

(** A time value a [Date] object can hold: at most 8.64e15 milliseconds
    on either side of the epoch. *)
Definition validTime (t : Z) : Prop := -8640000000000000 <= t <= 8640000000000000.

(** What the store's hooks leave in a date field: a valid [Date] object. *)
Definition storedDate (d : Date) : Prop :=
  match d with
  | DateObj (Some t) => validTime t
  | _ => False
  end.

Definition stamped {A : Type} `{Row A} (s : A) : Prop :=
  storedDate (row_createdAt s) /\ storedDate (row_updatedAt s).

Definition storedDates (d : Dataset) : Prop :=
  Forall stamped (stats d) /\ Forall stamped (entries d).

(** [f] holds of the [n] integers from [z] on. *)
Fixpoint checkFrom (n : nat) (z : Z) (f : Z -> bool) : bool :=
  match n with
  | O => true
  | S k => f z && checkFrom k (z + 1) f
  end.

(** On the day [doe] of the era that starts on 0000-03-01, the calendar
    date of [civilFromDays] is a date, and [daysFromCivil] leads back. *)
Definition civilOK (doe : Z) : bool :=
  let '(y, m, d) := civilFromDays (doe - 719468) in
  (daysFromCivil y m d =? doe - 719468) && (1 <=? m) && (m <=? 12)
  && (1 <=? d) && (d <=? 31) && (0 <=? y) && (y <=? 400).

(** ** Vocabulary of the further properties *)

(** A component [f] of the world that a computation hands back as it found
    it, whatever its outcome. *)
Definition keeps {X A : Type} (f : World -> X) (m : M A) : Prop :=
  forall w r w', m w = (r, w') -> f w' = f w.

(** [f] does not look at the counters and the trace of the world. *)
Definition bookkeepingFree {X : Type} (f : World -> X) : Prop :=
  (forall n w, f (set_calls n w) = f w) /\
  (forall n w, f (set_reads n w) = f w) /\
  (forall n w, f (set_created n w) = f w) /\
  (forall l w, f (set_log l w) = f w).

Definition driveFree {X : Type} (f : World -> X) : Prop :=
  forall d w, f (set_drive d w) = f w.

Definition settingsFree {X : Type} (f : World -> X) : Prop :=
  forall s w, f (set_settingsRow s w) = f w.

Definition tablesFree {X : Type} (f : World -> X) : Prop :=
  (forall t w, f (set_statsT t w) = f w) /\
  (forall t w, f (set_entriesT t w) = f w).

(** The two tables of the store. *)
Definition tables (w : World) : Table Stat.t * Table Entry.t := (statsT w, entriesT w).

(** What the environment decides: which calls reject, what the clock
    reads, which identifiers Drive hands out. *)
Definition environment (w : World) : (nat -> option exn) * (nat -> Z) * (nat -> FileId) :=
  (fault w, clock w, freshId w).

(** The identifier of the remote backup file. *)
Definition remoteId (w : World) : option FileId := option_map fileId (drive w).

(** Local and remote data agree: the remote file holds a backup file whose
    checksum is that of the local dataset. *)
Definition sidesAgree (w : World) : Prop :=
  exists fid b, remoteBackup w = Some (fid, b) /\
                checksum (metadata b) = generateChecksum (localData w).

(** What an upload into the existing file, followed by the record of the
    run, leaves. *)
Definition uploadedInto (fid : FileId) (msg : string) (w : World) (r : SyncResult)
    (w' : World) : Prop :=
  let local := builtAt (clock w (reads w)) (localData w) in
  let changes := syncUpdate None (clock w (S (reads w)))
                            (Some (generateChecksum (localData w))) in
  r = success msg /\
  drive w' = Some (mkDriveFile fid (backupToJSON local)) /\
  tables w' = tables w /\
  settingsRow w' = settingsAfter changes (clock w (S (S (reads w)))) (settingsRow w) /\
  log w' = (log w ++ [CallList; CallDownload fid; CallUpload local (Some fid);
                      Uploaded fid local]
                  ++ writtenBy changes (settingsRow w))%list.

(** What the merge resolution leaves in the remote folder and in the
    settings: the backup file built from the store after the import, and
    its checksum. *)
Definition mergeRecorded (fid : FileId) (w w' : World) : Prop :=
  exists t1 t2 t3,
    drive w' = Some (mkDriveFile fid (backupToJSON (builtAt t1 (localData w')))) /\
    settingsRow w' =
      settingsAfter (syncUpdate None t2 (Some (generateChecksum (localData w')))) t3
                    (settingsRow w).

(** The character [c] does not occur in [s]. *)
Fixpoint avoids (c : ascii) (s : string) : bool :=
  match s with
  | EmptyString => true
  | String c' r => negb (Ascii.eqb c' c) && avoids c r
  end.

(** The store as initializeDatabase wants it: a stat to record, and the
    settings row with its key. *)
Definition initialized (w : World) : Prop :=
  rows (statsT w) <> [] /\
  exists s, settingsRow w = Some s /\ Settings.id s <> None.

(** The JSON values in which importData finds no record: anything but
    null that is not an object, and an object that has neither stats nor
    entries. *)
Definition holdsNoRecords (data : json) : Prop :=
  match data with
  | JNull => False
  | JObj m => lookup "stats" m = None /\ lookup "entries" m = None
  | _ => True
  end.

(** The user has switched the automatic backup on. *)
Definition syncSwitchedOn (w : World) : Prop :=
  exists s, settingsRow w = Some s /\ Settings.syncEnabled s = Some true.

(** The token of [authState] is handed out at every reading of the clock
    of [w]: it has no expiry time, or the clock stays five minutes short
    of it. *)
Definition tokenStaysValid (authState : GoogleAuthState.t) (tok : string) (w : World)
    : Prop :=
  GoogleAuthState.accessToken authState = Some tok /\ tok <> "" /\
  forall e, GoogleAuthState.expiresAt authState = Some e ->
            forall n, clock w n <= e - 300000.

(** The local and the remote data have both changed since the last
    synchronisation. *)
Definition bothChanged (w : World) (fid : FileId) (cloud : BackupFile) : Prop :=
  remoteBackup w = Some (fid, cloud) /\
  checksum (metadata cloud) <> generateChecksum (localData w) /\
  watermark w <> Some (checksum (metadata cloud)).

(** Every entry belongs to a stat of the store. *)
Definition referencesKept (w : World) : Prop :=
  forall e, In e (rows (entriesT w)) -> hasKey (Entry.statId e) (rows (statsT w)) = true.

(** The entries of the list that are of the day [date]. *)
Definition entriesOn (date : string) (entries : list Entry.t) : list Entry.t :=
  filter (fun e => String.eqb (Entry.date e) date) entries.

(** The ratings of the stat [statId] on the day [date], in the order of
    the list. *)
Definition ratingsOn (date : string) (statId : Z) (entries : list Entry.t) : list Z :=
  map Entry.value
      (filter (fun e => Entry.statId e =? statId) (entriesOn date entries)).

(** The map a loop builds that, for each element of a list, finds or
    creates the value of the element's key and changes it. *)
Definition collect {K V X : Type} (eqb : K -> K -> bool) (key : X -> K)
    (step : X -> V -> V) (init : V) (l : list X) (m : list (K * V)) : list (K * V) :=
  fold_left (fun m x => upsert eqb (key x) init (step x) m) l m.

(** ** A store and a remote folder to run the service on *)

Module Example.

Definition jan1 : string := "2023-01-01T00:00:00.000Z".

(** The clock of the device: some day in November 2023, a millisecond
    further at each reading. *)
Definition clock : nat -> Z := fun n => Z.of_nat n + 1700000000000.

Definition noFault : nat -> option exn := fun _ => None.

Definition ids : nat -> FileId := fun n => Pos.of_succ_nat n.

Definition settings : Settings.t :=
  Settings.mk (Some 1%positive) None 14 (Some true) None None None
              (Some (DateObj (Some 1690000000000))) (Some (DateObj (Some 1690000000000))).

(** What another device uploaded on the first of January. *)
Definition cloudData : Dataset :=
  mkDataset
    [Stat.mk (Some 1) "mood" "#e07a5f" 0 (DateStr jan1) (DateStr jan1)]
    [Entry.mk (Some 1) 1 7 "2023-01-01" (DateStr jan1) (DateStr jan1)].

Definition cloud : BackupFile := builtAt 1672531200000 cloudData.

(** What this device holds: the same stat, and an entry of its own. *)
Definition localStats : Table Stat.t :=
  mkTable [Stat.mk (Some 1) "mood" "#e07a5f" 0
                   (DateObj (Some 1690000000000)) (DateObj (Some 1690000000000))] 2.

Definition localEntries : Table Entry.t :=
  mkTable [Entry.mk (Some 5) 1 3 "2023-07-22"
                    (DateObj (Some 1690000000001)) (DateObj (Some 1690000000001))] 6.

Definition emptyStats : Table Stat.t := mkTable [] 1.
Definition emptyEntries : Table Entry.t := mkTable [] 1.

Definition remote (b : BackupFile) : option DriveFile :=
  Some (mkDriveFile 7%positive (backupToJSON b)).

Definition world (st : Table Stat.t) (en : Table Entry.t) (se : option Settings.t)
    (dr : option DriveFile) : World :=
  mkWorld st en se dr ids 0 clock 0 noFault 0 [].

(** Both sides changed since the last synchronisation. *)
Definition conflicting : World :=
  world localStats localEntries (Some settings) (remote cloud).

(** Only this device changed: the watermark is the checksum of the remote
    file. *)
Definition syncedSettings : Settings.t :=
  Settings.mk (Some 1%positive) None 14 (Some true) (Some jan1)
              (Some (checksum (metadata cloud))) (Some 7%positive)
              (Some (DateObj (Some 1690000000000))) (Some (DateObj (Some 1690000000000))).

Definition localChanged : World :=
  world localStats localEntries (Some syncedSettings) (remote cloud).

(** A device that holds nothing, and a remote file that holds nothing. *)
Definition inSync : World :=
  world emptyStats emptyEntries (Some settings) (remote (builtAt 0 (mkDataset [] []))).

(** A cloud dataset whose stat has the identifier 0. *)
Definition zeroStat : Stat.t :=
  Stat.mk (Some 0) "sleep" "#81b29a" 1 (DateStr jan1) (DateStr jan1).

Definition cloudWithZero : BackupFile := builtAt 1672531200000 (mkDataset [zeroStat] []).

(** The same entry on both sides, changed later on this device. *)
Definition entryOld : Entry.t :=
  Entry.mk (Some 1) 1 7 "2023-01-01" (DateStr jan1) (DateStr jan1).

Definition entryNew : Entry.t :=
  Entry.mk (Some 1) 1 3 "2023-01-01"
           (DateObj (Some 1672531200000)) (DateObj (Some 1690000000001)).

(** The device of the example when the call number [n] of a run is
    rejected. *)
Definition rejectedAt (n : nat) : World :=
  mkWorld localStats localEntries (Some settings) (remote cloud) ids 0 clock 0
          (fun k => if Nat.eqb k n then Some (ErrorObj "Failed to fetch") else None)
          0 [].

End Example.

(** ** More stores to run the application on *)

Module Sample.

(** The device of the example before its first backup: the remote folder
    is empty. *)
Definition neverSynced : World :=
  Example.world Example.localStats Example.localEntries (Some Example.settings) None.

(** A browser that has never run the application. *)
Definition freshBrowser : World :=
  Example.world Example.emptyStats Example.emptyEntries None None.

(** The device of the example, its clock stopped. *)
Definition frozen : World :=
  mkWorld Example.localStats Example.localEntries (Some Example.settings)
          (Example.remote Example.cloud) Example.ids 0 (fun _ => 1700000000000) 0
          Example.noFault 0 [].

(** Signed in for an hour at the time of the stopped clock. *)
Definition signedIn : GoogleAuthState.t :=
  onSuccess "token" 3600 None 1700000000000.

Definition idle : SectionState := mkSection UiIdle "" None.

(** Two entries of the same day and one of the next, for two stats. *)
Definition morning : Entry.t :=
  Entry.mk (Some 1) 1 4 "2023-07-22" (DateObj (Some 1690000000000))
           (DateObj (Some 1690000000000)).
Definition evening : Entry.t :=
  Entry.mk (Some 2) 1 8 "2023-07-22" (DateObj (Some 1690040000000))
           (DateObj (Some 1690040000000)).
Definition nextDay : Entry.t :=
  Entry.mk (Some 3) 2 5 "2023-07-23" (DateObj (Some 1690100000000))
           (DateObj (Some 1690100000000)).

End Sample.

(** * Properties *)

(** *** Date.parse reads back what toISOString writes *)

Lemma charCode_digit (n : Z) : charCode (digit n) = 48 + n mod 10.
Proof.
  unfold charCode, digit.
  assert (H : 0 <= n mod 10 < 10) by (apply Z.mod_pos_bound; lia).
  rewrite N_ascii_embedding by lia. lia.
Qed.

Lemma isDigit_digit (n : Z) : isDigit (digit n) = true.
Proof.
  unfold isDigit. rewrite charCode_digit.
  assert (H : 0 <= n mod 10 < 10) by (apply Z.mod_pos_bound; lia).
  apply andb_true_iff. split; apply Z.leb_le; lia.
Qed.

Lemma digit_not (n : Z) (c : ascii) : charCode c < 48 -> Ascii.eqb (digit n) c = false.
Proof.
  intros Hc. apply Ascii.eqb_neq. intros E.
  pose proof (charCode_digit n) as G. rewrite E in G.
  assert (H : 0 <= n mod 10 < 10) by (apply Z.mod_pos_bound; lia). lia.
Qed.

Lemma digits_app (k : nat) : forall (n : Z) (acc rest : string),
  digits k n acc ++ rest = digits k n (acc ++ rest).
Proof.
  induction k as [|k IH]; intros n acc rest; cbn [digits]; [reflexivity|].
  rewrite IH. reflexivity.
Qed.

Lemma readDigits_S (k : nat) (s : string) (acc : Z) :
  readDigits (S k) s acc =
  match s with
  | String c r =>
      if isDigit c then readDigits k r (10 * acc + (charCode c - 48)) else None
  | EmptyString => None
  end.
Proof. reflexivity. Qed.

Lemma readDigits_snoc (k : nat) : forall (s : string) (acc : Z),
  readDigits (S k) s acc =
  match readDigits k s acc with
  | Some (a, String c r) =>
      if isDigit c then Some (10 * a + (charCode c - 48), r) else None
  | _ => None
  end.
Proof.
  induction k as [|k IH]; intros s acc.
  - cbn. destruct s as [|c r]; [reflexivity|]. destruct (isDigit c); reflexivity.
  - rewrite (readDigits_S (S k)). rewrite (readDigits_S k s).
    destruct s as [|c r]; [reflexivity|].
    destruct (isDigit c); [|reflexivity]. apply IH.
Qed.

Lemma readDigits_digits (k : nat) : forall (n : Z) (rest : string) (acc : Z),
  readDigits k (digits k n rest) acc = Some (acc * 10 ^ Z.of_nat k + n mod 10 ^ Z.of_nat k, rest).
Proof.
  induction k as [|k IH]; intros n rest acc.
  - cbn. rewrite Z.mod_1_r. f_equal. f_equal. lia.
  - rewrite readDigits_snoc. cbn [digits]. rewrite IH, isDigit_digit, charCode_digit.
    f_equal. f_equal.
    rewrite Nat2Z.inj_succ, Z.pow_succ_r by lia.
    rewrite (Z.rem_mul_r n 10 (10 ^ Z.of_nat k)) by lia. lia.
Qed.

Lemma readDigits_pad (k : nat) (n : Z) (rest : string) :
  0 <= n < 10 ^ Z.of_nat k ->
  readDigits k (pad k n ++ rest) 0 = Some (n, rest).
Proof.
  intros Hn. unfold pad. rewrite digits_app. cbn [append].
  rewrite readDigits_digits. rewrite Z.mod_small by exact Hn. reflexivity.
Qed.

Lemma readYear_yearToString (y : Z) (rest : string) :
  -1000000 < y < 1000000 ->
  readYear (yearToString y ++ rest) = Some (y, rest).
Proof.
  intros Hy. unfold yearToString.
  destruct (Z.leb_spec 0 y) as [H0|H0]; [destruct (Z.leb_spec y 9999) as [H9|H9]|]; cbn [andb].
  - pose proof (readDigits_pad 4 y rest ltac:(cbn; lia)) as R.
    unfold pad in *. rewrite digits_app in *. cbn [digits append] in *.
    unfold readYear. rewrite !digit_not by (cbn; lia). exact R.
  - destruct (Z.ltb_spec y 0); [lia|]. cbn [append readYear].
    change (Ascii.eqb "+" "+") with true. cbv iota.
    apply readDigits_pad. cbn. lia.
  - destruct (Z.ltb_spec y 0); [|lia]. cbn [append readYear].
    change (Ascii.eqb "-" "+") with false. change (Ascii.eqb "-" "-") with true. cbv iota.
    rewrite readDigits_pad by (cbn; lia).
    destruct (Z.eqb_spec (- y) 0); [lia|]. f_equal. f_equal. lia.
Qed.

Lemma checkFrom_spec (f : Z -> bool) (n : nat) :
  forall z, checkFrom n z f = true -> forall z', z <= z' < z + Z.of_nat n -> f z' = true.
Proof.
  induction n as [|k IH]; cbn [checkFrom]; intros z H z' Hz; [lia|].
  apply andb_true_iff in H. destruct H as [Hk Hr].
  destruct (Z.eq_dec z' z) as [->|Hne]; [exact Hk|].
  apply (IH (z + 1)); [exact Hr|lia].
Qed.

Lemma civil_first_era : checkFrom (Z.to_nat 146097) 0 civilOK = true.
Proof. vm_compute. reflexivity. Qed.

Lemma civilFromDays_shift (day e : Z) :
  civilFromDays (day + 146097 * e) =
  let '(y, m, d) := civilFromDays day in (y + 400 * e, m, d).
Proof.
  unfold civilFromDays. cbv zeta.
  replace (day + 146097 * e + 719468) with (day + 719468 + e * 146097) by lia.
  rewrite Z.div_add by lia.
  set (z := day + 719468).
  replace (z + e * 146097 - (z / 146097 + e) * 146097) with (z - z / 146097 * 146097) by lia.
  f_equal. f_equal. lia.
Qed.

Lemma daysFromCivil_shift (y m d e : Z) :
  daysFromCivil (y + 400 * e) m d = daysFromCivil y m d + 146097 * e.
Proof.
  unfold daysFromCivil. cbv zeta.
  set (c := if m <=? 2 then y - 1 else y).
  replace (if m <=? 2 then y + 400 * e - 1 else y + 400 * e) with (c + e * 400)
    by (subst c; destruct (m <=? 2); lia).
  rewrite Z.div_add by lia.
  replace (c + e * 400 - (c / 400 + e) * 400) with (c - c / 400 * 400) by lia.
  lia.
Qed.

Lemma civil_round_trip (day : Z) :
  let '(y, m, d) := civilFromDays day in
  daysFromCivil y m d = day /\ 1 <= m <= 12 /\ 1 <= d <= 31 /\
  400 * ((day + 719468) / 146097) <= y <= 400 * ((day + 719468) / 146097) + 400.
Proof.
  set (e := (day + 719468) / 146097).
  set (doe := (day + 719468) mod 146097).
  assert (Hdoe : 0 <= doe < 146097) by (apply Z.mod_pos_bound; lia).
  assert (Hday : day = doe - 719468 + 146097 * e).
  { pose proof (Z.div_mod (day + 719468) 146097 ltac:(lia)). subst e doe. lia. }
  pose proof (checkFrom_spec civilOK _ 0 civil_first_era doe
                ltac:(rewrite Z2Nat.id; lia)) as OK.
  assert (G : let '(y, m, d) := civilFromDays (doe - 719468 + 146097 * e) in
              daysFromCivil y m d = doe - 719468 + 146097 * e /\ 1 <= m <= 12 /\
              1 <= d <= 31 /\ 400 * e <= y <= 400 * e + 400).
  { rewrite civilFromDays_shift. unfold civilOK in OK.
    destruct (civilFromDays (doe - 719468)) as [[y m] d].
    repeat (apply andb_true_iff in OK; destruct OK as [OK ?]).
    apply Z.eqb_eq in OK.
    rewrite daysFromCivil_shift, OK.
    repeat match goal with H : (_ <=? _) = true |- _ => apply Z.leb_le in H end.
    lia. }
  rewrite <- Hday in G. exact G.
Qed.

Lemma time_of_day (ms : Z) :
  0 <= ms < msPerDay ->
  0 <= ms / 3600000 < 100 /\ ms / 3600000 <= 23 /\
  0 <= ms / 60000 mod 60 < 100 /\ ms / 60000 mod 60 <= 59 /\
  0 <= ms / 1000 mod 60 < 100 /\ ms / 1000 mod 60 <= 59 /\
  0 <= ms mod 1000 < 1000 /\
  ms / 3600000 * 3600000 + ms / 60000 mod 60 * 60000 + ms / 1000 mod 60 * 1000
  + ms mod 1000 = ms.
Proof.
  unfold msPerDay. intros H. Z.div_mod_to_equations. lia.
Qed.

Lemma expect_cons (c : ascii) (r : string) : expect c (String c r) = Some r.
Proof. unfold expect. rewrite Ascii.eqb_refl. reflexivity. Qed.

Lemma year_of_validTime (t : Z) :
  validTime t ->
  -1000000 < 400 * ((t / msPerDay + 719468) / 146097) /\
  400 * ((t / msPerDay + 719468) / 146097) + 400 < 1000000.
Proof.
  unfold validTime, msPerDay. intros H. Z.div_mod_to_equations. lia.
Qed.

Lemma isoParse_toISOString (t : Z) :
  validTime t -> isoParse (toISOString t) = Some t.
Proof.
  intros Ht. unfold toISOString. cbv zeta.
  pose proof (civil_round_trip (t / msPerDay)) as C.
  pose proof (year_of_validTime t Ht) as Y.
  assert (Hms : 0 <= t mod msPerDay < msPerDay)
    by (apply Z.mod_pos_bound; reflexivity).
  pose proof (time_of_day _ Hms) as T.
  pose proof (Z.div_mod t msPerDay ltac:(unfold msPerDay; lia)) as Ediv.
  set (ms := t mod msPerDay) in *.
  destruct (civilFromDays (t / msPerDay)) as [[y m] d].
  destruct C as (Cd & Cm & Cdd & Cy).
  destruct T as (Th & Th' & Tm & Tm' & Ts & Ts' & Tms & Tsum).
  unfold isoParse.
  rewrite readYear_yearToString by lia. cbn [andThen append].
  rewrite expect_cons. cbn [andThen].
  rewrite readDigits_pad by (cbn; lia). cbn [andThen append].
  rewrite expect_cons. cbn [andThen].
  rewrite readDigits_pad by (cbn; lia). cbn [andThen append].
  rewrite expect_cons. cbn [andThen].
  rewrite readDigits_pad by (cbn; lia). cbn [andThen append].
  rewrite expect_cons. cbn [andThen].
  rewrite readDigits_pad by (cbn; lia). cbn [andThen append].
  rewrite expect_cons. cbn [andThen].
  rewrite readDigits_pad by (cbn; lia). cbn [andThen append].
  rewrite expect_cons. cbn [andThen].
  rewrite readDigits_pad by (cbn; lia). cbn [andThen append].
  rewrite expect_cons. cbn [andThen].
  replace ((1 <=? m) && (m <=? 12) && (1 <=? d) && (d <=? 31)
           && (ms / 3600000 <=? 23) && (ms / 60000 mod 60 <=? 59)
           && (ms / 1000 mod 60 <=? 59)) with true.
  - f_equal. rewrite Cd. lia.
  - symmetry. repeat (apply andb_true_iff; split); apply Z.leb_le; lia.
Qed.

Section SyncProperties.

Variable Date_parse : string -> option Z.

Ltac step Hq :=
  cbv [bind ret throw await_io newDate emit getWorld putTable putDrive takeFreshId
       toArray getSettings findBackupFile listAppDataFiles downloadBackup
       tget tset statsRef entriesRef
       set_calls set_reads set_log set_drive set_created set_settingsRow
       set_statsT set_entriesT
       statsT entriesT settingsRow drive freshId created clock reads fault calls log];
  try rewrite Hq.

(** One tactic to run a synchronisation in a world whose awaited calls
    all succeed: unfold the monad, consult the oracle, go on. *)
Ltac run Hq :=
  repeat (step Hq; rewrite ?Pos.eqb_refl);
  cbn [checksum metadata data stats entries].

Lemma sameString_false (a : option string) (b : string) :
  a <> Some b -> sameString a b = false.
Proof.
  destruct a as [s|]; cbn; [|reflexivity].
  intros H. destruct (String.eqb_spec s b); congruence.
Qed.

Lemma sameString_true (b : string) : sameString (Some b) b = true.
Proof. cbn. apply String.eqb_refl. Qed.

(** C1. When a remote file exists, its checksum differs from the local
    one, the stored watermark differs from the remote checksum and no
    resolution is supplied, performSync reports [conflict] and attaches
    the cloud and the local backup file; nothing is stored, uploaded or
    downloaded into the store. In particular this is what happens on a
    remote-only change, where the watermark equals the local checksum. *)
Theorem conflict_reported (tok : string) (w : World) (fid : FileId)
    (cloud : BackupFile) :
  quiet w ->
  remoteBackup w = Some (fid, cloud) ->
  checksum (metadata cloud) <> generateChecksum (localData w) ->
  let conflict w' :=
    performSync Date_parse tok None w =
      (mkResult StConflict "Both local and cloud data have changed"
                (Some cloud)
                (Some (builtAt (clock w (reads w)) (localData w))), w') /\
    statsT w' = statsT w /\ entriesT w' = entriesT w /\
    settingsRow w' = settingsRow w /\ drive w' = drive w in
  (watermark w <> Some (checksum (metadata cloud)) -> exists w', conflict w') /\
  (watermark w = Some (generateChecksum (localData w)) -> exists w', conflict w').
Proof.
  intros Hq Hr Hne conflict.
  assert (G : watermark w <> Some (checksum (metadata cloud)) -> exists w', conflict w').
  { intros Hwm. subst conflict.
    destruct w as [st en se dr fr cr cl rd fa ca lg].
    unfold quiet, remoteBackup, localData, watermark in *. cbn in Hq, Hr, Hne, Hwm.
    destruct dr as [f|]; [|discriminate].
    destruct (backupOfJSON (body f)) as [b|] eqn:Hb; [|discriminate].
    injection Hr as <- <-.
    unfold performSync, syncBody, buildBackupFile.
    repeat (step Hq; rewrite ?Pos.eqb_refl, ?Hb).
    cbn [checksum metadata data].
    destruct (String.eqb_spec (checksum (metadata b))
                (generateChecksum {| stats := rows st; entries := rows en |}))
      as [E|_]; [contradiction|].
    rewrite sameString_false.
    - eexists. repeat split.
    - destruct se; exact Hwm. }
  split; [exact G|].
  intros Hwm. apply G. rewrite Hwm. congruence.
Qed.

(** *** JSON round trip of the records *)

Lemma dateToJSON_wireDate (d : Date) : dateToJSON (wireDate d) = dateToJSON d.
Proof. destruct d as [[t|]|s|]; reflexivity. Qed.

Lemma dateOf_dateToJSON (d : Date) : dateOf (Some (dateToJSON d)) = Some (wireDate d).
Proof. destruct d as [[t|]|s|]; reflexivity. Qed.

Lemma statOfJSON_statToJSON (s : Stat.t) : statOfJSON (statToJSON s) = Some (wireStat s).
Proof.
  destruct s as [[k|] n c o ca ua]; unfold statToJSON, statOfJSON, wireStat;
    cbn -[dateToJSON dateOf]; rewrite !dateOf_dateToJSON; reflexivity.
Qed.

Lemma entryOfJSON_entryToJSON (e : Entry.t) :
  entryOfJSON (entryToJSON e) = Some (wireEntry e).
Proof.
  destruct e as [[k|] s v d ca ua]; unfold entryToJSON, entryOfJSON, wireEntry;
    cbn -[dateToJSON dateOf]; rewrite !dateOf_dateToJSON; reflexivity.
Qed.

Lemma allOf_map {A B : Type} (f : json -> option B) (g : A -> json) (h : A -> B)
    (l : list A) :
  (forall x, f (g x) = Some (h x)) ->
  allOf f (map g l) = Some (map h l).
Proof.
  intros H. induction l as [|x r IH]; cbn; [reflexivity|].
  rewrite H, IH. reflexivity.
Qed.

Lemma backupOfJSON_backupToJSON (b : BackupFile) :
  backupOfJSON (backupToJSON b) = Some (wireBackup b).
Proof.
  destruct b as [[v x a ec sc c] [ss es]].
  unfold backupToJSON, backupOfJSON, datasetToJSON, datasetOfJSON, metadataToJSON,
    metadataOfJSON, arrOf.
  cbn -[allOf statOfJSON entryOfJSON statToJSON entryToJSON].
  rewrite (allOf_map statOfJSON statToJSON wireStat ss statOfJSON_statToJSON).
  rewrite (allOf_map entryOfJSON entryToJSON wireEntry es entryOfJSON_entryToJSON).
  reflexivity.
Qed.

Lemma statProjection_wire (s : Stat.t) : statProjection (wireStat s) = statProjection s.
Proof. unfold statProjection, wireStat; cbn. rewrite dateToJSON_wireDate. reflexivity. Qed.

Lemma entryProjection_wire (e : Entry.t) :
  entryProjection (wireEntry e) = entryProjection e.
Proof. unfold entryProjection, wireEntry; cbn. rewrite dateToJSON_wireDate. reflexivity. Qed.

Lemma generateChecksum_wire (d : Dataset) :
  generateChecksum (wireDataset d) = generateChecksum d.
Proof.
  unfold generateChecksum, wireDataset; cbn [stats entries].
  rewrite !map_map.
  rewrite (map_ext _ _ statProjection_wire), (map_ext _ _ entryProjection_wire).
  reflexivity.
Qed.

(** C5 (as amended). When a remote file exists and its checksum equals
    the local one, performSync reports [no-changes], calls neither upload
    nor import, leaves the remote file, both tables and the watermark as
    they were, and writes into the settings row the last-sync-time
    together with the identifier of the remote file (and the stamp of the
    store's updating hook). *)
Theorem no_changes_run (tok : string) (res : option ConflictResolution) (w : World)
    (fid : FileId) (cloud : BackupFile) :
  quiet w ->
  remoteBackup w = Some (fid, cloud) ->
  checksum (metadata cloud) = generateChecksum (localData w) ->
  exists w',
    performSync Date_parse tok res w =
      (mkResult StNoChanges "Data is already in sync" None None, w') /\
    log w' =
      (log w ++ [CallList; CallDownload fid] ++
       writtenBy (syncUpdate (Some fid) (clock w (S (reads w))) None) (settingsRow w))%list /\
    drive w' = drive w /\ statsT w' = statsT w /\ entriesT w' = entriesT w /\
    watermark w' = watermark w /\
    settingsRow w' =
      settingsAfter (syncUpdate (Some fid) (clock w (S (reads w))) None)
                    (clock w (S (S (reads w)))) (settingsRow w).
Proof.
  intros Hq Hr He.
  destruct w as [st en se dr fr cr cl rd fa ca lg].
  unfold quiet, remoteBackup, localData, watermark in *. cbn in Hq, Hr, He.
  destruct dr as [f|]; [|discriminate].
  destruct (backupOfJSON (body f)) as [b|] eqn:Hb; [|discriminate].
  injection Hr as <- <-.
  unfold performSync, syncBody, buildBackupFile.
  repeat (step Hq; rewrite ?Pos.eqb_refl, ?Hb).
  cbn [checksum metadata data]. rewrite He, String.eqb_refl.
  unfold updateSettings, settingsAfter, writtenBy.
  destruct se as [s|]; [destruct (Settings.id s) as [k|] eqn:Hid|];
    repeat (step Hq; rewrite ?Hid); cbn [settingsRow log drive statsT entriesT];
    rewrite <- ?app_assoc; cbn [app]; eexists; repeat split; rewrite ?app_nil_r; try reflexivity.
Qed.

(** C6. When a remote file exists, its checksum differs from the local
    one and the stored watermark equals the remote checksum, performSync
    overwrites the remote file with the local backup file, sets the
    watermark to the local checksum and reports [success]. *)
Theorem local_change_uploaded (tok : string) (res : option ConflictResolution)
    (w : World) (fid : FileId) (cloud : BackupFile) :
  quiet w ->
  settingsKeyed w ->
  remoteBackup w = Some (fid, cloud) ->
  checksum (metadata cloud) <> generateChecksum (localData w) ->
  watermark w = Some (checksum (metadata cloud)) ->
  let local := builtAt (clock w (reads w)) (localData w) in
  exists w',
    performSync Date_parse tok res w =
      (mkResult StSuccess "Backup updated in Google Drive" None None, w') /\
    drive w' = Some (mkDriveFile fid (backupToJSON local)) /\
    remoteBackup w' = Some (fid, wireBackup local) /\
    watermark w' = Some (checksum (metadata local)) /\
    checksum (metadata local) = generateChecksum (localData w) /\
    statsT w' = statsT w /\ entriesT w' = entriesT w.
Proof.
  intros Hq Hk Hr Hne Hwm local. subst local.
  destruct w as [st en se dr fr cr cl rd fa ca lg].
  unfold quiet, settingsKeyed, remoteBackup, localData, watermark in *.
  cbn in Hq, Hk, Hr, Hne, Hwm.
  destruct dr as [f|]; [|discriminate].
  destruct (backupOfJSON (body f)) as [b|] eqn:Hb; [|discriminate].
  injection Hr as <- <-.
  destruct se as [s|]; [|discriminate].
  destruct (Settings.id s) as [k|] eqn:Hid; [|exfalso; exact (Hk s eq_refl Hid)].
  unfold performSync, syncBody, buildBackupFile.
  repeat (step Hq; rewrite ?Pos.eqb_refl, ?Hb).
  cbn [checksum metadata data].
  destruct (String.eqb_spec (checksum (metadata b))
              (generateChecksum {| stats := rows st; entries := rows en |}))
    as [E|_]; [contradiction|].
  rewrite Hwm, sameString_true.
  unfold uploadBackup, updateSettings.
  repeat (step Hq; rewrite ?Pos.eqb_refl, ?Hid).
  cbn [settingsRow log drive statsT entriesT].
  eexists; repeat split.
  cbn [body fileId]. rewrite backupOfJSON_backupToJSON. reflexivity.
Qed.

(** *** The checksum *)

Lemma statProjection_fields (s1 s2 : Stat.t) :
  statFields s1 = statFields s2 -> statProjection s1 = statProjection s2.
Proof.
  unfold statFields, statProjection. intros H.
  injection H as -> -> ->. reflexivity.
Qed.

Lemma entryProjection_fields (e1 e2 : Entry.t) :
  entryFields e1 = entryFields e2 -> entryProjection e1 = entryProjection e2.
Proof.
  unfold entryFields, entryProjection. intros H.
  injection H as -> -> ->. reflexivity.
Qed.

Lemma map_fields {A B C : Type} (f : A -> B) (g : A -> C) :
  (forall x y, f x = f y -> g x = g y) ->
  forall l1 l2, map f l1 = map f l2 -> map g l1 = map g l2.
Proof.
  intros H l1. induction l1 as [|x r IH]; intros [|y r'] E; try discriminate.
  - reflexivity.
  - cbn in *. injection E as E1 E2. rewrite (H _ _ E1), (IH _ E2). reflexivity.
Qed.

(** C7. generateChecksum is a function of the projections (id, name,
    updatedAt) of the stats and (id, value, updatedAt) of the entries,
    taken in the order of the collections: datasets with equal lists of
    projections have equal checksums; in particular, giving entries
    another date or another stat leaves the checksum as it is. The order
    counts: two stats swapped give another checksum. *)
Theorem checksum_of_projections :
  (forall d1 d2 : Dataset,
      map statFields (stats d1) = map statFields (stats d2) ->
      map entryFields (entries d1) = map entryFields (entries d2) ->
      generateChecksum d1 = generateChecksum d2) /\
  (forall (d : Dataset) (date : Entry.t -> string) (statId : Entry.t -> Z),
      generateChecksum (mkDataset (stats d) (map (moved date statId) (entries d))) =
      generateChecksum d) /\
  (exists s1 s2 : Stat.t,
      generateChecksum (mkDataset [s1; s2] []) <>
      generateChecksum (mkDataset [s2; s1] [])).
Proof.
  assert (G : forall d1 d2 : Dataset,
             map statFields (stats d1) = map statFields (stats d2) ->
             map entryFields (entries d1) = map entryFields (entries d2) ->
             generateChecksum d1 = generateChecksum d2).
  { intros d1 d2 Hs He. unfold generateChecksum.
    rewrite (map_fields statFields statProjection statProjection_fields _ _ Hs).
    rewrite (map_fields entryFields entryProjection entryProjection_fields _ _ He).
    reflexivity. }
  split; [exact G|split].
  - intros d date statId. apply G; cbn [stats entries]; [reflexivity|].
    rewrite map_map. apply map_ext. intros e. reflexivity.
  - exists (Stat.mk (Some 1) "mood" "#e07a5f" 0 (DateObj (Some 0)) (DateObj (Some 0))),
           (Stat.mk (Some 2) "energy" "#81b29a" 1 (DateObj (Some 0)) (DateObj (Some 0))).
    vm_compute. discriminate.
Qed.

(** *** The merge *)

Section MergeFacts.

Context {A : Type} `{Row A}.

Lemma truthyKey_Some (i : option Z) (k : Z) :
  truthyKey i = Some k <-> i = Some k /\ k <> 0.
Proof.
  unfold truthyKey. destruct i as [j|]; [|split; [discriminate|intros [E _]; discriminate]].
  destruct (Z.eqb_spec j 0) as [->|Hj]; split.
  - discriminate.
  - intros [E Hk]. injection E as <-. contradiction.
  - intros E. injection E as <-. split; [reflexivity|exact Hj].
  - intros [E _]. exact E.
Qed.

Lemma map_get_set_same {V : Type} (k : Z) (v : V) (m : list (Z * V)) :
  map_get k (map_set k v m) = Some v.
Proof.
  induction m as [|[k' v'] r IH]; cbn.
  - rewrite Z.eqb_refl. reflexivity.
  - destruct (Z.eqb_spec k' k) as [->|Hk]; cbn.
    + rewrite Z.eqb_refl. reflexivity.
    + destruct (Z.eqb_spec k' k); [contradiction|exact IH].
Qed.

Lemma map_get_set_other {V : Type} (k k' : Z) (v : V) (m : list (Z * V)) :
  k' <> k -> map_get k (map_set k' v m) = map_get k m.
Proof.
  intros Hk. induction m as [|[k'' v''] r IH]; cbn.
  - destruct (Z.eqb_spec k' k); [contradiction|reflexivity].
  - destruct (Z.eqb_spec k'' k') as [->|Hk']; cbn.
    + destruct (Z.eqb_spec k' k); [contradiction|reflexivity].
    + destruct (Z.eqb_spec k'' k); [reflexivity|exact IH].
Qed.

Lemma in_map_set {V : Type} (k : Z) (v : V) (m : list (Z * V)) (k' : Z) (v' : V) :
  In (k', v') (map_set k v m) -> (k' = k /\ v' = v) \/ In (k', v') m.
Proof.
  induction m as [|[k'' v''] r IH]; cbn.
  - intros [E|[]]. injection E as <- <-. left. split; reflexivity.
  - destruct (Z.eqb_spec k'' k) as [->|Hk]; cbn.
    + intros [E|Hin]; [injection E as <- <-; left; split; reflexivity|right; right; exact Hin].
    + intros [E|Hin]; [right; left; exact E|].
      destruct (IH Hin) as [G|G]; [left; exact G|right; right; exact G].
Qed.

Lemma keys_map_set {V : Type} (k : Z) (v : V) (m : list (Z * V)) (k' : Z) :
  In k' (map fst (map_set k v m)) <-> k' = k \/ In k' (map fst m).
Proof.
  induction m as [|[k'' v''] r IH]; cbn.
  - split; [intros [E|[]]; left; symmetry; exact E|intros [E|[]]; left; symmetry; exact E].
  - destruct (Z.eqb_spec k'' k) as [->|Hk]; cbn.
    + split; [intros [E|G]; [left; symmetry; exact E|right; right; exact G]|].
      intros [E|[E|G]]; [left; symmetry; exact E|left; exact E|right; exact G].
    + rewrite IH. tauto.
Qed.

Lemma NoDup_map_set {V : Type} (k : Z) (v : V) (m : list (Z * V)) :
  NoDup (map fst m) -> NoDup (map fst (map_set k v m)).
Proof.
  induction m as [|[k' v'] r IH]; cbn; intros Hnd.
  - constructor; [intros []|constructor].
  - inversion Hnd as [|x xs Hnin Hnd']; subst.
    destruct (Z.eqb_spec k' k) as [->|Hk]; cbn.
    + constructor; assumption.
    + constructor; [|exact (IH Hnd')].
      rewrite keys_map_set. intros [E|G]; [exact (Hk E)|exact (Hnin G)].
Qed.

Lemma map_get_In {V : Type} (k : Z) (v : V) (m : list (Z * V)) :
  map_get k m = Some v -> In (k, v) m.
Proof.
  induction m as [|[k' v'] r IH]; cbn; [discriminate|].
  destruct (Z.eqb_spec k' k) as [->|Hk].
  - intros E. injection E as <-. left. reflexivity.
  - intros E. right. exact (IH E).
Qed.

Lemma map_get_None {V : Type} (k : Z) (m : list (Z * V)) :
  map_get k m = None -> ~ In k (map fst m).
Proof.
  induction m as [|[k' v'] r IH]; cbn; [intros _ []|].
  destruct (Z.eqb_spec k' k) as [->|Hk]; [discriminate|].
  intros E [G|G]; [exact (Hk G)|exact (IH E G)].
Qed.

Lemma keyed_dec (k : Z) (s : A) : {keyed k s} + {~ keyed k s}.
Proof.
  unfold keyed. destruct (truthyKey (row_id s)) as [j|].
  - destruct (Z.eq_dec j k) as [->|Hj]; [left; reflexivity|right; congruence].
  - right. discriminate.
Qed.

Lemma get_setCloud_same (k : Z) (s : A) (m : list (Z * A)) :
  keyed k s -> map_get k (setCloud m s) = Some s.
Proof. unfold keyed, setCloud. intros ->. apply map_get_set_same. Qed.

Lemma get_setCloud_other (k : Z) (s : A) (m : list (Z * A)) :
  ~ keyed k s -> map_get k (setCloud m s) = map_get k m.
Proof.
  unfold keyed, setCloud. destruct (truthyKey (row_id s)) as [j|]; [|reflexivity].
  intros Hj. apply map_get_set_other. congruence.
Qed.

Lemma get_mergeLocal_same (k : Z) (s : A) (m : list (Z * A)) :
  keyed k s ->
  map_get k (mergeLocal Date_parse m s) =
  match map_get k m with
  | None => Some s
  | Some existing =>
      Some (if laterThan Date_parse (row_updatedAt s) (row_updatedAt existing)
            then s else existing)
  end.
Proof.
  unfold keyed, mergeLocal. intros ->.
  destruct (map_get k m) as [e|] eqn:E.
  - destruct (laterThan Date_parse (row_updatedAt s) (row_updatedAt e)).
    + apply map_get_set_same.
    + exact E.
  - apply map_get_set_same.
Qed.

Lemma get_mergeLocal_other (k : Z) (s : A) (m : list (Z * A)) :
  ~ keyed k s -> map_get k (mergeLocal Date_parse m s) = map_get k m.
Proof.
  unfold keyed, mergeLocal. destruct (truthyKey (row_id s)) as [j|]; [|reflexivity].
  intros Hj. assert (j <> k) by congruence.
  destruct (map_get j m) as [e|].
  - destruct (laterThan Date_parse (row_updatedAt s) (row_updatedAt e));
      [apply map_get_set_other; assumption|reflexivity].
  - apply map_get_set_other; assumption.
Qed.

Lemma keyed_id (k : Z) (s : A) : keyed k s -> row_id s = Some k /\ k <> 0.
Proof. unfold keyed. apply truthyKey_Some. Qed.

Lemma mergeInv_setCloud (l1 l2 : list A) (m : list (Z * A)) (s : A) :
  mergeInv l1 l2 m -> In s l2 -> mergeInv l1 l2 (setCloud m s).
Proof.
  intros [Hnd Hin] Hs. unfold setCloud.
  destruct (truthyKey (row_id s)) as [k|] eqn:Hk; [|split; assumption].
  split; [apply NoDup_map_set; exact Hnd|].
  intros k' v' Hin'. destruct (in_map_set _ _ _ _ _ Hin') as [[-> ->]|G].
  - split; [exact Hk|right; exact Hs].
  - exact (Hin _ _ G).
Qed.

Lemma mergeInv_mergeLocal (l1 l2 : list A) (m : list (Z * A)) (s : A) :
  mergeInv l1 l2 m -> In s l1 -> mergeInv l1 l2 (mergeLocal Date_parse m s).
Proof.
  intros [Hnd Hin] Hs. unfold mergeLocal.
  destruct (truthyKey (row_id s)) as [k|] eqn:Hk; [|split; assumption].
  assert (G : mergeInv l1 l2 (map_set k s m)).
  { split; [apply NoDup_map_set; exact Hnd|].
    intros k' v' Hin'. destruct (in_map_set _ _ _ _ _ Hin') as [[-> ->]|G].
    - split; [exact Hk|left; exact Hs].
    - exact (Hin _ _ G). }
  destruct (map_get k m) as [e|]; [|exact G].
  destruct (laterThan Date_parse (row_updatedAt s) (row_updatedAt e));
    [exact G|split; assumption].
Qed.

Lemma mergeInv_cloud (l1 l2 xs : list A) :
  forall m, mergeInv l1 l2 m -> incl xs l2 ->
            mergeInv l1 l2 (fold_left setCloud xs m).
Proof.
  induction xs as [|x r IH]; intros m Hm Hincl; cbn; [exact Hm|].
  apply IH.
  - apply mergeInv_setCloud; [exact Hm|apply Hincl; left; reflexivity].
  - intros y Hy. apply Hincl. right. exact Hy.
Qed.

Lemma mergeInv_local (l1 l2 xs : list A) :
  forall m, mergeInv l1 l2 m -> incl xs l1 ->
            mergeInv l1 l2 (fold_left (mergeLocal Date_parse) xs m).
Proof.
  induction xs as [|x r IH]; intros m Hm Hincl; cbn; [exact Hm|].
  apply IH.
  - apply mergeInv_mergeLocal; [exact Hm|apply Hincl; left; reflexivity].
  - intros y Hy. apply Hincl. right. exact Hy.
Qed.

(** A key once set stays in the map. *)
Lemma has_setCloud (k : Z) (s : A) (m : list (Z * A)) :
  keyed k s \/ map_get k m <> None -> map_get k (setCloud m s) <> None.
Proof.
  intros Hk. destruct (keyed_dec k s) as [Y|N].
  - rewrite (get_setCloud_same _ _ _ Y). discriminate.
  - rewrite (get_setCloud_other _ _ _ N). destruct Hk; [contradiction|assumption].
Qed.

Lemma has_mergeLocal (k : Z) (s : A) (m : list (Z * A)) :
  keyed k s \/ map_get k m <> None ->
  map_get k (mergeLocal Date_parse m s) <> None.
Proof.
  intros Hk. destruct (keyed_dec k s) as [Y|N].
  - rewrite (get_mergeLocal_same _ _ _ Y). destruct (map_get k m); discriminate.
  - rewrite (get_mergeLocal_other _ _ _ N). destruct Hk; [contradiction|assumption].
Qed.

Lemma has_cloud (k : Z) (xs : list A) :
  forall m, (exists s, In s xs /\ keyed k s) \/ map_get k m <> None ->
            map_get k (fold_left setCloud xs m) <> None.
Proof.
  induction xs as [|x r IH]; intros m Hk; cbn.
  - destruct Hk as [[s [[] _]]|G]; exact G.
  - apply IH. destruct Hk as [[s [[->|Hin] Hs]]|G].
    + right. apply has_setCloud. left. exact Hs.
    + left. exists s. split; assumption.
    + right. apply has_setCloud. right. exact G.
Qed.

Lemma has_local (k : Z) (xs : list A) :
  forall m, (exists s, In s xs /\ keyed k s) \/ map_get k m <> None ->
            map_get k (fold_left (mergeLocal Date_parse) xs m) <> None.
Proof.
  induction xs as [|x r IH]; intros m Hk; cbn.
  - destruct Hk as [[s [[] _]]|G]; exact G.
  - apply IH. destruct Hk as [[s [[->|Hin] Hs]]|G].
    + right. apply has_mergeLocal. left. exact Hs.
    + left. exists s. split; assumption.
    + right. apply has_mergeLocal. right. exact G.
Qed.

(** The cloud record of a key: the last one set. *)
Lemma cloud_keeps (k : Z) (c : A) (xs : list A) :
  (forall y, In y xs -> keyed k y -> y = c) ->
  forall m, map_get k m = Some c -> map_get k (fold_left setCloud xs m) = Some c.
Proof.
  induction xs as [|x r IH]; intros Hall m Hm; cbn; [exact Hm|].
  apply IH; [intros y Hy; apply Hall; right; exact Hy|].
  destruct (keyed_dec k x) as [Y|N].
  - rewrite (get_setCloud_same _ _ _ Y). f_equal. apply Hall; [left; reflexivity|exact Y].
  - rewrite (get_setCloud_other _ _ _ N). exact Hm.
Qed.

Lemma cloud_only (k : Z) (c : A) (xs : list A) :
  onlyWith k c xs ->
  forall m, map_get k (fold_left setCloud xs m) = Some c.
Proof.
  intros (Hin & Hk & Hall). revert Hin Hall.
  induction xs as [|x r IH]; intros Hin Hall m; [destruct Hin|]. cbn.
  destruct (keyed_dec k x) as [Y|N].
  - assert (x = c) as -> by (apply Hall; [left; reflexivity|exact Y]).
    apply cloud_keeps; [intros y Hy; apply Hall; right; exact Hy|].
    apply get_setCloud_same. exact Hk.
  - destruct Hin as [->|Hin]; [contradiction|].
    apply IH; [exact Hin|intros y Hy; apply Hall; right; exact Hy].
Qed.

Lemma laterThan_irrefl (d : Date) : laterThan Date_parse d d = false.
Proof. unfold laterThan. destruct (timeValue Date_parse d); [apply Z.ltb_irrefl|reflexivity]. Qed.

(** Once the local record of a key has been looked at, what is kept for
    the key does not change any more. *)
Lemma local_keeps (k : Z) (l v : A) (xs : list A) :
  (forall y, In y xs -> keyed k y -> y = l) ->
  laterThan Date_parse (row_updatedAt l) (row_updatedAt v) = false ->
  forall m, map_get k m = Some v ->
            map_get k (fold_left (mergeLocal Date_parse) xs m) = Some v.
Proof.
  intros Hall Hlv. induction xs as [|x r IH]; intros m Hm; cbn; [exact Hm|].
  apply IH; [intros y Hy; apply Hall; right; exact Hy|].
  destruct (keyed_dec k x) as [Y|N].
  - assert (x = l) as -> by (apply Hall; [left; reflexivity|exact Y]).
    rewrite (get_mergeLocal_same _ _ _ Y), Hm, Hlv. reflexivity.
  - rewrite (get_mergeLocal_other _ _ _ N). exact Hm.
Qed.

Lemma local_wins_if_later (k : Z) (l c : A) (xs : list A) :
  onlyWith k l xs ->
  forall m, map_get k m = Some c ->
            map_get k (fold_left (mergeLocal Date_parse) xs m) =
            Some (if laterThan Date_parse (row_updatedAt l) (row_updatedAt c)
                  then l else c).
Proof.
  intros (Hin & Hk & Hall). revert Hin Hall.
  induction xs as [|x r IH]; intros Hin Hall m Hm; [destruct Hin|]. cbn.
  destruct (keyed_dec k x) as [Y|N].
  - assert (x = l) as -> by (apply Hall; [left; reflexivity|exact Y]).
    apply local_keeps with (l := l).
    + intros y Hy. apply Hall. right. exact Hy.
    + destruct (laterThan Date_parse (row_updatedAt l) (row_updatedAt c)) eqn:E;
        [apply laterThan_irrefl|exact E].
    + rewrite (get_mergeLocal_same _ _ _ Hk), Hm. reflexivity.
  - destruct Hin as [->|Hin]; [contradiction|].
    apply IH; [exact Hin|intros y Hy; apply Hall; right; exact Hy|].
    rewrite (get_mergeLocal_other _ _ _ N). exact Hm.
Qed.

Lemma ids_of_values (l1 l2 : list A) (m : list (Z * A)) :
  (forall k v, In (k, v) m -> keyed k v /\ (In v l1 \/ In v l2)) ->
  map row_id (map_values m) = map Some (map fst m).
Proof.
  induction m as [|[k v] r IH]; intros Hin; cbn; [reflexivity|].
  destruct (Hin k v (or_introl eq_refl)) as [Hk _].
  destruct (keyed_id _ _ Hk) as [-> _].
  f_equal. apply IH. intros k' v' G. apply Hin. right. exact G.
Qed.

Lemma NoDup_map_Some (l : list Z) : NoDup l -> NoDup (map Some l).
Proof.
  induction 1 as [|x l Hnin Hnd IH]; cbn; constructor; [|exact IH].
  rewrite in_map_iff. intros (y & E & Hy). injection E as ->. exact (Hnin Hy).
Qed.

Lemma mergeRecords_spec (local cloud : list A) :
  mergeSpec Date_parse local cloud (mergeRecords Date_parse local cloud).
Proof.
  unfold mergeRecords.
  set (m0 := fold_left setCloud cloud []).
  set (m := fold_left (mergeLocal Date_parse) local m0).
  assert (Hinv : mergeInv local cloud m).
  { apply mergeInv_local; [|apply incl_refl].
    apply mergeInv_cloud; [|apply incl_refl].
    split; [constructor|intros k v []]. }
  destruct Hinv as [Hnd Hin].
  repeat split.
  - rewrite (ids_of_values local cloud m Hin). apply NoDup_map_Some. exact Hnd.
  - unfold map_values in H0. apply in_map_iff in H0.
    destruct H0 as ([k v] & <- & G). exact (proj2 (Hin _ _ G)).
  - unfold map_values in H0. apply in_map_iff in H0.
    destruct H0 as ([k v] & <- & G). exists k. apply keyed_id. exact (proj1 (Hin _ _ G)).
  - intros r k Hr Hid Hk.
    assert (Hkeyed : keyed k r) by (apply truthyKey_Some; split; assumption).
    assert (Hhas : map_get k m <> None).
    { destruct Hr as [Hr|Hr].
      - apply has_local. left. exists r. split; assumption.
      - apply has_local. right. apply has_cloud. left. exists r. split; assumption. }
    destruct (map_get k m) as [v|] eqn:E; [|contradiction].
    apply map_get_In in E. exists v. split.
    + unfold map_values. apply in_map_iff. exists (k, v). split; [reflexivity|exact E].
    + apply keyed_id. exact (proj1 (Hin _ _ E)).
  - intros k l c Hl Hc.
    assert (E : map_get k m =
                Some (if laterThan Date_parse (row_updatedAt l) (row_updatedAt c)
                      then l else c)).
    { apply local_wins_if_later; [exact Hl|]. apply cloud_only. exact Hc. }
    apply map_get_In in E. unfold map_values. apply in_map_iff.
    eexists. split; [|exact E]. reflexivity.
Qed.

End MergeFacts.

(** *** Failures and the watermark *)

Lemma calm_ret {A : Type} (a : A) : calm (ret a).
Proof.
  intros w r w' E. injection E as <- <-. split; [reflexivity|].
  exists []. rewrite app_nil_r. split; [reflexivity|constructor].
Qed.

Lemma calm_throw {A : Type} (e : exn) : calm (@throw A e).
Proof.
  intros w r w' E. injection E as <- <-. split; [reflexivity|].
  exists []. rewrite app_nil_r. split; [reflexivity|constructor].
Qed.

Lemma calm_bind {A B : Type} (m : M A) (k : A -> M B) :
  calm m -> (forall a, calm (k a)) -> calm (bind m k).
Proof.
  intros Hm Hk w r w' E. unfold bind in E.
  destruct (m w) as [[a|e] w1] eqn:E1.
  - destruct (Hm _ _ _ E1) as (S1 & evs1 & L1 & F1).
    destruct (Hk a _ _ _ E) as (S2 & evs2 & L2 & F2).
    split; [congruence|]. exists (evs1 ++ evs2)%list.
    split; [rewrite L2, L1, app_assoc; reflexivity|apply Forall_app; split; assumption].
  - injection E as <- <-. exact (Hm _ _ _ E1).
Qed.

(** A step that changes neither the settings row nor the log. *)
Lemma calm_silent {A : Type} (m : M A) :
  (forall w, settingsRow (snd (m w)) = settingsRow w /\ log (snd (m w)) = log w) ->
  calm m.
Proof.
  intros H w r w' E. specialize (H w). rewrite E in H. cbn in H.
  destruct H as [S L]. split; [exact S|].
  exists []. rewrite app_nil_r. split; [exact L|constructor].
Qed.

Lemma calm_await_io : calm await_io.
Proof.
  apply calm_silent. intros w. unfold await_io.
  destruct (fault w (calls w)); split; reflexivity.
Qed.

Lemma calm_newDate : calm newDate.
Proof. apply calm_silent. intros w. split; reflexivity. Qed.

Lemma calm_getWorld : calm getWorld.
Proof. apply calm_silent. intros w. split; reflexivity. Qed.

Lemma calm_putDrive (f : DriveFile) : calm (putDrive f).
Proof. apply calm_silent. intros w. split; reflexivity. Qed.

Lemma calm_takeFreshId : calm takeFreshId.
Proof. apply calm_silent. intros w. split; reflexivity. Qed.

Lemma calm_putStats (t : Table Stat.t) : calm (putTable statsRef t).
Proof. apply calm_silent. intros w. split; reflexivity. Qed.

Lemma calm_putEntries (t : Table Entry.t) : calm (putTable entriesRef t).
Proof. apply calm_silent. intros w. split; reflexivity. Qed.

Lemma calm_emit (ev : Event) : carriesNoMark ev -> calm (emit ev).
Proof.
  intros Hev w r w' E. injection E as <- <-. split; [reflexivity|].
  exists [ev]. split; [reflexivity|constructor; [exact Hev|constructor]].
Qed.

Lemma calmRef_stats : calmRef statsRef.
Proof. exact calm_putStats. Qed.

Lemma calmRef_entries : calmRef entriesRef.
Proof. exact calm_putEntries. Qed.

Lemma calm_toArray {A : Type} (tbl : TableRef A) : calm (toArray tbl).
Proof.
  unfold toArray. apply calm_bind; [exact calm_await_io|intros _].
  apply calm_bind; [exact calm_getWorld|intros w]. apply calm_ret.
Qed.

Lemma calm_clear {A : Type} (tbl : TableRef A) : calmRef tbl -> calm (clear tbl).
Proof.
  intros Ht. unfold clear. apply calm_bind; [exact calm_await_io|intros _].
  apply calm_bind; [exact calm_getWorld|intros w]. apply Ht.
Qed.

Lemma calm_creatingHook {A : Type} `{Row A} (obj : A) : calm (creatingHook obj).
Proof.
  unfold creatingHook. apply calm_bind; [exact calm_newDate|intros c].
  apply calm_bind; [exact calm_newDate|intros u]. apply calm_ret.
Qed.

Lemma calm_addEach {A : Type} `{Row A} (items : list A) :
  forall t, calm (addEach items t).
Proof.
  induction items as [|obj rest IH]; intros t; cbn [addEach]; [apply calm_ret|].
  apply calm_bind; [apply calm_creatingHook|intros obj'].
  destruct (tableAdd obj' t); [apply IH|apply calm_throw].
Qed.

Lemma calm_bulkAdd {A : Type} `{Row A} (tbl : TableRef A) (items : list A) :
  calmRef tbl -> calm (bulkAdd tbl items).
Proof.
  intros Ht. unfold bulkAdd. apply calm_bind; [exact calm_await_io|intros _].
  apply calm_bind; [exact calm_getWorld|intros w].
  apply calm_bind; [apply calm_addEach|intros t']. apply Ht.
Qed.

Lemma calm_transaction {A : Type} (body : M A) : calm body -> calm (transaction body).
Proof.
  intros Hb w r w' E. unfold transaction in E.
  destruct (await_io w) as [[[]|e] w1] eqn:E1.
  - destruct (calm_await_io _ _ _ E1) as (S1 & evs1 & L1 & F1).
    destruct (body w1) as [[a|e] w2] eqn:E2.
    + destruct (Hb _ _ _ E2) as (S2 & evs2 & L2 & F2).
      destruct (await_io w2) as [[[]|e] w3] eqn:E3;
        destruct (calm_await_io _ _ _ E3) as (S3 & evs3 & L3 & F3);
        injection E as <- <-; cbn [rollback settingsRow log set_entriesT set_statsT];
        (split; [congruence|]);
        exists (evs1 ++ evs2 ++ evs3)%list;
        (split; [rewrite L3, L2, L1, <- !app_assoc; reflexivity|
                 repeat (apply Forall_app; split); assumption]).
    + destruct (Hb _ _ _ E2) as (S2 & evs2 & L2 & F2).
      injection E as <- <-; cbn [rollback settingsRow log set_entriesT set_statsT].
      split; [congruence|]. exists (evs1 ++ evs2)%list.
      split; [rewrite L2, L1, <- !app_assoc; reflexivity|apply Forall_app; split; assumption].
  - injection E as <- <-. exact (calm_await_io _ _ _ E1).
Qed.

Lemma calm_lift {A : Type} (r : Result A) : calm (lift r).
Proof. apply calm_silent. intros w. split; reflexivity. Qed.

Lemma calm_importTable {A : Type} `{Row A} (tbl : TableRef A) (key : string)
    (decode : json -> option A) (data : json) :
  calmRef tbl -> calm (importTable Date_parse tbl key decode data).
Proof.
  intros Ht. unfold importTable.
  apply calm_bind; [apply calm_lift|intros [l|]]; [|apply calm_ret].
  apply calm_bind; [apply calm_lift|intros items; apply calm_bulkAdd; exact Ht].
Qed.

Lemma calm_importData (text : Text) : calm (importData Date_parse text).
Proof.
  unfold importData. apply calm_bind.
  - destruct text; [apply calm_throw|apply calm_ret].
  - intros data. apply calm_bind; [|intros _; apply calm_emit; exact I].
    apply calm_transaction.
    apply calm_bind; [apply calm_clear; exact calmRef_stats|intros _].
    apply calm_bind; [apply calm_clear; exact calmRef_entries|intros _].
    apply calm_bind; [apply calm_importTable; exact calmRef_stats|intros _].
    apply calm_importTable; exact calmRef_entries.
Qed.

Lemma calm_buildBackupFile : calm buildBackupFile.
Proof.
  unfold buildBackupFile.
  apply calm_bind; [apply calm_toArray|intros ss].
  apply calm_bind; [apply calm_toArray|intros es].
  apply calm_bind; [exact calm_newDate|intros now]. apply calm_ret.
Qed.

Lemma calm_getSettings : calm getSettings.
Proof.
  unfold getSettings. apply calm_bind; [exact calm_await_io|intros _].
  apply calm_bind; [exact calm_getWorld|intros w]. apply calm_ret.
Qed.

Lemma calm_findBackupFile (tok : string) : calm (findBackupFile tok).
Proof.
  unfold findBackupFile, listAppDataFiles.
  apply calm_bind; [|intros files; apply calm_ret].
  apply calm_bind; [apply calm_emit; exact I|intros _].
  apply calm_bind; [exact calm_await_io|intros _].
  apply calm_bind; [exact calm_getWorld|intros w]. apply calm_ret.
Qed.

Lemma calm_downloadBackup (tok : string) (fid : FileId) : calm (downloadBackup tok fid).
Proof.
  unfold downloadBackup.
  apply calm_bind; [apply calm_emit; exact I|intros _].
  apply calm_bind; [exact calm_await_io|intros _].
  apply calm_bind; [exact calm_getWorld|intros w].
  destruct (drive w) as [f|]; [|apply calm_throw].
  destruct (Pos.eqb (fileId f) fid); [|apply calm_throw].
  destruct (backupOfJSON (body f)); [apply calm_ret|apply calm_throw].
Qed.

Lemma calm_uploadBackup (tok : string) (b : BackupFile) (existing : option FileId) :
  calm (uploadBackup tok b existing).
Proof.
  unfold uploadBackup.
  apply calm_bind; [apply calm_emit; exact I|intros _].
  apply calm_bind; [exact calm_await_io|intros _].
  apply calm_bind; [exact calm_getWorld|intros w].
  destruct existing as [fid|].
  - destruct (drive w) as [f|]; [|apply calm_throw].
    destruct (Pos.eqb (fileId f) fid); [|apply calm_throw].
    apply calm_bind; [apply calm_putDrive|intros _].
    apply calm_bind; [apply calm_emit; exact I|intros _]. apply calm_ret.
  - apply calm_bind; [exact calm_takeFreshId|intros fid].
    apply calm_bind; [apply calm_putDrive|intros _].
    apply calm_bind; [apply calm_emit; exact I|intros _]. apply calm_ret.
Qed.

Lemma disciplined_ret (res : SyncResult) :
  status res <> StError -> disciplined (ret res).
Proof.
  intros Hs w r w' E. injection E as <- <-. left.
  exists []. rewrite app_nil_r. repeat split; [constructor|].
  intros res' E. injection E as <-. exact Hs.
Qed.

Lemma disciplined_throw (e : exn) : disciplined (throw e).
Proof.
  intros w r w' E. injection E as <- <-. left.
  exists []. rewrite app_nil_r. repeat split; [constructor|].
  intros res' E. discriminate.
Qed.

Lemma disciplinedRun_after (w w1 w' : World) (r : Result SyncResult)
    (evs1 : list Event) :
  settingsRow w1 = settingsRow w ->
  log w1 = (log w ++ evs1)%list ->
  Forall carriesNoMark evs1 ->
  disciplinedRun w1 r w' ->
  disciplinedRun w r w'.
Proof.
  intros S1 L1 F1 [(evs & L & F & Wm & Hr)|(evs & u & c & res & Hr & Hs & L & F & Hu & Wm & Hc)].
  - left. exists (evs1 ++ evs)%list. repeat split.
    + rewrite L, L1, app_assoc. reflexivity.
    + apply Forall_app. split; assumption.
    + rewrite Wm. unfold watermark. rewrite S1. reflexivity.
    + exact Hr.
  - right. exists (evs1 ++ evs)%list, u, c, res. repeat split; try assumption.
    + rewrite L, L1, <- !app_assoc. reflexivity.
    + apply Forall_app. split; assumption.
    + destruct Hc as (pre & ev & -> & Hev). exists (evs1 ++ pre)%list, ev.
      split; [rewrite app_assoc; reflexivity|exact Hev].
Qed.

Lemma disciplined_bind {A : Type} (m : M A) (k : A -> M SyncResult) :
  calm m -> (forall a, disciplined (k a)) -> disciplined (bind m k).
Proof.
  intros Hm Hk w r w' E. unfold bind in E.
  destruct (m w) as [[a|e] w1] eqn:E1;
    destruct (Hm _ _ _ E1) as (S1 & evs1 & L1 & F1).
  - exact (disciplinedRun_after _ _ _ _ _ S1 L1 F1 (Hk a _ _ _ E)).
  - injection E as <- <-. left. exists evs1. repeat split; try assumption.
    + unfold watermark. rewrite S1. reflexivity.
    + intros res E. discriminate.
Qed.

(** updateSettings either writes nothing, or returns after it has written
    the changes into the row and recorded them. *)
Lemma updateSettings_outcome (changes : Settings.partial) (w : World)
    (r : Result unit) (w' : World) :
  updateSettings changes w = (r, w') ->
  (settingsRow w' = settingsRow w /\ log w' = log w) \/
  (r = Ok tt /\ log w' = (log w ++ [SettingsWritten changes])%list /\
   exists stamp s, settingsRow w = Some s /\
                   settingsRow w' = Some (Settings.modify changes stamp s)).
Proof.
  unfold updateSettings, bind, await_io, getWorld, ret, newDate, emit.
  destruct (fault w (calls w)); cbn [settingsRow set_calls].
  - intros E. injection E as <- <-. left. split; reflexivity.
  - destruct (settingsRow w) as [s|] eqn:Hs; cbn [settingsRow set_calls];
      [|intros E; injection E as <- <-; left; split; [exact Hs|reflexivity]].
    destruct (Settings.id s);
      [|intros E; injection E as <- <-; left; split; [exact Hs|reflexivity]].
    cbn [fault calls set_calls].
    destruct (fault w (S (calls w))).
    + intros E; injection E as <- <-; left; split; [exact Hs|reflexivity].
    + cbn. intros E; injection E as <- <-. right. cbn.
      repeat split. eexists _, s. split; reflexivity.
Qed.

(** A tail that writes the settings without a checksum. *)
Lemma disciplined_plain_write (changes : Settings.partial) (res : SyncResult) :
  Settings.p_lastSyncChecksum changes = None ->
  status res <> StError ->
  disciplined (updateSettings changes ;;; ret res).
Proof.
  intros Hc Hs w r w' E. unfold bind in E.
  destruct (updateSettings changes w) as [[[]|e] w1] eqn:E1;
    [unfold ret in E|]; injection E as <- <-;
    destruct (updateSettings_outcome _ _ _ _ E1)
      as [[S1 L1]|(Hr & L1 & stamp & s & S0 & S1)]; try discriminate Hr; left.
  - exists []. rewrite app_nil_r. repeat split; [exact L1|constructor| |].
    + unfold watermark. rewrite S1. reflexivity.
    + intros res' E. injection E as <-. exact Hs.
  - exists [SettingsWritten changes]. repeat split; [exact L1| | |].
    + constructor; [exact Hc|constructor].
    + unfold watermark. rewrite S1, S0. cbn. rewrite Hc. reflexivity.
    + intros res' E. injection E as <-. exact Hs.
  - exists []. rewrite app_nil_r. repeat split; [exact L1|constructor| |].
    + unfold watermark. rewrite S1. reflexivity.
    + intros res' E. discriminate.
Qed.

(** A tail that records the checksum [c], entered when the events so far
    end with the step that confirms [c]. *)
Lemma marking_write_run (changes : Settings.partial) (c msg : string)
    (w0 w : World) (evs : list Event) (r : Result SyncResult) (w' : World) :
  Settings.p_lastSyncChecksum changes = Some c ->
  settingsRow w = settingsRow w0 ->
  log w = (log w0 ++ evs)%list ->
  Forall carriesNoMark evs ->
  confirmed evs c ->
  (updateSettings changes ;;; ret (success msg)) w = (r, w') ->
  disciplinedRun w0 r w'.
Proof.
  intros Hc S0 L0 F0 C0 E. unfold bind in E.
  destruct (updateSettings changes w) as [[[]|e] w1] eqn:E1;
    [unfold ret in E|]; injection E as <- <-;
    destruct (updateSettings_outcome _ _ _ _ E1)
      as [[S1 L1]|(Hr & L1 & stamp & s & Sw & S1)]; try discriminate Hr.
  - left. exists evs. repeat split; [congruence|exact F0| |].
    + unfold watermark. rewrite S1, S0. reflexivity.
    + intros res' E. injection E as <-. discriminate.
  - right. exists evs, changes, c, (success msg). repeat split; try assumption.
    + rewrite L1, L0, <- app_assoc. reflexivity.
    + unfold watermark. rewrite S1. cbn. rewrite Hc. reflexivity.
  - left. exists evs. repeat split; [congruence|exact F0| |].
    + unfold watermark. rewrite S1, S0. reflexivity.
    + intros res' E. discriminate.
Qed.

Lemma uploadBackup_ok (tok : string) (b : BackupFile) (existing : option FileId)
    (w : World) (fid : FileId) (w1 : World) :
  uploadBackup tok b existing w = (Ok fid, w1) ->
  settingsRow w1 = settingsRow w /\
  log w1 = (log w ++ [CallUpload b existing; Uploaded fid b])%list /\
  drive w1 = Some (mkDriveFile fid (backupToJSON b)).
Proof.
  unfold uploadBackup, bind, emit, await_io, getWorld, ret, putDrive, takeFreshId, throw.
  cbn [fault calls set_log set_calls drive].
  destruct (fault w (calls w)); [discriminate|].
  cbn [fault calls set_log set_calls drive].
  destruct existing as [fid'|].
  - destruct (drive w) as [f|]; [|cbn; discriminate].
    destruct (Pos.eqb (fileId f) fid'); [|cbn; discriminate].
    cbn. intros E. injection E as <- <-. cbn. rewrite <- app_assoc. repeat split.
  - cbn. intros E. injection E as <- <-. cbn. rewrite <- app_assoc. repeat split.
Qed.

Lemma disciplined_after_upload (tok : string) (b : BackupFile)
    (existing : option FileId) (changes : FileId -> Z -> Settings.partial)
    (msg : string) :
  (forall fid now,
      Settings.p_lastSyncChecksum (changes fid now) = Some (checksum (metadata b))) ->
  disciplined (fid <- uploadBackup tok b existing ;;
               now <- newDate ;;
               updateSettings (changes fid now) ;;;
               ret (success msg)).
Proof.
  intros Hc w r w' E. unfold bind at 1 in E.
  destruct (uploadBackup tok b existing w) as [[fid|e] w1] eqn:E1.
  - destruct (uploadBackup_ok _ _ _ _ _ _ E1) as (S1 & L1 & _).
    unfold bind at 1, newDate at 1 in E.
    refine (marking_write_run _ _ _ w _ _ _ _ (Hc fid _) _ _ _ _ E).
    + exact S1.
    + exact L1.
    + repeat constructor.
    + exists [CallUpload b existing], (Uploaded fid b). split; reflexivity.
  - injection E as <- <-.
    destruct (calm_uploadBackup _ _ _ _ _ _ E1) as (S1 & evs1 & L1 & F1).
    left. exists evs1. repeat split; try assumption.
    + unfold watermark. rewrite S1. reflexivity.
    + intros res E. discriminate.
Qed.

Lemma importData_ok (text : Text) (w w1 : World) :
  importData Date_parse text w = (Ok tt, w1) ->
  settingsRow w1 = settingsRow w /\
  exists evs data, text = TextOf data /\
                   log w1 = (log w ++ evs ++ [Imported data])%list /\
                   Forall carriesNoMark evs.
Proof.
  intros E. split; [exact (proj1 (calm_importData _ _ _ _ E))|].
  unfold importData in E. destruct text as [|data]; [discriminate|].
  unfold bind at 1, JSON_parse, ret at 1 in E.
  unfold bind at 1 in E.
  match type of E with
  | context [transaction ?body w] =>
      destruct (transaction body w) as [[[]|e] w2] eqn:E2;
      [assert (Hb : calm (transaction body))|discriminate]
  end.
  { apply calm_transaction.
    apply calm_bind; [apply calm_clear; exact calmRef_stats|intros _].
    apply calm_bind; [apply calm_clear; exact calmRef_entries|intros _].
    apply calm_bind; [apply calm_importTable; exact calmRef_stats|intros _].
    apply calm_importTable; exact calmRef_entries. }
  destruct (Hb _ _ _ E2) as (S2 & evs & L2 & F2).
  injection E as <-. exists evs, data. cbn. rewrite L2, <- app_assoc.
  repeat split. exact F2.
Qed.

Lemma disciplined_after_import (text : Text) (changes : Z -> Settings.partial)
    (c msg : string) :
  (forall now, Settings.p_lastSyncChecksum (changes now) = Some c) ->
  disciplined (importData Date_parse text ;;;
               now <- newDate ;;
               updateSettings (changes now) ;;;
               ret (success msg)).
Proof.
  intros Hc w r w' E. unfold bind at 1 in E.
  destruct (importData Date_parse text w) as [[[]|e] w1] eqn:E1.
  - destruct (importData_ok _ _ _ E1) as (S1 & evs & data & _ & L1 & F1).
    unfold bind at 1, newDate at 1 in E.
    refine (marking_write_run _ _ _ w _ _ _ _ (Hc _) _ _ _ _ E).
    + exact S1.
    + exact L1.
    + apply Forall_app. split; [exact F1|repeat constructor].
    + exists evs, (Imported data). split; reflexivity.
  - injection E as <- <-.
    destruct (calm_importData _ _ _ _ E1) as (S1 & evs1 & L1 & F1).
    left. exists evs1. repeat split; try assumption.
    + unfold watermark. rewrite S1. reflexivity.
    + intros res E. discriminate.
Qed.

Lemma disciplined_resolveConflict (tok : string) (fid : FileId)
    (local cloud : BackupFile) (resolution : ConflictResolution) :
  disciplined (resolveConflict Date_parse tok fid local cloud resolution).
Proof.
  destruct resolution; cbn [resolveConflict].
  - apply (disciplined_after_upload tok local (Some fid)
             (fun _ now => syncUpdate None now (Some (checksum (metadata local))))).
    reflexivity.
  - apply (disciplined_after_import _
             (fun now => syncUpdate None now (Some (checksum (metadata cloud))))
             (checksum (metadata cloud))).
    reflexivity.
  - apply disciplined_bind; [exact calm_newDate|intros t].
    apply disciplined_bind; [exact calm_newDate|intros t'].
    apply disciplined_bind; [apply calm_importData|intros _].
    apply disciplined_bind; [exact calm_buildBackupFile|intros newBackup].
    apply (disciplined_after_upload tok newBackup (Some fid)
             (fun _ now => syncUpdate None now (Some (checksum (metadata newBackup))))).
    reflexivity.
Qed.

Lemma disciplined_syncBody (tok : string) (res : option ConflictResolution) :
  disciplined (syncBody Date_parse tok res).
Proof.
  unfold syncBody.
  apply disciplined_bind; [exact calm_getSettings|intros settings].
  apply disciplined_bind; [exact calm_buildBackupFile|intros local].
  apply disciplined_bind; [apply calm_findBackupFile|intros [existingId|]].
  - apply disciplined_bind; [apply calm_downloadBackup|intros cloud].
    destruct (String.eqb (checksum (metadata cloud)) (checksum (metadata local))).
    + apply disciplined_bind; [exact calm_newDate|intros now].
      apply disciplined_plain_write; [reflexivity|discriminate].
    + destruct (sameString (Settings.lastSyncChecksum settings)
                           (checksum (metadata cloud))).
      * apply (disciplined_after_upload tok local (Some existingId)
                 (fun _ now => syncUpdate None now (Some (checksum (metadata local))))).
        reflexivity.
      * destruct res as [resolution|].
        -- apply disciplined_resolveConflict.
        -- apply disciplined_ret. discriminate.
  - apply (disciplined_after_upload tok local None
             (fun fid now =>
                syncUpdate (Some fid) now (Some (checksum (metadata local))))).
    reflexivity.
Qed.

Lemma marking_event_is_last (evs : list Event) (x y : Event)
    (pre post : list Event) :
  Forall carriesNoMark evs -> ~ carriesNoMark y ->
  (evs ++ [x] = pre ++ y :: post)%list ->
  pre = evs /\ y = x /\ post = [].
Proof.
  intros F Hy. revert pre. induction F as [|a r Ha F IH]; intros pre E.
  - destruct pre as [|a' pre']; cbn in E.
    + injection E as <- <-. repeat split.
    + injection E as _ E. destruct pre'; discriminate.
  - destruct pre as [|a' pre']; cbn in E.
    + injection E as <- _. contradiction.
    + injection E as <- E. destruct (IH _ E) as (-> & -> & ->). repeat split.
Qed.

(** *** A run stops at the first call that rejects *)

Lemma stops_silent {A : Type} (m : M A) :
  (forall w, calls (snd (m w)) = calls w /\ fault (snd (m w)) = fault w) ->
  stopsAtRejection m.
Proof.
  intros H w r w' E. specialize (H w). rewrite E in H. cbn [snd] in H.
  destruct H as [C F]. split; [lia|]. split; [exact F|]. intros n e Hn. lia.
Qed.

Lemma stops_ret {A : Type} (a : A) : stopsAtRejection (ret a).
Proof. apply stops_silent. intros w. split; reflexivity. Qed.

Lemma stops_throw {A : Type} (e : exn) : stopsAtRejection (@throw A e).
Proof. apply stops_silent. intros w. split; reflexivity. Qed.

Lemma stops_lift {A : Type} (r : Result A) : stopsAtRejection (lift r).
Proof. apply stops_silent. intros w. split; reflexivity. Qed.

Lemma stops_getWorld : stopsAtRejection getWorld.
Proof. apply stops_silent. intros w. split; reflexivity. Qed.

Lemma stops_newDate : stopsAtRejection newDate.
Proof. apply stops_silent. intros w. split; reflexivity. Qed.

Lemma stops_emit (ev : Event) : stopsAtRejection (emit ev).
Proof. apply stops_silent. intros w. split; reflexivity. Qed.

Lemma stops_putDrive (f : DriveFile) : stopsAtRejection (putDrive f).
Proof. apply stops_silent. intros w. split; reflexivity. Qed.

Lemma stops_takeFreshId : stopsAtRejection takeFreshId.
Proof. apply stops_silent. intros w. split; reflexivity. Qed.

Lemma stops_putStats (t : Table Stat.t) : stopsAtRejection (putTable statsRef t).
Proof. apply stops_silent. intros w. split; reflexivity. Qed.

Lemma stops_putEntries (t : Table Entry.t) : stopsAtRejection (putTable entriesRef t).
Proof. apply stops_silent. intros w. split; reflexivity. Qed.

Lemma stops_await_io : stopsAtRejection await_io.
Proof.
  intros w r w' E. unfold await_io in E.
  destruct (fault w (calls w)) as [e0|] eqn:F; injection E as <- <-;
    cbn [calls fault set_calls]; (split; [lia|]); (split; [destruct w; reflexivity|]);
    intros n e Hn Hf; assert (n = calls w) as -> by lia.
  - split; [congruence|reflexivity].
  - congruence.
Qed.

(** Two runs one after the other, the first of which returned. *)
Lemma stops_after {A B : Type} (w w1 w' : World) (a : A) (r : Result B) :
  ((calls w <= calls w1)%nat /\ fault w1 = fault w /\
   forall n e, (calls w <= n < calls w1)%nat -> fault w n = Some e ->
     Ok a = Throw e /\ calls w1 = S n) ->
  ((calls w1 <= calls w')%nat /\ fault w' = fault w1 /\
   forall n e, (calls w1 <= n < calls w')%nat -> fault w1 n = Some e ->
     r = Throw e /\ calls w' = S n) ->
  (calls w <= calls w')%nat /\ fault w' = fault w /\
  forall n e, (calls w <= n < calls w')%nat -> fault w n = Some e ->
    r = Throw e /\ calls w' = S n.
Proof.
  intros (C1 & F1 & S1) (C2 & F2 & S2).
  split; [lia|]. split; [congruence|]. intros n e Hn Hf.
  destruct (Nat.lt_ge_cases n (calls w1)) as [Hlt|Hge].
  - destruct (S1 n e (conj (proj1 Hn) Hlt) Hf) as [G _]. discriminate G.
  - apply S2; [lia|]. rewrite F1. exact Hf.
Qed.

Lemma stops_bind {A B : Type} (m : M A) (k : A -> M B) :
  stopsAtRejection m -> (forall a, stopsAtRejection (k a)) -> stopsAtRejection (bind m k).
Proof.
  intros Hm Hk w r w' E. unfold bind in E.
  destruct (m w) as [[a|e0] w1] eqn:E1.
  - exact (stops_after w w1 w' a r (Hm _ _ _ E1) (Hk a _ _ _ E)).
  - injection E as <- <-. destruct (Hm _ _ _ E1) as (C1 & F1 & S1).
    split; [exact C1|]. split; [exact F1|]. intros n e Hn Hf.
    destruct (S1 n e Hn Hf) as [G Hc]. injection G as ->. split; [reflexivity|exact Hc].
Qed.

(** A transaction that aborts throws what its body, or the call that
    rejected, threw. *)
Lemma stops_transaction {A : Type} (body : M A) :
  stopsAtRejection body -> stopsAtRejection (transaction body).
Proof.
  intros Hb w r w' E. unfold transaction in E.
  destruct (await_io w) as [[[]|e1] w1] eqn:E1;
    pose proof (stops_await_io _ _ _ E1) as H1.
  - destruct (body w1) as [[a|e2] w2] eqn:E2; pose proof (Hb _ _ _ E2) as H2.
    + destruct (await_io w2) as [[[]|e3] w3] eqn:E3;
        pose proof (stops_await_io _ _ _ E3) as H3; injection E as <- <-.
      * apply (stops_after w w1 w3 tt); [exact H1|].
        apply (stops_after w1 w2 w3 a); [exact H2|]. destruct H3 as (C3 & F3 & S3).
        split; [exact C3|]. split; [exact F3|]. intros n e Hn Hf.
        destruct (S3 n e Hn Hf) as [G _]. discriminate G.
      * apply (stops_after w w1 _ tt); [exact H1|].
        apply (stops_after w1 w2 _ a); [exact H2|]. destruct H3 as (C3 & F3 & S3).
        split; [exact C3|]. split; [exact F3|]. intros n e Hn Hf.
        destruct (S3 n e Hn Hf) as [G Hc]. injection G as ->.
        split; [reflexivity|exact Hc].
    + injection E as <- <-. apply (stops_after w w1 _ tt); [exact H1|].
      destruct H2 as (C2 & F2 & S2).
      split; [exact C2|]. split; [exact F2|]. intros n e Hn Hf.
      destruct (S2 n e Hn Hf) as [G Hc]. injection G as ->.
      split; [reflexivity|exact Hc].
  - injection E as <- <-. destruct H1 as (C1 & F1 & S1).
    split; [exact C1|]. split; [exact F1|]. intros n e Hn Hf.
    destruct (S1 n e Hn Hf) as [G Hc]. injection G as ->. split; [reflexivity|exact Hc].
Qed.

Lemma stops_toArray {A : Type} (tbl : TableRef A) : stopsAtRejection (toArray tbl).
Proof.
  unfold toArray. apply stops_bind; [exact stops_await_io|intros _].
  apply stops_bind; [exact stops_getWorld|intros w]. apply stops_ret.
Qed.

Lemma stops_clear {A : Type} (tbl : TableRef A) :
  (forall t, stopsAtRejection (putTable tbl t)) -> stopsAtRejection (clear tbl).
Proof.
  intros Ht. unfold clear. apply stops_bind; [exact stops_await_io|intros _].
  apply stops_bind; [exact stops_getWorld|intros w]. apply Ht.
Qed.

Lemma stops_creatingHook {A : Type} `{Row A} (obj : A) :
  stopsAtRejection (creatingHook obj).
Proof.
  unfold creatingHook. apply stops_bind; [exact stops_newDate|intros c].
  apply stops_bind; [exact stops_newDate|intros u]. apply stops_ret.
Qed.

Lemma stops_addEach {A : Type} `{Row A} (items : list A) :
  forall t, stopsAtRejection (addEach items t).
Proof.
  induction items as [|obj rest IH]; intros t; cbn [addEach]; [apply stops_ret|].
  apply stops_bind; [apply stops_creatingHook|intros obj'].
  destruct (tableAdd obj' t); [apply IH|apply stops_throw].
Qed.

Lemma stops_bulkAdd {A : Type} `{Row A} (tbl : TableRef A) (items : list A) :
  (forall t, stopsAtRejection (putTable tbl t)) -> stopsAtRejection (bulkAdd tbl items).
Proof.
  intros Ht. unfold bulkAdd. apply stops_bind; [exact stops_await_io|intros _].
  apply stops_bind; [exact stops_getWorld|intros w].
  apply stops_bind; [apply stops_addEach|intros t']. apply Ht.
Qed.

Lemma stops_importTable {A : Type} `{Row A} (tbl : TableRef A) (key : string)
    (decode : json -> option A) (data : json) :
  (forall t, stopsAtRejection (putTable tbl t)) ->
  stopsAtRejection (importTable Date_parse tbl key decode data).
Proof.
  intros Ht. unfold importTable.
  apply stops_bind; [apply stops_lift|intros [l|]]; [|apply stops_ret].
  apply stops_bind; [apply stops_lift|intros items; apply stops_bulkAdd; exact Ht].
Qed.

Lemma stops_importData (text : Text) : stopsAtRejection (importData Date_parse text).
Proof.
  unfold importData. apply stops_bind.
  - destruct text; [apply stops_throw|apply stops_ret].
  - intros data. apply stops_bind; [|intros _; apply stops_emit].
    apply stops_transaction.
    apply stops_bind; [apply stops_clear; exact stops_putStats|intros _].
    apply stops_bind; [apply stops_clear; exact stops_putEntries|intros _].
    apply stops_bind; [apply stops_importTable; exact stops_putStats|intros _].
    apply stops_importTable; exact stops_putEntries.
Qed.

Lemma stops_getSettings : stopsAtRejection getSettings.
Proof.
  unfold getSettings. apply stops_bind; [exact stops_await_io|intros _].
  apply stops_bind; [exact stops_getWorld|intros w]. apply stops_ret.
Qed.

Lemma stops_updateSettings (changes : Settings.partial) :
  stopsAtRejection (updateSettings changes).
Proof.
  unfold updateSettings. apply stops_bind; [exact stops_await_io|intros _].
  apply stops_bind; [exact stops_getWorld|intros w].
  destruct (settingsRow w) as [s|]; [|apply stops_ret].
  destruct (Settings.id s); [|apply stops_ret].
  apply stops_bind; [exact stops_await_io|intros _].
  apply stops_bind; [exact stops_newDate|intros now].
  apply stops_bind; [|intros _; apply stops_emit].
  apply stops_silent. intros w0. split; reflexivity.
Qed.

Lemma stops_buildBackupFile : stopsAtRejection buildBackupFile.
Proof.
  unfold buildBackupFile. apply stops_bind; [apply stops_toArray|intros ss].
  apply stops_bind; [apply stops_toArray|intros es].
  apply stops_bind; [exact stops_newDate|intros now]. apply stops_ret.
Qed.

Lemma stops_findBackupFile (tok : string) : stopsAtRejection (findBackupFile tok).
Proof.
  unfold findBackupFile, listAppDataFiles.
  apply stops_bind; [|intros files; apply stops_ret].
  apply stops_bind; [apply stops_emit|intros _].
  apply stops_bind; [exact stops_await_io|intros _].
  apply stops_bind; [exact stops_getWorld|intros w]. apply stops_ret.
Qed.

Lemma stops_uploadBackup (tok : string) (b : BackupFile) (existing : option FileId) :
  stopsAtRejection (uploadBackup tok b existing).
Proof.
  unfold uploadBackup. apply stops_bind; [apply stops_emit|intros _].
  apply stops_bind; [exact stops_await_io|intros _].
  apply stops_bind; [exact stops_getWorld|intros w].
  destruct existing as [fid|].
  - destruct (drive w) as [f|]; [|apply stops_throw].
    destruct (Pos.eqb (fileId f) fid); [|apply stops_throw].
    apply stops_bind; [apply stops_putDrive|intros _].
    apply stops_bind; [apply stops_emit|intros _]. apply stops_ret.
  - apply stops_bind; [exact stops_takeFreshId|intros fid].
    apply stops_bind; [apply stops_putDrive|intros _].
    apply stops_bind; [apply stops_emit|intros _]. apply stops_ret.
Qed.

Lemma stops_downloadBackup (tok : string) (fid : FileId) :
  stopsAtRejection (downloadBackup tok fid).
Proof.
  unfold downloadBackup. apply stops_bind; [apply stops_emit|intros _].
  apply stops_bind; [exact stops_await_io|intros _].
  apply stops_bind; [exact stops_getWorld|intros w].
  destruct (drive w) as [f|]; [|apply stops_throw].
  destruct (Pos.eqb (fileId f) fid); [|apply stops_throw].
  destruct (backupOfJSON (body f)); [apply stops_ret|apply stops_throw].
Qed.

(** A step, the reading of the clock, the settings write and the answer. *)
Lemma stops_recording {A : Type} (m : M A) (changes : A -> Z -> Settings.partial)
    (res : SyncResult) :
  stopsAtRejection m ->
  stopsAtRejection (a <- m ;; now <- newDate ;; updateSettings (changes a now) ;;; ret res).
Proof.
  intros Hm. apply stops_bind; [exact Hm|intros a].
  apply stops_bind; [exact stops_newDate|intros now].
  apply stops_bind; [apply stops_updateSettings|intros _]. apply stops_ret.
Qed.

Lemma stops_resolveConflict (tok : string) (fid : FileId) (local cloud : BackupFile)
    (resolution : ConflictResolution) :
  stopsAtRejection (resolveConflict Date_parse tok fid local cloud resolution).
Proof.
  destruct resolution; cbn [resolveConflict].
  - apply (stops_recording _ (fun _ now => _)). apply stops_uploadBackup.
  - apply (stops_recording _ (fun _ now => _)). apply stops_importData.
  - apply stops_bind; [exact stops_newDate|intros t].
    apply stops_bind; [exact stops_newDate|intros t'].
    apply stops_bind; [apply stops_importData|intros _].
    apply stops_bind; [exact stops_buildBackupFile|intros newBackup].
    apply (stops_recording _ (fun _ now => _)). apply stops_uploadBackup.
Qed.

(** What a run does once it has the settings. *)
Ltac stops_once_settled :=
  apply stops_bind; [exact stops_buildBackupFile|intros ?localBackup];
  apply stops_bind; [apply stops_findBackupFile|intros [?existingId|]];
  [apply stops_bind; [apply stops_downloadBackup|intros ?cloudBackup];
   destruct (String.eqb _ _);
   [apply stops_bind; [exact stops_newDate|intros ?now];
    apply stops_bind; [apply stops_updateSettings|intros _]; apply stops_ret
   |destruct (sameString _ _);
    [apply (stops_recording _ (fun _ now => _)); apply stops_uploadBackup
    |match goal with
     | |- context [match ?res with Some _ => _ | None => _ end] =>
         destruct res as [?resolution|];
         [apply stops_resolveConflict|apply stops_ret]
     end]]
  |apply (stops_recording _ (fun fid now => _)); apply stops_uploadBackup].

Lemma stops_syncBody (tok : string) (res : option ConflictResolution) :
  stopsAtRejection (syncBody Date_parse tok res).
Proof.
  unfold syncBody. apply stops_bind; [exact stops_getSettings|intros settings].
  stops_once_settled.
Qed.

(** Every run asks for the settings first: it makes a call. *)
Lemma syncBody_calls (tok : string) (res : option ConflictResolution) (w : World)
    (r : Result SyncResult) (w' : World) :
  syncBody Date_parse tok res w = (r, w') -> (calls w < calls w')%nat.
Proof.
  intros E. unfold syncBody in E. unfold bind at 1 in E.
  destruct (getSettings w) as [[settings|e] w1] eqn:E1.
  - assert (C1 : calls w1 = S (calls w)).
    { unfold getSettings, bind, await_io, getWorld, ret in E1.
      destruct (fault w (calls w)); [discriminate|]. injection E1 as _ <-. reflexivity. }
    match type of E with
    | ?m w1 = _ => assert (Hm : stopsAtRejection m) by stops_once_settled
    end.
    destruct (Hm _ _ _ E) as (C & _). lia.
  - injection E as _ <-.
    unfold getSettings, bind, await_io, getWorld, ret in E1.
    destruct (fault w (calls w)); [|discriminate]. injection E1 as _ <-. cbn. lia.
Qed.

(** A run that ends in [error] leaves the watermark as it was. A settings
    write that carries a checksum is the last thing a run does: the run
    succeeds, the watermark is that checksum, and the step just before
    the write is the upload that returned for a backup file with that
    checksum, or the import that was committed. *)
Lemma watermark_follows_the_write (tok : string)
    (res : option ConflictResolution) (w : World) :
  let '(r, w') := performSync Date_parse tok res w in
  (status r = StError <->
   exists e, syncBody Date_parse tok res w = (Throw e, w') /\
             r = mkResult StError (errorMessage e) None None) /\
  (status r = StError -> watermark w' = watermark w) /\
  (forall pre changes post c,
      log w' = (log w ++ pre ++ SettingsWritten changes :: post)%list ->
      Settings.p_lastSyncChecksum changes = Some c ->
      post = [] /\ status r = StSuccess /\ watermark w' = Some c /\ confirmed pre c).
Proof.
  unfold performSync.
  destruct (syncBody Date_parse tok res w) as [[result|e] w'] eqn:E;
    pose proof (disciplined_syncBody tok res _ _ _ E) as D.
  - assert (Hs : status result <> StError).
    { destruct D as [(evs & _ & _ & _ & H)|(evs & u & c & res' & Hr & Hs & _)].
      - apply H. reflexivity.
      - injection Hr as <-. rewrite Hs. discriminate. }
    split; [split; [intros G; contradiction|intros (e & G & _); discriminate]|].
    split; [intros G; contradiction|].
    intros pre changes post c L Hc.
    destruct D as [(evs & L' & F & _)|(evs & u & c' & res' & Hr & Hs' & L' & F & Hu & Wm & C)].
    + rewrite L in L'. apply app_inv_head in L'. subst evs.
      apply Forall_app in F. destruct F as [_ F]. inversion F as [|? ? Hm _]; subst.
      cbn in Hm. congruence.
    + injection Hr as <-. rewrite L in L'. apply app_inv_head in L'. symmetry in L'.
      assert (Hm : ~ carriesNoMark (SettingsWritten changes)) by (cbn; congruence).
      destruct (marking_event_is_last _ _ _ _ _ F Hm L') as (-> & Ey & ->).
      injection Ey as ->. assert (c' = c) as -> by congruence.
      repeat split; assumption.
  - split; [split; [intros _; exists e; split; reflexivity|intros _; reflexivity]|].
    destruct D as [(evs & L' & F & Wm & _)|(evs & u & c' & res' & Hr & _)];
      [|discriminate].
    split; [intros _; exact Wm|].
    intros pre changes post c L Hc.
    rewrite L in L'. apply app_inv_head in L'. subst evs.
    apply Forall_app in F. destruct F as [_ F]. inversion F as [|? ? Hm _]; subst.
    cbn in Hm. congruence.
Qed.

(** C3. performSync never throws: whatever a step of the run throws is
    caught, and the result then has the status [error] and the message of
    the error, and only then. Every run makes a call, and a run stops at
    the first call that rejects, be it to the store or to the transport:
    that call is its last, and the result is the [error] with the message
    of what the call threw. A run that ends in [error] leaves the
    watermark as it was. A settings write that carries a checksum is the
    last thing a run does: the run succeeds, the watermark is that
    checksum, and the step just before the write is the upload that
    returned for a backup file with that checksum, or the import that was
    committed. *)
Theorem failures_reported_watermark_kept (tok : string)
    (res : option ConflictResolution) (w : World) :
  let '(r, w') := performSync Date_parse tok res w in
  (forall e w1,
      syncBody Date_parse tok res w = (Throw e, w1) ->
      r = mkResult StError (errorMessage e) None None /\ w' = w1) /\
  (status r = StError <->
   exists e, syncBody Date_parse tok res w = (Throw e, w') /\
             r = mkResult StError (errorMessage e) None None) /\
  (calls w < calls w')%nat /\
  (forall n e,
      (calls w <= n < calls w')%nat -> fault w n = Some e ->
      r = mkResult StError (errorMessage e) None None /\ calls w' = S n) /\
  (status r = StError -> watermark w' = watermark w) /\
  (forall pre changes post c,
      log w' = (log w ++ pre ++ SettingsWritten changes :: post)%list ->
      Settings.p_lastSyncChecksum changes = Some c ->
      post = [] /\ status r = StSuccess /\ watermark w' = Some c /\ confirmed pre c).
Proof.
  pose proof (watermark_follows_the_write tok res w) as Old.
  unfold performSync in *.
  destruct (syncBody Date_parse tok res w) as [[result|e0] w'] eqn:E;
    destruct Old as (I & Wk & L);
    pose proof (syncBody_calls _ _ _ _ _ E) as C;
    destruct (stops_syncBody _ _ _ _ _ E) as (_ & _ & S).
  - split; [intros e w1 G; discriminate G|].
    split; [exact I|]. split; [exact C|]. split; [|split; [exact Wk|exact L]].
    intros n e Hn Hf. destruct (S n e Hn Hf) as [G _]. discriminate G.
  - split; [intros e w1 G; injection G as <- <-; split; reflexivity|].
    split; [exact I|]. split; [exact C|]. split; [|split; [exact Wk|exact L]].
    intros n e Hn Hf. destruct (S n e Hn Hf) as [G Hc]. injection G as ->.
    split; [reflexivity|exact Hc].
Qed.

(** *** The import *)

#[local] Instance StatLaws : RowLaws Stat.t.
Proof. split; reflexivity. Qed.

#[local] Instance EntryLaws : RowLaws Entry.t.
Proof. split; reflexivity. Qed.

Lemma set_reads_same (w : World) : set_reads (reads w) w = w.
Proof. destruct w; reflexivity. Qed.

Lemma addEach_stampAll {A : Type} `{Row A} (items : list A) :
  forall (t : Table A) (w : World),
    addEach items t w =
    (match fst (stampAll items t (clock w) (reads w)) with
     | Some t' => Ok t'
     | None => Throw constraintError
     end,
     set_reads (snd (stampAll items t (clock w) (reads w))) w).
Proof.
  induction items as [|obj rest IH]; intros t w; cbn [addEach stampAll].
  - cbn. rewrite set_reads_same. reflexivity.
  - unfold bind, creatingHook, newDate, ret, throw.
    cbn [clock reads set_reads bind].
    destruct (tableAdd _ t) as [t'|]; [|reflexivity].
    rewrite IH. reflexivity.
Qed.

Ltac step_in E :=
  cbv [bind ret throw lift await_io newDate emit getWorld putTable putDrive takeFreshId
       toArray clear bulkAdd transaction rollback JSON_parse importTable
       tget tset statsRef entriesRef
       set_calls set_reads set_log set_drive set_created set_settingsRow
       set_statsT set_entriesT
       statsT entriesT settingsRow drive freshId created clock reads fault calls log]
    in E.

(** Where the oracle is asked in [E], a run that returned was answered
    [None]. *)
Ltac answered E :=
  repeat (step_in E;
          match type of E with
          | context [match ?fa ?n with Some _ => _ | None => _ end] =>
              destruct (fa n) eqn:?; [discriminate E|]
          end).

(** importData returns only for a text that parses; both tables are then
    what bulkAdd made of the emptied tables, for the records the text
    holds, and nothing else of the store or of the remote folder has
    changed. *)
Lemma importData_inv (text : Text) (w w' : World) :
  importData Date_parse text w = (Ok tt, w') ->
  exists data ss es n,
    text = TextOf data /\
    itemsToImport Date_parse "stats" statOfJSON data = Ok ss /\
    itemsToImport Date_parse "entries" entryOfJSON data = Ok es /\
    stampAll ss (mkTable [] (keygen (statsT w))) (clock w) (reads w) =
      (Some (statsT w'), n) /\
    stampAll es (mkTable [] (keygen (entriesT w))) (clock w) n =
      (Some (entriesT w'), reads w') /\
    clock w' = clock w /\ settingsRow w' = settingsRow w /\ drive w' = drive w.
Proof.
  intros E. destruct w as [st en se dr fr cr cl rd fa ca lg].
  unfold importData in E. destruct text as [|data]; [discriminate E|].
  exists data. unfold itemsToImport.
  answered E.
  destruct (arrayToImport "stats" data) as [[l1|]|e1]; [| |discriminate E].
  - destruct (typed statOfJSON l1) as [ss|e]; [|discriminate E].
    answered E. rewrite addEach_stampAll in E.
    cbn [clock reads set_reads] in E.
    destruct (stampAll (map (rehydrate Date_parse) ss) _ cl rd) as [[ts|] n1] eqn:S1;
      cbn [fst snd] in E; [|discriminate E].
    step_in E.
    destruct (arrayToImport "entries" data) as [[l2|]|e2]; [| |discriminate E].
    + destruct (typed entryOfJSON l2) as [es|e]; [|discriminate E].
      answered E. rewrite addEach_stampAll in E.
      cbn [clock reads set_reads] in E.
      destruct (stampAll (map (rehydrate Date_parse) es) _ cl n1) as [[te|] n2] eqn:S2;
        cbn [fst snd] in E; [|discriminate E].
      answered E. injection E as <-.
      exists (map (rehydrate Date_parse) ss), (map (rehydrate Date_parse) es), n1.
      cbn. rewrite S1, S2. repeat split.
    + answered E. injection E as <-.
      exists (map (rehydrate Date_parse) ss), [], n1.
      cbn. rewrite S1. repeat split.
  - step_in E.
    destruct (arrayToImport "entries" data) as [[l2|]|e2]; [| |discriminate E].
    + destruct (typed entryOfJSON l2) as [es|e]; [|discriminate E].
      answered E. rewrite addEach_stampAll in E.
      cbn [clock reads set_reads] in E.
      destruct (stampAll (map (rehydrate Date_parse) es) _ cl rd) as [[te|] n2] eqn:S2;
        cbn [fst snd] in E; [|discriminate E].
      answered E. injection E as <-.
      exists [], (map (rehydrate Date_parse) es), rd.
      cbn. rewrite S2. repeat split.
    + answered E. injection E as <-.
      exists [], [], rd. cbn. repeat split.
Qed.

Section TableFacts.

Context {A : Type} `{RowLaws A}.

Lemma insertByKey_In (k : Z) (obj : A) (l : list A) (r : A) :
  In r (insertByKey k obj l) <-> r = obj \/ In r l.
Proof.
  induction l as [|x rest IH]; cbn.
  - split; [intros [E|[]]; left; symmetry; exact E|intros [E|[]]; left; symmetry; exact E].
  - destruct (row_id x) as [k'|]; [destruct (k <? k')|]; cbn; rewrite ?IH;
      intuition congruence.
Qed.

Lemma hasKey_true (k : Z) (l : list A) :
  hasKey k l = true <-> exists r, In r l /\ row_id r = Some k.
Proof.
  unfold hasKey. rewrite existsb_exists. unfold keyIs.
  split; intros (r & Hin & Hr); exists r; (split; [exact Hin|]).
  - destruct (row_id r) as [k'|]; [|discriminate].
    apply Z.eqb_eq in Hr. congruence.
  - rewrite Hr. apply Z.eqb_refl.
Qed.

Lemma tableAdd_Some (obj : A) (t t' : Table A) :
  tableAdd obj t = Some t' ->
  exists key,
    match row_id obj with Some k => key = k | None => key = keygen t end /\
    (forall r, In r (rows t') <-> r = with_id key obj \/ In r (rows t)) /\
    keygen t <= keygen t' /\ key < keygen t'.
Proof.
  unfold tableAdd.
  set (key := match row_id obj with Some k => k | None => keygen t end).
  destruct (hasKey key (rows t)); [discriminate|].
  intros E. injection E as <-. exists key. cbn [rows keygen].
  split; [subst key; destruct (row_id obj); reflexivity|].
  split; [intros r; apply insertByKey_In|].
  subst key. destruct (row_id obj); lia.
Qed.

Lemma storedAs_wider (clock : nat -> Z) (lo lo' hi : nat) (floor floor' : Z)
    (obj r : A) :
  (lo' <= lo)%nat -> floor' <= floor ->
  storedAs clock lo hi floor obj r -> storedAs clock lo' hi floor' obj r.
Proof.
  intros Hlo Hfl (i & key & [Hi1 Hi2] & Hr & Hk).
  exists i, key. repeat split; [lia|exact Hi2|exact Hr|].
  destruct (row_id obj); [exact Hk|lia].
Qed.

Lemma stampAll_spec (clock : nat -> Z) (items : list A) :
  forall (t : Table A) (n : nat) (t' : Table A) (n' : nat),
    stampAll items t clock n = (Some t', n') ->
    (n <= n')%nat /\ keygen t <= keygen t' /\
    (forall r, In r (rows t) -> In r (rows t')) /\
    (forall r, In r (rows t') ->
       In r (rows t) \/
       exists obj, In obj items /\ storedAs clock n n' (keygen t) obj r) /\
    (forall obj, In obj items ->
       exists r, In r (rows t') /\ storedAs clock n n' (keygen t) obj r) /\
    (tableKeyed t -> tableKeyed t').
Proof.
  induction items as [|obj rest IH]; intros t n t' n' E; cbn [stampAll] in E.
  - injection E as <- <-. repeat split; try lia; try tauto.
    intros obj [].
  - destruct (tableAdd _ t) as [t1|] eqn:Ht; [|discriminate].
    destruct (tableAdd_Some _ _ _ Ht) as (key & Hkey & Hrows & Hgen & Hlt).
    rewrite id_with_stamps in Hkey.
    destruct (IH _ _ _ _ E) as (Hn & Hg & Hold & Hnew & Hall & Hkeyed).
    assert (Hobj : storedAs clock n n' (keygen t) obj
                     (with_id key (with_stamps (DateObj (Some (clock n)))
                                               (DateObj (Some (clock (S n)))) obj))).
    { exists n, key. repeat split; [lia|lia|].
      destruct (row_id obj); [exact Hkey|lia]. }
    repeat split.
    + lia.
    + lia.
    + intros r Hr. apply Hold. apply Hrows. right. exact Hr.
    + intros r Hr. destruct (Hnew r Hr) as [G|(o & Ho & G)].
      * apply Hrows in G. destruct G as [->|G]; [|left; exact G].
        right. exists obj. split; [left; reflexivity|exact Hobj].
      * right. exists o. split; [right; exact Ho|].
        apply (storedAs_wider clock (S (S n)) n n' (keygen t1) (keygen t));
          [lia|exact Hgen|exact G].
    + intros o [<-|Ho].
      * eexists. split; [|exact Hobj]. apply Hold. apply Hrows. left. reflexivity.
      * destruct (Hall o Ho) as (r & Hr & G). exists r. split; [exact Hr|].
        apply (storedAs_wider clock (S (S n)) n n' (keygen t1) (keygen t));
          [lia|exact Hgen|exact G].
    + intros Ht0. apply Hkeyed. intros r Hr. apply Hrows in Hr.
      destruct Hr as [->|Hr].
      * exists key. split; [apply id_with_id|exact Hlt].
      * destruct (Ht0 r Hr) as (k & Hk & Hlt'). exists k. split; [exact Hk|lia].
Qed.

(** Emptied and filled again from [source], the table holds [source]
    and has lost every key that [source] does not have. *)
Lemma stampAll_replaces (clock : nat -> Z) (items source : list A)
    (same : A -> A) (t t' : Table A) (n n' lo hi : nat) :
  items = map same source ->
  (forall c, row_id (same c) = row_id c) ->
  (forall c d u, with_stamps d u (same c) = with_stamps d u c) ->
  tableKeyed t ->
  (lo <= n)%nat -> (n' <= hi)%nat ->
  stampAll items (mkTable [] (keygen t)) clock n = (Some t', n') ->
  replacedBy clock lo hi source t t'.
Proof.
  intros -> Hid Hst Hkeyed Hlo Hhi E.
  destruct (stampAll_spec _ _ _ _ _ _ E) as (Hn & Hg & _ & Hnew & Hall & _).
  cbn [rows keygen] in *.
  assert (Hsame : forall c r,
             storedAs clock n n' (keygen t) (same c) r ->
             storedAs clock lo hi (keygen t) c r).
  { intros c r (i & key & [Hi1 Hi2] & Hr & Hk).
    exists i, key. rewrite Hst in Hr. rewrite Hid in Hk.
    repeat split; [lia|lia|exact Hr|exact Hk]. }
  repeat split.
  - intros c Hc. destruct (Hall (same c)) as (r & Hr & G);
      [apply in_map; exact Hc|].
    exists r. split; [exact Hr|apply Hsame; exact G].
  - intros r Hr. destruct (Hnew r Hr) as [[]|(o & Ho & G)].
    apply in_map_iff in Ho. destruct Ho as (c & <- & Hc).
    exists c. split; [exact Hc|apply Hsame; exact G].
  - intros k Hk Hnone.
    destruct (hasKey k (rows t')) eqn:Hk'; [exfalso|reflexivity].
    apply hasKey_true in Hk. destruct Hk as (r0 & Hr0 & Hid0).
    destruct (Hkeyed r0 Hr0) as (k0 & Hk0 & Hlt). assert (k0 = k) as -> by congruence.
    apply hasKey_true in Hk'. destruct Hk' as (r & Hr & Hidr).
    destruct (Hnew r Hr) as [[]|(o & Ho & (i & key & _ & -> & Hkey))].
    rewrite id_with_id in Hidr. injection Hidr as ->.
    apply in_map_iff in Ho. destruct Ho as (c & <- & Hc).
    rewrite Hid in Hkey. destruct (row_id c) as [kc|] eqn:Hkc.
    + subst kc. exact (Hnone c Hc Hkc).
    + lia.
Qed.

End TableFacts.

Lemma itemsToImport_stats (ss : list Stat.t) (es : list Entry.t) (x : string) :
  itemsToImport Date_parse "stats" statOfJSON
    (JObj [("stats", JArr (map statToJSON ss));
           ("entries", JArr (map entryToJSON es));
           ("exportedAt", JStr x)]) =
  Ok (map (fun s => rehydrate Date_parse (wireStat s)) ss).
Proof.
  unfold itemsToImport, arrayToImport. cbn [lookup String.eqb Ascii.eqb Bool.eqb].
  destruct ss as [|s r]; [reflexivity|].
  cbn [map]. unfold typed. rewrite <- (map_cons statToJSON s r).
  rewrite (allOf_map statOfJSON statToJSON wireStat _ statOfJSON_statToJSON).
  rewrite map_map. reflexivity.
Qed.

Lemma itemsToImport_entries (ss : list Stat.t) (es : list Entry.t) (x : string) :
  itemsToImport Date_parse "entries" entryOfJSON
    (JObj [("stats", JArr (map statToJSON ss));
           ("entries", JArr (map entryToJSON es));
           ("exportedAt", JStr x)]) =
  Ok (map (fun e => rehydrate Date_parse (wireEntry e)) es).
Proof.
  unfold itemsToImport, arrayToImport. cbn [lookup String.eqb Ascii.eqb Bool.eqb].
  destruct es as [|e r]; [reflexivity|].
  cbn [map]. unfold typed. rewrite <- (map_cons entryToJSON e r).
  rewrite (allOf_map entryOfJSON entryToJSON wireEntry _ entryOfJSON_entryToJSON).
  rewrite map_map. reflexivity.
Qed.

Lemma updateSettings_inv (changes : Settings.partial) (w w' : World) :
  updateSettings changes w = (Ok tt, w') ->
  (exists stamp, settingsRow w' = settingsAfter changes stamp (settingsRow w)) /\
  statsT w' = statsT w /\ entriesT w' = entriesT w /\ drive w' = drive w /\
  clock w' = clock w /\ (reads w <= reads w')%nat.
Proof.
  intros E. destruct w as [st en se dr fr cr cl rd fa ca lg].
  unfold updateSettings, settingsAfter in *.
  answered E. destruct se as [s|]; [destruct (Settings.id s) eqn:Hid|];
    answered E; injection E as <-; cbn; rewrite ?Hid.
  all: split; [first [eexists; reflexivity|exists 0; reflexivity]|repeat split; lia].
Qed.

Lemma transaction_throws {A : Type} (body : M A) (w : World) (e : exn) (w' : World) :
  transaction body w = (Throw e, w') ->
  statsT w' = statsT w /\ entriesT w' = entriesT w.
Proof.
  unfold transaction, await_io.
  destruct (fault w (calls w)).
  - intros E. injection E as _ <-. split; reflexivity.
  - destruct (body _) as [[a|e'] w2].
    + destruct (fault w2 (calls w2)); [|discriminate].
      intros E. injection E as _ <-. split; reflexivity.
    + intros E. injection E as _ <-. split; reflexivity.
Qed.

(** An import that fails leaves both tables as they were. *)
Lemma importData_atomic (text : Text) (w : World) (e : exn) (w' : World) :
  importData Date_parse text w = (Throw e, w') ->
  statsT w' = statsT w /\ entriesT w' = entriesT w.
Proof.
  unfold importData. destruct text as [|data].
  - intros E. injection E as _ <-. split; reflexivity.
  - unfold bind at 1, JSON_parse, ret at 1. unfold bind at 1.
    match goal with
    | |- context [transaction ?body w] =>
        destruct (transaction body w) as [[[]|e'] w1] eqn:E1
    end.
    + discriminate.
    + intros E. injection E as _ <-. exact (transaction_throws _ _ _ _ E1).
Qed.

(** C4. A conflict resolved with [use-cloud] replaces the local dataset by
    the stats and entries of the cloud backup file: the tables are
    emptied and filled again in one transaction (a failing import leaves
    them untouched), every cloud record is stored under its own
    identifier, every record whose identifier the cloud dataset does not
    have is gone, and the watermark is the remote checksum. The store is
    one that has been initialised: it has its settings row and its rows
    carry their keys. *)
Theorem use_cloud_replaces_local (tok : string) (fid : FileId)
    (local cloud : BackupFile) (w : World) :
  tableKeyed (statsT w) -> tableKeyed (entriesT w) ->
  settingsRow w <> None -> settingsKeyed w ->
  (forall r w',
      resolveConflict Date_parse tok fid local cloud UseCloud w = (Ok r, w') ->
      r = mkResult StSuccess "Cloud data restored to device" None None /\
      replacedBy (clock w) (reads w) (reads w')
                 (stats (data cloud)) (statsT w) (statsT w') /\
      replacedBy (clock w) (reads w) (reads w')
                 (entries (data cloud)) (entriesT w) (entriesT w') /\
      watermark w' = Some (checksum (metadata cloud))) /\
  (forall e w',
      importData Date_parse
        (importText (stats (data cloud)) (entries (data cloud))
                    (exportedAt (metadata cloud))) w = (Throw e, w') ->
      statsT w' = statsT w /\ entriesT w' = entriesT w).
Proof.
  intros Hks Hke Hrow Hkeyed. split; [|intros e w'; apply importData_atomic].
  intros r w' E. cbn [resolveConflict] in E. unfold bind at 1 in E.
  destruct (importData _ _ w) as [[[]|e] w1] eqn:E1; [|discriminate].
  destruct (importData_inv _ _ _ E1)
    as (d & ss & es & n1 & Ht & Hss & Hes & S1 & S2 & Hcl & Hse & _).
  unfold importText in Ht. injection Ht as <-.
  rewrite itemsToImport_stats in Hss. rewrite itemsToImport_entries in Hes.
  injection Hss as <-. injection Hes as <-.
  unfold bind at 1, newDate at 1 in E. unfold bind in E.
  destruct (updateSettings _ _) as [[[]|e] w2] eqn:E2; [|discriminate].
  unfold ret in E. injection E as <- <-.
  destruct (updateSettings_inv _ _ _ E2) as ([stamp Hs] & Hst & Hen & _ & _ & Hrd).
  cbn [settingsRow statsT entriesT reads set_reads] in Hs, Hst, Hen, Hrd.
  destruct (stampAll_spec _ _ _ _ _ _ S1) as (Hn1 & _).
  destruct (stampAll_spec _ _ _ _ _ _ S2) as (Hn2 & _).
  split; [reflexivity|]. rewrite Hst, Hen. split; [|split].
  - apply (stampAll_replaces (clock w)
             (map (fun s => rehydrate Date_parse (wireStat s)) (stats (data cloud)))
             (stats (data cloud))
             (fun s => rehydrate Date_parse (wireStat s))
             (statsT w) (statsT w1) (reads w) n1 (reads w) (reads w2));
      try reflexivity; try assumption; lia.
  - apply (stampAll_replaces (clock w)
             (map (fun e => rehydrate Date_parse (wireEntry e)) (entries (data cloud)))
             (entries (data cloud))
             (fun e => rehydrate Date_parse (wireEntry e))
             (entriesT w) (entriesT w1) n1 (reads w1) (reads w) (reads w2));
      try reflexivity; try assumption; lia.
  - unfold watermark. rewrite Hs, Hse. unfold settingsAfter.
    destruct (settingsRow w) as [s|] eqn:Hw; [|contradiction].
    destruct (Settings.id s) eqn:Hid; [reflexivity|].
    exfalso. exact (Hkeyed s Hw Hid).
Qed.

(** C2 (as amended). mergeData returns, for the stats and for the entries,
    a union of the two collections in which no identifier occurs twice:
    every record kept comes from one of the two collections, every
    identifier of either collection is kept, and where both have one record
    with an identifier the local record is kept if its updatedAt is
    strictly later and the cloud record otherwise (so also on a tie). The
    records that take part are those whose identifier is truthy: a record
    without an identifier, and a record whose identifier is 0, is left
    out. *)
Theorem mergeData_union (now : Z) (local cloud : BackupFile) :
  mergeSpec Date_parse (stats (data local)) (stats (data cloud))
            (stats (data (mergeData Date_parse now local cloud))) /\
  mergeSpec Date_parse (entries (data local)) (entries (data cloud))
            (entries (data (mergeData Date_parse now local cloud))).
Proof. split; apply mergeRecords_spec. Qed.

(** *** Manual export and import *)

Lemma hasKey_insert {A : Type} `{RowLaws A} (k k' : Z) (obj : A) (l : list A) :
  row_id obj = Some k -> k' <> k -> hasKey k' l = false ->
  hasKey k' (insertByKey k obj l) = false.
Proof.
  intros Hobj Hk Hl.
  destruct (hasKey k' (insertByKey k obj l)) eqn:E; [exfalso|reflexivity].
  apply hasKey_true in E. destruct E as (r & Hr & Hid).
  apply insertByKey_In in Hr. destruct Hr as [->|Hr].
  - congruence.
  - assert (G : hasKey k' l = true) by (apply hasKey_true; exists r; split; assumption).
    congruence.
Qed.

(** Records that all have a key, no key twice and none already in the
    table, are all added. *)
Lemma stampAll_succeeds {A : Type} `{RowLaws A} (clock : nat -> Z) (items : list A) :
  forall (t : Table A) (n : nat),
    (forall o, In o items -> exists k, row_id o = Some k /\ hasKey k (rows t) = false) ->
    NoDup (map row_id items) ->
    exists t' n', stampAll items t clock n = (Some t', n').
Proof.
  induction items as [|o rest IH]; intros t n Hall Hnd; cbn [stampAll].
  - eexists _, _. reflexivity.
  - destruct (Hall o (or_introl eq_refl)) as (k & Hk & Hfree).
    unfold tableAdd. rewrite id_with_stamps, Hk, Hfree.
    inversion Hnd as [|x xs Hnin Hnd']; subst.
    apply IH; [|exact Hnd'].
    intros o' Ho'. destruct (Hall o' (or_intror Ho')) as (k' & Hk' & Hfree').
    exists k'. split; [exact Hk'|]. cbn [rows].
    apply hasKey_insert; [apply id_with_id| |exact Hfree'].
    intros ->. apply Hnin. rewrite Hk, <- Hk'. apply in_map. exact Ho'.
Qed.

(** importData in a world whose awaited calls succeed: it returns as soon
    as the text parses and no key is refused. *)
Lemma importData_quiet (data : json) (ss : list Stat.t) (es : list Entry.t)
    (ts : Table Stat.t) (te : Table Entry.t) (n1 n2 : nat) (w : World) :
  quiet w ->
  itemsToImport Date_parse "stats" statOfJSON data = Ok ss ->
  itemsToImport Date_parse "entries" entryOfJSON data = Ok es ->
  stampAll ss (mkTable [] (keygen (statsT w))) (clock w) (reads w) = (Some ts, n1) ->
  stampAll es (mkTable [] (keygen (entriesT w))) (clock w) n1 = (Some te, n2) ->
  exists w',
    importData Date_parse (TextOf data) w = (Ok tt, w') /\
    statsT w' = ts /\ entriesT w' = te /\ reads w' = n2 /\
    settingsRow w' = settingsRow w /\ drive w' = drive w.
Proof.
  intros Hq Hss Hes S1 S2. destruct w as [st en se dr fr cr cl rd fa ca lg].
  unfold quiet in Hq. cbn in Hq, S1, S2.
  unfold itemsToImport in Hss, Hes. unfold importData.
  repeat (step Hq; cbv [clear bulkAdd transaction rollback JSON_parse importTable lift]).
  destruct (arrayToImport "stats" data) as [[l1|]|e1]; [| |discriminate Hss].
  - destruct (typed statOfJSON l1) as [ss'|e]; [|discriminate Hss].
    injection Hss as <-.
    repeat (step Hq; cbv [clear bulkAdd transaction rollback JSON_parse importTable lift]).
    rewrite addEach_stampAll. cbn [clock reads set_reads]. rewrite S1. cbn [fst snd].
    repeat (step Hq; cbv [clear bulkAdd transaction rollback JSON_parse importTable lift]).
    destruct (arrayToImport "entries" data) as [[l2|]|e2]; [| |discriminate Hes].
    + destruct (typed entryOfJSON l2) as [es'|e]; [|discriminate Hes].
      injection Hes as <-.
      repeat (step Hq; cbv [clear bulkAdd transaction rollback JSON_parse importTable lift]).
      rewrite addEach_stampAll. cbn [clock reads set_reads]. rewrite S2. cbn [fst snd].
      repeat (step Hq; cbv [clear bulkAdd transaction rollback JSON_parse importTable lift]).
      eexists. repeat split.
    + injection Hes as <-. cbn in S2. injection S2 as <- <-.
      repeat (step Hq; cbv [clear bulkAdd transaction rollback JSON_parse importTable lift]).
      eexists. repeat split.
  - injection Hss as <-. cbn in S1. injection S1 as <- <-.
    repeat (step Hq; cbv [clear bulkAdd transaction rollback JSON_parse importTable lift]).
    destruct (arrayToImport "entries" data) as [[l2|]|e2]; [| |discriminate Hes].
    + destruct (typed entryOfJSON l2) as [es'|e]; [|discriminate Hes].
      injection Hes as <-.
      repeat (step Hq; cbv [clear bulkAdd transaction rollback JSON_parse importTable lift]).
      rewrite addEach_stampAll. cbn [clock reads set_reads]. rewrite S2. cbn [fst snd].
      repeat (step Hq; cbv [clear bulkAdd transaction rollback JSON_parse importTable lift]).
      eexists. repeat split.
    + injection Hes as <-. cbn in S2. injection S2 as <- <-.
      repeat (step Hq; cbv [clear bulkAdd transaction rollback JSON_parse importTable lift]).
      eexists. repeat split.
Qed.

Lemma exportData_inv (w : World) (text : Text) (w' : World) :
  exportData w = (Ok text, w') ->
  text = TextOf (JObj [("stats", JArr (map statToJSON (rows (statsT w))));
                       ("entries", JArr (map entryToJSON (rows (entriesT w))));
                       ("exportedAt", JStr (toISOString (clock w (reads w))))]) /\
  statsT w' = statsT w /\ entriesT w' = entriesT w /\ clock w' = clock w /\
  reads w' = S (reads w) /\ fault w' = fault w.
Proof.
  intros E. destruct w as [st en se dr fr cr cl rd fa ca lg].
  unfold exportData in E. answered E. injection E as <- <-. repeat split.
Qed.

Lemma ids_rehydrated_stats (l : list Stat.t) :
  map row_id (map (fun s => rehydrate Date_parse (wireStat s)) l) = map row_id l.
Proof. rewrite map_map. apply map_ext. reflexivity. Qed.

Lemma ids_rehydrated_entries (l : list Entry.t) :
  map row_id (map (fun e => rehydrate Date_parse (wireEntry e)) l) = map row_id l.
Proof. rewrite map_map. apply map_ext. reflexivity. Qed.

Lemma stampAll_again {A : Type} `{RowLaws A} (clock : nat -> Z) (same : A -> A)
    (t : Table A) (n : nat) :
  (forall c, row_id (same c) = row_id c) ->
  tableKeyed t -> tableUnique t ->
  exists t' n', stampAll (map same (rows t)) (mkTable [] (keygen t)) clock n = (Some t', n').
Proof.
  intros Hid Hk Hu. apply stampAll_succeeds.
  - intros o Ho. apply in_map_iff in Ho. destruct Ho as (c & <- & Hc).
    destruct (Hk c Hc) as (k & Hck & _). exists k. rewrite Hid. split; [exact Hck|reflexivity].
  - rewrite map_map. rewrite (map_ext _ row_id Hid). exact Hu.
Qed.

(** C9 (as amended). Manual export writes, and manual import reads, a flat
    object with the members stats, entries and exportedAt; it has no
    metadata member, no data member and no checksum. Import takes back what
    export wrote. A text that is not JSON is refused, and the user is told
    that the file format is invalid; a JSON object is not checked for its
    shape: the envelope of the sync backup file is accepted, and as its
    top level has neither stats nor entries the store is left empty. No
    checksum is verified: import reads the members stats and entries and
    nothing else. *)
Theorem export_import_flat_shape :
  (forall w text w',
      exportData w = (Ok text, w') ->
      exists x,
        text = TextOf (JObj [("stats", JArr (map statToJSON (rows (statsT w))));
                             ("entries", JArr (map entryToJSON (rows (entriesT w))));
                             ("exportedAt", JStr x)])) /\
  (forall w text w1,
      quiet w ->
      tableKeyed (statsT w) -> tableUnique (statsT w) ->
      tableKeyed (entriesT w) -> tableUnique (entriesT w) ->
      exportData w = (Ok text, w1) ->
      exists w2,
        handleImportFile Date_parse text w1 = ("", w2) /\
        replacedBy (clock w) (reads w) (reads w2)
                   (rows (statsT w)) (statsT w) (statsT w2) /\
        replacedBy (clock w) (reads w) (reads w2)
                   (rows (entriesT w)) (entriesT w) (entriesT w2)) /\
  (forall w,
      handleImportFile Date_parse NotJSON w =
      ("failed to import: invalid file format", w)) /\
  (forall b w,
      quiet w ->
      exists w',
        handleImportFile Date_parse (TextOf (backupToJSON b)) w = ("", w') /\
        rows (statsT w') = [] /\ rows (entriesT w') = []) /\
  (forall m m' w,
      lookup "stats" m = lookup "stats" m' ->
      lookup "entries" m = lookup "entries" m' ->
      let '(r, w1) := importData Date_parse (TextOf (JObj m)) w in
      let '(r', w1') := importData Date_parse (TextOf (JObj m')) w in
      r = r' /\ statsT w1 = statsT w1' /\ entriesT w1 = entriesT w1').
Proof.
  split; [|split; [|split; [|split]]].
  - intros w text w' E. destruct (exportData_inv _ _ _ E) as (-> & _).
    eexists. reflexivity.
  - intros w text w1 Hq Hks Hus Hke Hue E.
    destruct (exportData_inv _ _ _ E) as (-> & Hst & Hen & Hcl & Hrd & Hfa).
    destruct (stampAll_again (clock w) (fun s => rehydrate Date_parse (wireStat s))
                (statsT w) (reads w1)) as (ts & n1 & S1);
      [reflexivity|exact Hks|exact Hus|].
    destruct (stampAll_again (clock w) (fun e => rehydrate Date_parse (wireEntry e))
                (entriesT w) n1) as (te & n2 & S2);
      [reflexivity|exact Hke|exact Hue|].
    destruct (importData_quiet
                (JObj [("stats", JArr (map statToJSON (rows (statsT w))));
                       ("entries", JArr (map entryToJSON (rows (entriesT w))));
                       ("exportedAt", JStr (toISOString (clock w (reads w))))])
                (map (fun s => rehydrate Date_parse (wireStat s)) (rows (statsT w)))
                (map (fun e => rehydrate Date_parse (wireEntry e)) (rows (entriesT w)))
                ts te n1 n2 w1) as (w2 & E2 & T1 & T2 & R2 & _).
    + intros n. rewrite Hfa. apply Hq.
    + apply itemsToImport_stats.
    + apply itemsToImport_entries.
    + rewrite Hst, Hcl. exact S1.
    + rewrite Hen, Hcl. exact S2.
    + exists w2. unfold handleImportFile. rewrite E2. split; [reflexivity|].
      destruct (stampAll_spec _ _ _ _ _ _ S1) as (Hn1 & _).
      destruct (stampAll_spec _ _ _ _ _ _ S2) as (Hn2 & _).
      rewrite T1, T2, R2. split.
      * apply (stampAll_replaces (clock w)
                 (map (fun s => rehydrate Date_parse (wireStat s)) (rows (statsT w)))
                 (rows (statsT w)) (fun s => rehydrate Date_parse (wireStat s))
                 (statsT w) ts (reads w1) n1 (reads w) n2);
          try reflexivity; try assumption; lia.
      * apply (stampAll_replaces (clock w)
                 (map (fun e => rehydrate Date_parse (wireEntry e)) (rows (entriesT w)))
                 (rows (entriesT w)) (fun e => rehydrate Date_parse (wireEntry e))
                 (entriesT w) te n1 n2 (reads w) n2);
          try reflexivity; try assumption; lia.
  - intros w. reflexivity.
  - intros b w Hq.
    destruct (importData_quiet (backupToJSON b) [] []
                (mkTable [] (keygen (statsT w))) (mkTable [] (keygen (entriesT w)))
                (reads w) (reads w) w Hq eq_refl eq_refl eq_refl eq_refl)
      as (w' & E & T1 & T2 & _).
    exists w'. unfold handleImportFile. rewrite E, T1, T2. repeat split.
  - intros m m' w Hs He.
    assert (Is : importTable Date_parse statsRef "stats" statOfJSON (JObj m) =
                 importTable Date_parse statsRef "stats" statOfJSON (JObj m'))
      by (unfold importTable, arrayToImport; rewrite Hs; reflexivity).
    assert (Ie : importTable Date_parse entriesRef "entries" entryOfJSON (JObj m) =
                 importTable Date_parse entriesRef "entries" entryOfJSON (JObj m'))
      by (unfold importTable, arrayToImport; rewrite He; reflexivity).
    unfold importData, JSON_parse. cbv [bind ret]. rewrite Is, Ie.
    match goal with
    | |- context [transaction ?body w] =>
        destruct (transaction body w) as [[[]|e] w1]
    end; cbn; repeat split.
Qed.

(** *** What an import stores *)

Lemma insertByKey_length {A : Type} `{Row A} (k : Z) (obj : A) (l : list A) :
  List.length (insertByKey k obj l) = S (List.length l).
Proof.
  induction l as [|r rest IH]; cbn [insertByKey List.length]; [reflexivity|].
  destruct (row_id r) as [k'|]; [destruct (k <? k')|]; cbn [List.length];
    rewrite ?IH; reflexivity.
Qed.

(** Every record that bulkAdd is given becomes one row. *)
Lemma stampAll_length {A : Type} `{Row A} (clock : nat -> Z) (items : list A) :
  forall (t : Table A) (n : nat) (t' : Table A) (n' : nat),
    stampAll items t clock n = (Some t', n') ->
    List.length (rows t') = (List.length (rows t) + List.length items)%nat.
Proof.
  induction items as [|obj rest IH]; intros t n t' n' E; cbn [stampAll] in E.
  - injection E as <- <-. cbn [List.length]. lia.
  - destruct (tableAdd _ t) as [t1|] eqn:Ht; [|discriminate].
    rewrite (IH _ _ _ _ E). unfold tableAdd in Ht.
    destruct (hasKey _ (rows t)); [discriminate|]. injection Ht as <-.
    cbn [rows List.length]. rewrite insertByKey_length. lia.
Qed.

(** C10. Whatever text importData is given, when it returns every record
    of both tables has as createdAt and as updatedAt two readings of the
    clock made during the import (the creating hook wrote them), not the
    dates of the text. And the records of the text are stored: given the
    text of a dataset, an import that returns leaves as many rows as the
    dataset has records, and every record of the dataset is in its table
    with its own fields, under its own identifier if it has one, and with
    the two readings of the clock in the place of its own dates. The
    import does return when no call rejects and the records carry
    identifiers that are pairwise different. So it is after a [use-cloud]
    resolution, and the checksum of the local dataset then need not be the
    watermark just recorded: on the example the cloud records, dated the
    first of January, are stored with the clock of the import, and the
    checksum is not the watermark. *)
Theorem import_stamps_with_clock :
  (forall (text : Text) (w w' : World),
      importData Date_parse text w = (Ok tt, w') ->
      (forall s, In s (rows (statsT w')) ->
         exists i, (reads w <= i /\ S i < reads w')%nat /\
                   Stat.createdAt s = DateObj (Some (clock w i)) /\
                   Stat.updatedAt s = DateObj (Some (clock w (S i)))) /\
      (forall e, In e (rows (entriesT w')) ->
         exists i, (reads w <= i /\ S i < reads w')%nat /\
                   Entry.createdAt e = DateObj (Some (clock w i)) /\
                   Entry.updatedAt e = DateObj (Some (clock w (S i))))) /\
  (forall (ss : list Stat.t) (es : list Entry.t) (x : string) (w w' : World),
      importData Date_parse (importText ss es x) w = (Ok tt, w') ->
      List.length (rows (statsT w')) = List.length ss /\
      List.length (rows (entriesT w')) = List.length es /\
      (forall c, In c ss ->
         exists i key,
           (reads w <= i /\ S i < reads w')%nat /\
           In (Stat.mk (Some key) (Stat.name c) (Stat.color c) (Stat.order c)
                       (DateObj (Some (clock w i))) (DateObj (Some (clock w (S i)))))
              (rows (statsT w')) /\
           (forall k, Stat.id c = Some k -> key = k)) /\
      (forall c, In c es ->
         exists i key,
           (reads w <= i /\ S i < reads w')%nat /\
           In (Entry.mk (Some key) (Entry.statId c) (Entry.value c) (Entry.date c)
                        (DateObj (Some (clock w i))) (DateObj (Some (clock w (S i)))))
              (rows (entriesT w')) /\
           (forall k, Entry.id c = Some k -> key = k))) /\
  (forall (ss : list Stat.t) (es : list Entry.t) (x : string) (w : World),
      quiet w ->
      (forall s, In s ss -> Stat.id s <> None) -> NoDup (map Stat.id ss) ->
      (forall e, In e es -> Entry.id e <> None) -> NoDup (map Entry.id es) ->
      exists w', importData Date_parse (importText ss es x) w = (Ok tt, w')) /\
  (let '(r, w') :=
     resolveConflict Date_parse "token" 7%positive
       (builtAt 0 (localData Example.conflicting)) Example.cloud UseCloud
       Example.conflicting in
   r = Ok (mkResult StSuccess "Cloud data restored to device" None None) /\
   watermark w' = Some (checksum (metadata Example.cloud)) /\
   stats (data Example.cloud) =
     [Stat.mk (Some 1) "mood" "#e07a5f" 0
              (DateStr Example.jan1) (DateStr Example.jan1)] /\
   rows (statsT w') =
     [Stat.mk (Some 1) "mood" "#e07a5f" 0
              (DateObj (Some (Example.clock 0))) (DateObj (Some (Example.clock 1)))] /\
   entries (data Example.cloud) =
     [Entry.mk (Some 1) 1 7 "2023-01-01"
               (DateStr Example.jan1) (DateStr Example.jan1)] /\
   rows (entriesT w') =
     [Entry.mk (Some 1) 1 7 "2023-01-01"
               (DateObj (Some (Example.clock 2))) (DateObj (Some (Example.clock 3)))] /\
   generateChecksum (localData w') <> checksum (metadata Example.cloud)).
Proof.
  split; [|split; [|split]].
  - intros text w w' E.
    destruct (importData_inv _ _ _ E)
      as (d & ss & es & n1 & _ & _ & _ & S1 & S2 & _).
    destruct (stampAll_spec _ _ _ _ _ _ S1) as (Hn1 & _ & _ & Hnew1 & _).
    destruct (stampAll_spec _ _ _ _ _ _ S2) as (Hn2 & _ & _ & Hnew2 & _).
    split.
    + intros s Hs. destruct (Hnew1 s Hs) as [[]|(o & _ & (i & key & Hi & -> & _))].
      exists i. split; [lia|split; reflexivity].
    + intros e He. destruct (Hnew2 e He) as [[]|(o & _ & (i & key & Hi & -> & _))].
      exists i. split; [lia|split; reflexivity].
  - intros ss es x w w' E.
    destruct (importData_inv _ _ _ E)
      as (d & ss' & es' & n1 & Ht & Hss & Hes & S1 & S2 & _).
    unfold importText in Ht. injection Ht as <-.
    rewrite itemsToImport_stats in Hss. rewrite itemsToImport_entries in Hes.
    injection Hss as <-. injection Hes as <-.
    pose proof (stampAll_length _ _ _ _ _ _ S1) as L1.
    pose proof (stampAll_length _ _ _ _ _ _ S2) as L2.
    rewrite length_map in L1, L2. cbn [rows List.length] in L1, L2.
    destruct (stampAll_spec _ _ _ _ _ _ S1) as (Hn1 & _ & _ & _ & Hall1 & _).
    destruct (stampAll_spec _ _ _ _ _ _ S2) as (Hn2 & _ & _ & _ & Hall2 & _).
    split; [exact L1|]. split; [exact L2|]. split.
    + intros c Hc.
      destruct (Hall1 (rehydrate Date_parse (wireStat c)))
        as (r & Hr & (i & key & Hi & -> & Hk));
        [apply in_map_iff; exists c; split; [reflexivity|exact Hc]|].
      exists i, key. split; [lia|]. split; [exact Hr|].
      intros k Hid. cbn in Hk. rewrite Hid in Hk. exact Hk.
    + intros c Hc.
      destruct (Hall2 (rehydrate Date_parse (wireEntry c)))
        as (r & Hr & (i & key & Hi & -> & Hk));
        [apply in_map_iff; exists c; split; [reflexivity|exact Hc]|].
      exists i, key. split; [lia|]. split; [exact Hr|].
      intros k Hid. cbn in Hk. rewrite Hid in Hk. exact Hk.
  - intros ss es x w Hq Hi1 Hn1 Hi2 Hn2.
    destruct (stampAll_succeeds (clock w)
                (map (fun s => rehydrate Date_parse (wireStat s)) ss)
                (mkTable [] (keygen (statsT w))) (reads w)) as (ts & n1 & S1).
    { intros o Ho. apply in_map_iff in Ho. destruct Ho as (c & <- & Hc).
      specialize (Hi1 c Hc). cbn. destruct (Stat.id c) as [k|]; [|contradiction].
      exists k. split; reflexivity. }
    { rewrite ids_rehydrated_stats. exact Hn1. }
    destruct (stampAll_succeeds (clock w)
                (map (fun e => rehydrate Date_parse (wireEntry e)) es)
                (mkTable [] (keygen (entriesT w))) n1) as (te & n2 & S2).
    { intros o Ho. apply in_map_iff in Ho. destruct Ho as (c & <- & Hc).
      specialize (Hi2 c Hc). cbn. destruct (Entry.id c) as [k|]; [|contradiction].
      exists k. split; reflexivity. }
    { rewrite ids_rehydrated_entries. exact Hn2. }
    destruct (importData_quiet _ _ _ ts te n1 n2 w Hq
                (itemsToImport_stats ss es x) (itemsToImport_entries ss es x) S1 S2)
      as (w' & E & _).
    exists w'. exact E.
  - vm_compute. repeat split. discriminate.
Qed.

(** *** The backup file through JSON *)

Lemma buildBackupFile_outcome (w : World) (b : BackupFile) (w1 : World) :
  buildBackupFile w = (Ok b, w1) ->
  b = builtAt (clock w (reads w)) (localData w).
Proof.
  destruct w as [st en se dr fr cr cl rd fa ca lg].
  unfold buildBackupFile, toArray, bind, await_io, getWorld, ret, newDate, localData, builtAt.
  cbn.
  destruct (fa ca); [discriminate|]. cbn.
  destruct (fa (S ca)); [discriminate|]. cbn.
  intros E. injection E as <- _. reflexivity.
Qed.

Lemma buildBackupFile_quiet (w : World) :
  quiet w -> exists b w1, buildBackupFile w = (Ok b, w1).
Proof.
  destruct w as [st en se dr fr cr cl rd fa ca lg].
  unfold quiet. cbn. intros Hq.
  unfold buildBackupFile, toArray, bind, await_io, getWorld, ret, newDate.
  cbn. rewrite !Hq. cbn. eexists _, _. reflexivity.
Qed.

Lemma downloadBackup_after_upload (tok tok' : string) (b : BackupFile)
    (existing : option FileId) (w : World) (fid : FileId) (w1 : World) :
  uploadBackup tok b existing w = (Ok fid, w1) ->
  fault w1 (calls w1) = None ->
  fst (downloadBackup tok' fid w1) = Ok (wireBackup b).
Proof.
  intros U Hf. destruct (uploadBackup_ok _ _ _ _ _ _ U) as (_ & _ & D).
  destruct w1 as [st en se dr fr cr cl rd fa ca lg]. cbn in D, Hf. subst dr.
  unfold downloadBackup, bind, emit, await_io, getWorld, ret.
  cbn -[backupOfJSON backupToJSON]. rewrite Hf.
  cbn -[backupOfJSON backupToJSON]. rewrite Pos.eqb_refl, backupOfJSON_backupToJSON.
  reflexivity.
Qed.

Section Rehydration.

Hypothesis parse_iso : forall t, validTime t -> Date_parse (toISOString t) = Some t.

Lemma newDateOf_wireDate (d : Date) :
  storedDate d -> newDateOf Date_parse (wireDate d) = d.
Proof.
  destruct d as [[t|]|s|]; cbn [storedDate]; try contradiction.
  intros Ht. unfold newDateOf, wireDate, timeValue.
  rewrite (parse_iso t Ht). reflexivity.
Qed.

Lemma rehydrate_wireStat (s : Stat.t) :
  stamped s -> rehydrate Date_parse (wireStat s) = s.
Proof.
  destruct s as [k n c o ca ua]. intros [Hc Hu]. cbn in Hc, Hu.
  unfold rehydrate, wireStat. cbn -[newDateOf wireDate].
  rewrite !newDateOf_wireDate by assumption. reflexivity.
Qed.

Lemma rehydrate_wireEntry (e : Entry.t) :
  stamped e -> rehydrate Date_parse (wireEntry e) = e.
Proof.
  destruct e as [k s v d ca ua]. intros [Hc Hu]. cbn in Hc, Hu.
  unfold rehydrate, wireEntry. cbn -[newDateOf wireDate].
  rewrite !newDateOf_wireDate by assumption. reflexivity.
Qed.

Lemma map_rehydrate_wire {A : Type} `{Row A} (wire : A -> A) (l : list A) :
  (forall x, stamped x -> rehydrate Date_parse (wire x) = x) ->
  Forall stamped l ->
  map (rehydrate Date_parse) (map wire l) = l.
Proof.
  intros Hx Hl. induction Hl as [|x r Hs _ IH]; cbn [map]; [reflexivity|].
  rewrite Hx by exact Hs. rewrite IH. reflexivity.
Qed.

End Rehydration.

(** C8. A backup file built from the store comes back from its JSON text
    (the body uploadBackup sends, read by downloadBackup) with the same
    metadata and the same records, their dates encoded as the ISO-8601
    strings of [toISOString]; re-hydrated with [new Date], as importData
    does on read, the records are those of the store again; and
    generateChecksum on the parsed data, as on the re-hydrated data, gives
    the checksum of the envelope. The store holds valid [Date] objects,
    and [Date.parse] reads the ISO format back. When no awaited call
    rejects a backup file is built. *)
Theorem backup_round_trip (w : World) :
  (forall t, validTime t -> Date_parse (toISOString t) = Some t) ->
  storedDates (localData w) ->
  (quiet w -> exists b w1, buildBackupFile w = (Ok b, w1)) /\
  forall b w1,
    buildBackupFile w = (Ok b, w1) ->
    exists parsed,
      backupOfJSON (backupToJSON b) = Some parsed /\
      (forall tok tok' existing w2 fid w3,
          uploadBackup tok b existing w2 = (Ok fid, w3) ->
          fault w3 (calls w3) = None ->
          fst (downloadBackup tok' fid w3) = Ok parsed) /\
      metadata parsed = metadata b /\
      stats (data parsed) = map wireStat (stats (data b)) /\
      entries (data parsed) = map wireEntry (entries (data b)) /\
      Forall (fun s => exists c u, Stat.createdAt s = DateStr (toISOString c) /\
                                   Stat.updatedAt s = DateStr (toISOString u))
             (stats (data parsed)) /\
      Forall (fun e => exists c u, Entry.createdAt e = DateStr (toISOString c) /\
                                   Entry.updatedAt e = DateStr (toISOString u))
             (entries (data parsed)) /\
      map (rehydrate Date_parse) (stats (data parsed)) = stats (data b) /\
      map (rehydrate Date_parse) (entries (data parsed)) = entries (data b) /\
      generateChecksum (data parsed) = checksum (metadata b) /\
      generateChecksum
        (mkDataset (map (rehydrate Date_parse) (stats (data parsed)))
                   (map (rehydrate Date_parse) (entries (data parsed))))
      = checksum (metadata b).
Proof.
  intros Hp [Hs He]. split; [apply buildBackupFile_quiet|].
  intros b w1 E. apply buildBackupFile_outcome in E.
  assert (Ed : data b = localData w) by (subst b; reflexivity).
  assert (Ec : checksum (metadata b) = generateChecksum (data b))
    by (subst b; reflexivity).
  rewrite <- Ed in Hs, He. clear E Ed.
  assert (Rs : map (rehydrate Date_parse) (map wireStat (stats (data b))) = stats (data b))
    by (apply map_rehydrate_wire; [intros x; apply rehydrate_wireStat; exact Hp|exact Hs]).
  assert (Re : map (rehydrate Date_parse) (map wireEntry (entries (data b)))
               = entries (data b))
    by (apply map_rehydrate_wire; [intros x; apply rehydrate_wireEntry; exact Hp|exact He]).
  exists (wireBackup b).
  split; [apply backupOfJSON_backupToJSON|].
  split; [intros tok tok' existing w2 fid w3 U F;
          exact (downloadBackup_after_upload tok tok' b existing w2 fid w3 U F)|].
  split; [reflexivity|]. split; [reflexivity|]. split; [reflexivity|].
  cbn [wireBackup data wireDataset stats entries].
  split.
  { apply Forall_forall. intros s Hin. apply in_map_iff in Hin.
    destruct Hin as (x & <- & Hx).
    destruct (proj1 (Forall_forall _ _) Hs x Hx) as [Hc Hu].
    destruct x as [k n c o [[tc|]|sc|] [[tu|]|su|]]; cbn in Hc, Hu; try contradiction.
    exists tc, tu. split; reflexivity. }
  split.
  { apply Forall_forall. intros e Hin. apply in_map_iff in Hin.
    destruct Hin as (x & <- & Hx).
    destruct (proj1 (Forall_forall _ _) He x Hx) as [Hc Hu].
    destruct x as [k s v d [[tc|]|sc|] [[tu|]|su|]]; cbn in Hc, Hu; try contradiction.
    exists tc, tu. split; reflexivity. }
  split; [exact Rs|]. split; [exact Re|].
  split.
  - rewrite Ec. apply (generateChecksum_wire (data b)).
  - rewrite Rs, Re, Ec. destruct (data b); reflexivity.
Qed.

End SyncProperties.


(** * The properties on the example *)

Lemma quiet_example (st : Table Stat.t) (en : Table Entry.t) (se : option Settings.t)
    (dr : option DriveFile) :
  quiet (Example.world st en se dr).
Proof. intros n. reflexivity. Qed.

(** C1 on the example: both sides changed, no resolution is given. *)
Lemma conflict_reported_witness :
  exists w',
    performSync isoParse "token" None Example.conflicting =
      (mkResult StConflict "Both local and cloud data have changed"
                (Some Example.cloud)
                (Some (builtAt (Example.clock 0) (localData Example.conflicting))), w') /\
    statsT w' = statsT Example.conflicting /\
    entriesT w' = entriesT Example.conflicting /\
    settingsRow w' = settingsRow Example.conflicting /\
    drive w' = drive Example.conflicting.
Proof.
  apply (proj1 (conflict_reported isoParse "token" Example.conflicting 7%positive
                  Example.cloud (quiet_example _ _ _ _)
                  ltac:(vm_compute; reflexivity)
                  ltac:(vm_compute; discriminate))).
  vm_compute. discriminate.
Defined.

(** C2: the claim as stated fails on a record whose identifier is 0. The
    cloud stat has an identifier, and the merge holds no stat at all. *)
Lemma merge_drops_identifier_zero :
  In Example.zeroStat (stats (data Example.cloudWithZero)) /\
  Stat.id Example.zeroStat <> None /\
  stats (data (mergeData isoParse 0 (builtAt 0 (mkDataset [] [])) Example.cloudWithZero)) = [].
Proof.
  split; [left; reflexivity|]. split; [discriminate|reflexivity].
Defined.

(** C2 on the example: the entry changed later on this device wins. *)
Lemma mergeData_union_witness :
  In Example.entryNew
     (entries (data (mergeData isoParse 0
                       (builtAt 0 (mkDataset [] [Example.entryNew]))
                       (builtAt 0 (mkDataset [] [Example.entryOld]))))).
Proof.
  destruct (mergeData_union isoParse 0
              (builtAt 0 (mkDataset [] [Example.entryNew]))
              (builtAt 0 (mkDataset [] [Example.entryOld]))) as [_ (_ & _ & _ & H)].
  apply (H 1 Example.entryNew Example.entryOld).
  - split; [left; reflexivity|]. split; [reflexivity|].
    intros y [<-|[]] _. reflexivity.
  - split; [left; reflexivity|]. split; [reflexivity|].
    intros y [<-|[]] _. reflexivity.
Defined.

(** C5: the claim as stated fails on the identifier of the remote file,
    which the run writes into the settings besides the last-sync-time. *)
Lemma no_changes_run_writes_file_id :
  let '(r, w') := performSync isoParse "token" None Example.inSync in
  status r = StNoChanges /\
  option_map Settings.driveFileId (settingsRow Example.inSync) = Some None /\
  option_map Settings.driveFileId (settingsRow w') = Some (Some 7%positive).
Proof. vm_compute. repeat split. Defined.

(** C5 (as amended) on the example. *)
Lemma no_changes_run_witness :
  exists w',
    performSync isoParse "token" None Example.inSync =
      (mkResult StNoChanges "Data is already in sync" None None, w') /\
    drive w' = drive Example.inSync /\
    watermark w' = watermark Example.inSync.
Proof.
  destruct (no_changes_run isoParse "token" None Example.inSync 7%positive
              (builtAt 0 (mkDataset [] [])) (quiet_example _ _ _ _) eq_refl eq_refl)
    as (w' & E & _ & D & _ & _ & W & _).
  exists w'. repeat split; assumption.
Defined.

(** C6 on the example: only this device changed. *)
Lemma local_change_uploaded_witness :
  exists w',
    performSync isoParse "token" None Example.localChanged =
      (mkResult StSuccess "Backup updated in Google Drive" None None, w') /\
    remoteBackup w' =
      Some (7%positive,
            wireBackup (builtAt (Example.clock 0) (localData Example.localChanged))) /\
    watermark w' = Some (generateChecksum (localData Example.localChanged)).
Proof.
  destruct (local_change_uploaded isoParse "token" None Example.localChanged 7%positive
              Example.cloud (quiet_example _ _ _ _)) as (w' & E & _ & R & W & C & _).
  - intros s E. injection E as <-. discriminate.
  - reflexivity.
  - vm_compute. discriminate.
  - reflexivity.
  - exists w'. repeat split; [exact E|exact R|rewrite W; f_equal; exact C].
Defined.

(** C7 on the example: an entry moved to another day keeps the checksum. *)
Lemma checksum_of_projections_witness :
  generateChecksum
    (mkDataset [] [Entry.mk (Some 1) 1 7 "2023-01-01" (DateStr Example.jan1)
                            (DateStr Example.jan1)]) =
  generateChecksum
    (mkDataset [] [Entry.mk (Some 1) 2 7 "2023-02-02" (DateStr Example.jan1)
                            (DateStr Example.jan1)]).
Proof.
  apply (proj1 checksum_of_projections); reflexivity.
Defined.

Lemma keyed_localStats : tableKeyed Example.localStats.
Proof. intros r [<-|[]]. exists 1. split; [reflexivity|reflexivity]. Qed.

Lemma keyed_localEntries : tableKeyed Example.localEntries.
Proof. intros r [<-|[]]. exists 5. split; [reflexivity|reflexivity]. Qed.

(** C4 on the example: the entry 5, which only this device has, is gone,
    and the watermark is the checksum of the cloud backup file. *)
Lemma use_cloud_replaces_local_witness :
  let w' :=
    snd (resolveConflict isoParse "token" 7%positive
           (builtAt 0 (localData Example.conflicting)) Example.cloud UseCloud
           Example.conflicting) in
  hasKey 5 (rows (entriesT Example.conflicting)) = true /\
  hasKey 5 (rows (entriesT w')) = false /\
  watermark w' = Some (checksum (metadata Example.cloud)).
Proof.
  assert (R : fst (resolveConflict isoParse "token" 7%positive
                     (builtAt 0 (localData Example.conflicting)) Example.cloud UseCloud
                     Example.conflicting) =
              Ok (mkResult StSuccess "Cloud data restored to device" None None))
    by (vm_compute; reflexivity).
  destruct (resolveConflict isoParse "token" 7%positive
              (builtAt 0 (localData Example.conflicting)) Example.cloud UseCloud
              Example.conflicting) as [r w'] eqn:E.
  cbn [fst snd] in *. subst r.
  destruct (use_cloud_replaces_local isoParse "token" 7%positive
              (builtAt 0 (localData Example.conflicting)) Example.cloud
              Example.conflicting keyed_localStats keyed_localEntries
              ltac:(discriminate)
              ltac:(intros s Es; injection Es as <-; discriminate)) as [H _].
  destruct (H _ _ E) as (_ & _ & (_ & _ & Gone) & Mark).
  split; [reflexivity|]. split; [|exact Mark].
  apply Gone; [reflexivity|]. intros c [<-|[]]. discriminate.
Defined.

(** C3 on the example: the conflict is resolved with [keep-local] and the
    upload is rejected; the run ends there, in [error] with the message
    of the rejection, and the watermark is as it was. *)
Lemma failures_reported_watermark_kept_witness :
  fst (performSync isoParse "token" (Some KeepLocal) (Example.rejectedAt 5))
  = mkResult StError "Failed to fetch" None None /\
  watermark (snd (performSync isoParse "token" (Some KeepLocal) (Example.rejectedAt 5)))
  = watermark (Example.rejectedAt 5) /\
  calls (snd (performSync isoParse "token" (Some KeepLocal) (Example.rejectedAt 5)))
  = 6%nat.
Proof.
  pose proof (failures_reported_watermark_kept isoParse "token" (Some KeepLocal)
                (Example.rejectedAt 5)) as T.
  assert (C : calls (snd (performSync isoParse "token" (Some KeepLocal)
                            (Example.rejectedAt 5))) = 6%nat)
    by (vm_compute; reflexivity).
  destruct (performSync isoParse "token" (Some KeepLocal) (Example.rejectedAt 5))
    as [r w'].
  cbn [fst snd] in *. destruct T as (_ & _ & _ & S & Wk & _).
  destruct (S 5%nat (ErrorObj "Failed to fetch")) as [-> Hc].
  - rewrite C. cbn. lia.
  - reflexivity.
  - split; [reflexivity|]. split; [apply Wk; reflexivity|exact Hc].
Defined.

(** C10 on the example: the import of the cloud dataset returns, and the
    stat of the cloud, dated the first of January, is the one row of its
    table, with two readings of the clock of the import as its dates. *)
Lemma import_stamps_with_clock_witness :
  exists w' i key,
    importData isoParse
      (importText (stats (data Example.cloud)) (entries (data Example.cloud))
                  Example.jan1)
      Example.conflicting = (Ok tt, w') /\
    List.length (rows (statsT w')) = 1%nat /\
    In (Stat.mk (Some key) "mood" "#e07a5f" 0
                (DateObj (Some (Example.clock i)))
                (DateObj (Some (Example.clock (S i)))))
       (rows (statsT w')).
Proof.
  destruct (import_stamps_with_clock isoParse) as (_ & Stored & Returns & _).
  destruct (Returns (stats (data Example.cloud)) (entries (data Example.cloud))
              Example.jan1 Example.conflicting (quiet_example _ _ _ _))
    as (w' & E).
  - intros s [<-|[]]. discriminate.
  - repeat constructor. intros [].
  - intros e [<-|[]]. discriminate.
  - repeat constructor. intros [].
  - destruct (Stored _ _ _ _ _ E) as (L1 & _ & Hs & _).
    destruct (Hs _ (or_introl eq_refl)) as (i & key & _ & Hin & _).
    exists w', i, key. split; [exact E|]. split; [exact L1|exact Hin].
Defined.

(** C9: the claim as stated fails on the shape. What export writes has the
    members stats, entries and exportedAt, the sync backup file has
    metadata and data; and import, given the sync envelope, reports no
    format error and leaves the store empty, though the envelope holds a
    stat and an entry. *)
Lemma export_is_not_the_sync_envelope :
  match fst (exportData Example.conflicting) with
  | Ok (TextOf j) => keys j = ["stats"; "entries"; "exportedAt"]
  | _ => False
  end /\
  keys (backupToJSON (builtAt 0 (localData Example.conflicting))) = ["metadata"; "data"] /\
  (let '(msg, w') :=
     handleImportFile isoParse (TextOf (backupToJSON Example.cloud)) Example.conflicting in
   msg = "" /\ rows (statsT w') = [] /\ rows (entriesT w') = [] /\
   List.length (stats (data Example.cloud)) = 1%nat /\
   List.length (entries (data Example.cloud)) = 1%nat).
Proof. vm_compute. repeat split. Defined.

Lemma unique_localStats : tableUnique Example.localStats.
Proof. repeat constructor. intros []. Qed.

Lemma unique_localEntries : tableUnique Example.localEntries.
Proof. repeat constructor. intros []. Qed.

(** C9 (as amended) on the example: import takes back what export wrote. *)
Lemma export_import_flat_shape_witness :
  match exportData Example.conflicting with
  | (Ok text, w1) => fst (handleImportFile isoParse text w1) = ""
  | (Throw _, _) => False
  end.
Proof.
  assert (R : match fst (exportData Example.conflicting) with
              | Ok _ => True
              | Throw _ => False
              end) by (vm_compute; exact I).
  destruct (exportData Example.conflicting) as [[text|e] w1] eqn:E;
    cbn [fst] in R; [|exact R].
  pose proof (export_import_flat_shape isoParse) as (_ & T & _).
  destruct (T _ _ _ (quiet_example _ _ _ _) keyed_localStats unique_localStats
              keyed_localEntries unique_localEntries E) as (w2 & H & _).
  rewrite H. reflexivity.
Defined.

Lemma storedDates_example : storedDates (localData Example.conflicting).
Proof.
  split; (constructor; [|constructor]); split; cbn; unfold validTime; lia.
Qed.

(** C8 on the example: the backup file of the device goes through JSON
    and [Date.parse] as specified by the language. *)
Lemma backup_round_trip_witness :
  match buildBackupFile Example.conflicting with
  | (Ok b, _) =>
      exists parsed,
        backupOfJSON (backupToJSON b) = Some parsed /\
        map (rehydrate isoParse) (stats (data parsed)) = stats (data b) /\
        map (rehydrate isoParse) (entries (data parsed)) = entries (data b) /\
        generateChecksum (data parsed) = checksum (metadata b)
  | (Throw _, _) => False
  end.
Proof.
  assert (R : match fst (buildBackupFile Example.conflicting) with
              | Ok _ => True
              | Throw _ => False
              end) by (vm_compute; exact I).
  destruct (buildBackupFile Example.conflicting) as [[b|e] w1] eqn:E;
    cbn [fst] in R; [|exact R].
  destruct (backup_round_trip isoParse Example.conflicting isoParse_toISOString
              storedDates_example) as [_ T].
  destruct (T b w1 E) as (parsed & P & _ & _ & _ & _ & _ & _ & Rs & Re & C & _).
  exists parsed. repeat split; assumption.
Defined.

(** * Further properties: the rest of the application *)

(** ** The sync service *)
(** * What a computation leaves alone *)

Section Frames.

Context {X : Type} (f : World -> X).

Lemma keeps_ret {A : Type} (a : A) : keeps f (ret a).
Proof. intros w r w' E. injection E as _ <-. reflexivity. Qed.

Lemma keeps_throw {A : Type} (e : exn) : keeps f (@throw A e).
Proof. intros w r w' E. injection E as _ <-. reflexivity. Qed.

Lemma keeps_lift {A : Type} (x : Result A) : keeps f (lift x).
Proof. intros w r w' E. injection E as _ <-. reflexivity. Qed.

Lemma keeps_getWorld : keeps f getWorld.
Proof. intros w r w' E. injection E as _ <-. reflexivity. Qed.

Lemma keeps_bind {A B : Type} (m : M A) (k : A -> M B) :
  keeps f m -> (forall a, keeps f (k a)) -> keeps f (bind m k).
Proof.
  intros Hm Hk w r w' E. unfold bind in E.
  destruct (m w) as [[a|e] w1] eqn:E1.
  - rewrite (Hk a _ _ _ E). exact (Hm _ _ _ E1).
  - injection E as _ <-. exact (Hm _ _ _ E1).
Qed.

Hypothesis free : bookkeepingFree f.

Lemma keeps_await_io : keeps f await_io.
Proof.
  destruct free as (Hc & _). intros w r w' E. unfold await_io in E.
  destruct (fault w (calls w)); injection E as _ <-; apply Hc.
Qed.

Lemma keeps_newDate : keeps f newDate.
Proof.
  destruct free as (_ & Hr & _). intros w r w' E. injection E as _ <-. apply Hr.
Qed.

Lemma keeps_emit (ev : Event) : keeps f (emit ev).
Proof.
  destruct free as (_ & _ & _ & Hl). intros w r w' E. injection E as _ <-. apply Hl.
Qed.

Lemma keeps_takeFreshId : keeps f takeFreshId.
Proof.
  destruct free as (_ & _ & Hc & _). intros w r w' E. injection E as _ <-. apply Hc.
Qed.

Lemma keeps_toArray {A : Type} (tbl : TableRef A) : keeps f (toArray tbl).
Proof.
  unfold toArray. apply keeps_bind; [exact keeps_await_io|intros _].
  apply keeps_bind; [exact keeps_getWorld|intros w]. apply keeps_ret.
Qed.

Lemma keeps_getSettings : keeps f getSettings.
Proof.
  unfold getSettings. apply keeps_bind; [exact keeps_await_io|intros _].
  apply keeps_bind; [exact keeps_getWorld|intros w]. apply keeps_ret.
Qed.

Lemma keeps_buildBackupFile : keeps f buildBackupFile.
Proof.
  unfold buildBackupFile. apply keeps_bind; [apply keeps_toArray|intros ss].
  apply keeps_bind; [apply keeps_toArray|intros es].
  apply keeps_bind; [exact keeps_newDate|intros now]. apply keeps_ret.
Qed.

Lemma keeps_findBackupFile (tok : string) : keeps f (findBackupFile tok).
Proof.
  unfold findBackupFile, listAppDataFiles.
  apply keeps_bind; [|intros files; apply keeps_ret].
  apply keeps_bind; [apply keeps_emit|intros _].
  apply keeps_bind; [exact keeps_await_io|intros _].
  apply keeps_bind; [exact keeps_getWorld|intros w]. apply keeps_ret.
Qed.

Lemma keeps_downloadBackup (tok : string) (fid : FileId) : keeps f (downloadBackup tok fid).
Proof.
  unfold downloadBackup.
  apply keeps_bind; [apply keeps_emit|intros _].
  apply keeps_bind; [exact keeps_await_io|intros _].
  apply keeps_bind; [exact keeps_getWorld|intros w].
  destruct (drive w) as [d|]; [|apply keeps_throw].
  destruct (Pos.eqb (fileId d) fid); [|apply keeps_throw].
  destruct (backupOfJSON (body d)); [apply keeps_ret|apply keeps_throw].
Qed.

Lemma keeps_putDrive (d : DriveFile) : driveFree f -> keeps f (putDrive d).
Proof. intros Hd w r w' E. injection E as _ <-. apply Hd. Qed.

Lemma keeps_uploadBackup (tok : string) (b : BackupFile) (existing : option FileId) :
  driveFree f -> keeps f (uploadBackup tok b existing).
Proof.
  intros Hd. unfold uploadBackup.
  apply keeps_bind; [apply keeps_emit|intros _].
  apply keeps_bind; [exact keeps_await_io|intros _].
  apply keeps_bind; [exact keeps_getWorld|intros w].
  destruct existing as [fid|].
  - destruct (drive w) as [d|]; [|apply keeps_throw].
    destruct (Pos.eqb (fileId d) fid); [|apply keeps_throw].
    apply keeps_bind; [apply keeps_putDrive; exact Hd|intros _].
    apply keeps_bind; [apply keeps_emit|intros _]. apply keeps_ret.
  - apply keeps_bind; [exact keeps_takeFreshId|intros fid].
    apply keeps_bind; [apply keeps_putDrive; exact Hd|intros _].
    apply keeps_bind; [apply keeps_emit|intros _]. apply keeps_ret.
Qed.

Lemma keeps_updateSettings (changes : Settings.partial) :
  settingsFree f -> keeps f (updateSettings changes).
Proof.
  intros Hs. unfold updateSettings.
  apply keeps_bind; [exact keeps_await_io|intros _].
  apply keeps_bind; [exact keeps_getWorld|intros w].
  destruct (settingsRow w) as [s|]; [|apply keeps_ret].
  destruct (Settings.id s); [|apply keeps_ret].
  apply keeps_bind; [exact keeps_await_io|intros _].
  apply keeps_bind; [exact keeps_newDate|intros now].
  apply keeps_bind; [|intros _; apply keeps_emit].
  intros w1 r w' E. injection E as _ <-. apply Hs.
Qed.

Lemma keeps_putTable_stats (t : Table Stat.t) : tablesFree f -> keeps f (putTable statsRef t).
Proof. intros [Hs _] w r w' E. injection E as _ <-. apply Hs. Qed.

Lemma keeps_putTable_entries (t : Table Entry.t) :
  tablesFree f -> keeps f (putTable entriesRef t).
Proof. intros [_ He] w r w' E. injection E as _ <-. apply He. Qed.

Lemma keeps_addEach {A : Type} `{Row A} (items : list A) :
  forall t, keeps f (addEach items t).
Proof.
  induction items as [|obj rest IH]; intros t; cbn [addEach]; [apply keeps_ret|].
  apply keeps_bind.
  - unfold creatingHook. apply keeps_bind; [exact keeps_newDate|intros c].
    apply keeps_bind; [exact keeps_newDate|intros u]. apply keeps_ret.
  - intros obj'. destruct (tableAdd obj' t); [apply IH|apply keeps_throw].
Qed.

Lemma keeps_transaction {A : Type} (body : M A) :
  tablesFree f -> keeps f body -> keeps f (transaction body).
Proof.
  intros [Hs He] Hb w r w' E. unfold transaction in E.
  destruct (await_io w) as [[[]|e] w1] eqn:E1.
  - destruct (body w1) as [[a|e] w2] eqn:E2.
    + destruct (await_io w2) as [[[]|e] w3] eqn:E3; injection E as _ <-.
      * rewrite (keeps_await_io _ _ _ E3), (Hb _ _ _ E2). exact (keeps_await_io _ _ _ E1).
      * unfold rollback. rewrite He, Hs.
        rewrite (keeps_await_io _ _ _ E3), (Hb _ _ _ E2). exact (keeps_await_io _ _ _ E1).
    + injection E as _ <-. unfold rollback. rewrite He, Hs.
      rewrite (Hb _ _ _ E2). exact (keeps_await_io _ _ _ E1).
  - injection E as _ <-. exact (keeps_await_io _ _ _ E1).
Qed.

End Frames.

Lemma tables_bookkeepingFree : bookkeepingFree tables.
Proof. repeat split. Qed.

Lemma tables_driveFree : driveFree tables.
Proof. intros d w. reflexivity. Qed.

Lemma tables_settingsFree : settingsFree tables.
Proof. intros s w. reflexivity. Qed.

Lemma environment_bookkeepingFree : bookkeepingFree environment.
Proof. repeat split. Qed.

Lemma environment_driveFree : driveFree environment.
Proof. intros d w. reflexivity. Qed.

Lemma environment_settingsFree : settingsFree environment.
Proof. intros s w. reflexivity. Qed.

Lemma environment_tablesFree : tablesFree environment.
Proof. split; intros t w; reflexivity. Qed.

Lemma drive_bookkeepingFree : bookkeepingFree drive.
Proof. repeat split. Qed.

Lemma drive_settingsFree : settingsFree drive.
Proof. intros s w. reflexivity. Qed.

Lemma drive_tablesFree : tablesFree drive.
Proof. split; intros t w; reflexivity. Qed.

Create HintDb frames.

#[local] Hint Resolve tables_bookkeepingFree tables_driveFree tables_settingsFree
  environment_bookkeepingFree environment_driveFree environment_settingsFree
  environment_tablesFree drive_bookkeepingFree drive_settingsFree drive_tablesFree : frames.

Section SyncRuns.

Variable Date_parse : string -> option Z.

Lemma keeps_clear {X A : Type} (f : World -> X) (tbl : TableRef A) :
  bookkeepingFree f -> (forall t, keeps f (putTable tbl t)) -> keeps f (clear tbl).
Proof.
  intros Hf Hp. unfold clear.
  apply keeps_bind; [apply keeps_await_io; exact Hf|intros _].
  apply keeps_bind; [apply keeps_getWorld|intros w]. apply Hp.
Qed.

Lemma keeps_importTable {X A : Type} `{Row A} (f : World -> X) (tbl : TableRef A)
    (key : string) (decode : json -> option A) (data : json) :
  bookkeepingFree f -> (forall t, keeps f (putTable tbl t)) ->
  keeps f (importTable Date_parse tbl key decode data).
Proof.
  intros Hf Hp. unfold importTable.
  apply keeps_bind; [apply keeps_lift|intros [l|]]; [|apply keeps_ret].
  apply keeps_bind; [apply keeps_lift|intros items].
  unfold bulkAdd.
  apply keeps_bind; [apply keeps_await_io; exact Hf|intros _].
  apply keeps_bind; [apply keeps_getWorld|intros w].
  apply keeps_bind; [apply keeps_addEach; exact Hf|intros t']. apply Hp.
Qed.

Lemma keeps_importData {X : Type} (f : World -> X) (text : Text) :
  bookkeepingFree f -> tablesFree f -> keeps f (importData Date_parse text).
Proof.
  intros Hf Ht. unfold importData.
  apply keeps_bind.
  { destruct text; [apply keeps_throw|apply keeps_ret]. }
  intros data. apply keeps_bind; [|intros _; apply keeps_emit; exact Hf].
  apply keeps_transaction; [exact Hf|exact Ht|].
  apply keeps_bind.
  { apply keeps_clear; [exact Hf|intros t; apply keeps_putTable_stats; exact Ht]. }
  intros _. apply keeps_bind.
  { apply keeps_clear; [exact Hf|intros t; apply keeps_putTable_entries; exact Ht]. }
  intros _. apply keeps_bind.
  { apply keeps_importTable; [exact Hf|intros t; apply keeps_putTable_stats; exact Ht]. }
  intros _.
  apply keeps_importTable; [exact Hf|intros t; apply keeps_putTable_entries; exact Ht].
Qed.

(** A step of the sync service that ends by recording the run. *)
Lemma keeps_recording {X : Type} (f : World -> X) (changes : Z -> Settings.partial)
    (res : SyncResult) :
  bookkeepingFree f -> settingsFree f ->
  keeps f (now <- newDate ;; updateSettings (changes now) ;;; ret res).
Proof.
  intros Hf Hs. apply keeps_bind; [apply keeps_newDate; exact Hf|intros now].
  apply keeps_bind; [apply keeps_updateSettings; assumption|intros _]. apply keeps_ret.
Qed.

Lemma keeps_resolveConflict {X : Type} (f : World -> X) (tok : string) (fid : FileId)
    (local cloud : BackupFile) (resolution : ConflictResolution) :
  bookkeepingFree f -> settingsFree f ->
  (resolution <> UseCloud -> driveFree f) ->
  (resolution <> KeepLocal -> tablesFree f) ->
  keeps f (resolveConflict Date_parse tok fid local cloud resolution).
Proof.
  intros Hf Hs Hd Ht. destruct resolution; cbn [resolveConflict].
  - apply keeps_bind; [apply keeps_uploadBackup; [exact Hf|apply Hd; discriminate]|intros _].
    apply keeps_recording; assumption.
  - apply keeps_bind; [apply keeps_importData; [exact Hf|apply Ht; discriminate]|intros _].
    apply keeps_recording; assumption.
  - apply keeps_bind; [apply keeps_newDate; exact Hf|intros t].
    apply keeps_bind; [apply keeps_newDate; exact Hf|intros t'].
    apply keeps_bind; [apply keeps_importData; [exact Hf|apply Ht; discriminate]|intros _].
    apply keeps_bind; [apply keeps_buildBackupFile; exact Hf|intros b].
    apply keeps_bind; [apply keeps_uploadBackup; [exact Hf|apply Hd; discriminate]|intros _].
    apply keeps_recording; assumption.
Qed.

Lemma keeps_syncBody {X : Type} (f : World -> X) (tok : string)
    (res : option ConflictResolution) :
  bookkeepingFree f -> settingsFree f -> driveFree f ->
  (res <> None -> res <> Some KeepLocal -> tablesFree f) ->
  keeps f (syncBody Date_parse tok res).
Proof.
  intros Hf Hs Hd Ht. unfold syncBody.
  apply keeps_bind; [apply keeps_getSettings; exact Hf|intros settings].
  apply keeps_bind; [apply keeps_buildBackupFile; exact Hf|intros local].
  apply keeps_bind; [apply keeps_findBackupFile; exact Hf|intros [existing|]].
  - apply keeps_bind; [apply keeps_downloadBackup; exact Hf|intros cloud].
    destruct (String.eqb _ _); [apply keeps_recording; assumption|].
    destruct (sameString _ _).
    + apply keeps_bind; [apply keeps_uploadBackup; assumption|intros _].
      apply keeps_recording; assumption.
    + destruct res as [resolution|]; [|apply keeps_ret].
      apply keeps_resolveConflict; try assumption; [intros _; exact Hd|].
      intros Hk. apply Ht; congruence.
  - apply keeps_bind; [apply keeps_uploadBackup; assumption|intros fid].
    apply keeps_recording; assumption.
Qed.

Lemma keeps_performSync {X : Type} (f : World -> X) (tok : string)
    (res : option ConflictResolution) (w : World) :
  keeps f (syncBody Date_parse tok res) ->
  f (snd (performSync Date_parse tok res w)) = f w.
Proof.
  intros H. unfold performSync.
  destruct (syncBody Date_parse tok res w) as [[r|e] w'] eqn:E; exact (H _ _ _ E).
Qed.

(** X6. A synchronisation that is given no resolution, or the resolution
    keep-local, never changes the stats and entries tables, whichever of
    its calls fail. *)
Theorem sync_keeps_local_data (tok : string) (w : World) :
  tables (snd (performSync Date_parse tok None w)) = tables w /\
  tables (snd (performSync Date_parse tok (Some KeepLocal) w)) = tables w.
Proof.
  split; apply keeps_performSync; apply keeps_syncBody; auto with frames;
    intros H1 H2; congruence.
Qed.

(** X7. The use-cloud resolution never writes the remote file, whichever of
    its calls fail. *)
Theorem use_cloud_keeps_remote (tok : string) (fid : FileId) (local cloud : BackupFile)
    (w : World) :
  drive (snd (resolveConflict Date_parse tok fid local cloud UseCloud w)) = drive w.
Proof.
  destruct (resolveConflict Date_parse tok fid local cloud UseCloud w) as [r w'] eqn:E.
  refine (keeps_resolveConflict drive tok fid local cloud UseCloud _ _ _ _ _ _ _ E);
    auto with frames; intros H; congruence.
Qed.

Ltac go Hq :=
  cbv [bind ret throw await_io newDate emit getWorld putTable putDrive takeFreshId
       toArray getSettings findBackupFile listAppDataFiles downloadBackup
       tget tset statsRef entriesRef
       set_calls set_reads set_log set_drive set_created set_settingsRow
       set_statsT set_entriesT
       statsT entriesT settingsRow drive freshId created clock reads fault calls log];
  try rewrite Hq.

Lemma quiet_kept (tok : string) (res : option ConflictResolution) (w : World) :
  quiet w -> quiet (snd (performSync Date_parse tok res w)).
Proof.
  intros Hq n.
  assert (E : environment (snd (performSync Date_parse tok res w)) = environment w).
  { apply keeps_performSync. apply keeps_syncBody; auto with frames. }
  unfold environment in E. injection E as -> _ _. apply Hq.
Qed.

(** The first backup: no remote file. *)
Lemma run_no_remote (tok : string) (res : option ConflictResolution) (w : World) :
  quiet w -> drive w = None ->
  let local := builtAt (clock w (reads w)) (localData w) in
  let fid := freshId w (created w) in
  let changes := syncUpdate (Some fid) (clock w (S (reads w)))
                            (Some (generateChecksum (localData w))) in
  exists w',
    performSync Date_parse tok res w = (success "Backup created in Google Drive", w') /\
    drive w' = Some (mkDriveFile fid (backupToJSON local)) /\
    tables w' = tables w /\
    settingsRow w' = settingsAfter changes (clock w (S (S (reads w)))) (settingsRow w) /\
    log w' = (log w ++ [CallList; CallUpload local None; Uploaded fid local]
                    ++ writtenBy changes (settingsRow w))%list.
Proof.
  intros Hq Hd local fid changes. subst local fid changes.
  destruct w as [st en se dr fr cr cl rd fa ca lg].
  unfold quiet, localData in *. cbn in Hq, Hd. subst dr.
  unfold performSync, syncBody, buildBackupFile.
  repeat (go Hq). unfold uploadBackup. repeat (go Hq).
  cbn [checksum metadata data builtAt].
  unfold updateSettings, settingsAfter, writtenBy, tables.
  destruct se as [s|]; [destruct (Settings.id s) as [k|] eqn:Hid|];
    repeat (go Hq; rewrite ?Hid); cbn [settingsRow log drive statsT entriesT];
    rewrite <- ?app_assoc; cbn [app]; eexists; repeat split; rewrite ?app_nil_r;
    try reflexivity.
Qed.

(** The remote file holds what the device holds. *)
Lemma run_in_sync (tok : string) (res : option ConflictResolution) (w : World)
    (fid : FileId) (cloud : BackupFile) :
  quiet w ->
  remoteBackup w = Some (fid, cloud) ->
  checksum (metadata cloud) = generateChecksum (localData w) ->
  exists w',
    performSync Date_parse tok res w =
      (mkResult StNoChanges "Data is already in sync" None None, w') /\
    drive w' = drive w /\ tables w' = tables w /\ watermark w' = watermark w.
Proof.
  intros Hq Hr He.
  destruct w as [st en se dr fr cr cl rd fa ca lg].
  unfold quiet, remoteBackup, localData, watermark, tables in *. cbn in Hq, Hr, He.
  destruct dr as [f|]; [|discriminate].
  destruct (backupOfJSON (body f)) as [b|] eqn:Hb; [|discriminate].
  injection Hr as <- <-.
  unfold performSync, syncBody, buildBackupFile.
  repeat (go Hq; rewrite ?Pos.eqb_refl, ?Hb).
  cbn [checksum metadata data]. rewrite He, String.eqb_refl.
  unfold updateSettings.
  destruct se as [s|]; [destruct (Settings.id s) as [k|] eqn:Hid|];
    repeat (go Hq; rewrite ?Hid); cbn [settingsRow log drive statsT entriesT];
    eexists; repeat split.
Qed.

(** Only the device changed. *)
Lemma run_local_change (tok : string) (res : option ConflictResolution) (w : World)
    (fid : FileId) (cloud : BackupFile) :
  quiet w ->
  remoteBackup w = Some (fid, cloud) ->
  checksum (metadata cloud) <> generateChecksum (localData w) ->
  watermark w = Some (checksum (metadata cloud)) ->
  exists r w',
    performSync Date_parse tok res w = (r, w') /\
    uploadedInto fid "Backup updated in Google Drive" w r w'.
Proof.
  intros Hq Hr Hne Hwm.
  destruct w as [st en se dr fr cr cl rd fa ca lg].
  unfold quiet, remoteBackup, localData, watermark, uploadedInto, tables in *.
  cbn in Hq, Hr, Hne, Hwm.
  destruct dr as [f|]; [|discriminate].
  destruct (backupOfJSON (body f)) as [b|] eqn:Hb; [|discriminate].
  injection Hr as <- <-.
  destruct se as [s|]; [|discriminate].
  unfold performSync, syncBody, buildBackupFile.
  repeat (go Hq; rewrite ?Pos.eqb_refl, ?Hb).
  cbn [checksum metadata data].
  destruct (String.eqb_spec (checksum (metadata b))
              (generateChecksum {| stats := rows st; entries := rows en |}))
    as [E|_]; [contradiction|].
  rewrite Hwm, sameString_true.
  unfold uploadBackup, updateSettings, settingsAfter, writtenBy.
  destruct (Settings.id s) as [k|] eqn:Hid;
    repeat (go Hq; rewrite ?Pos.eqb_refl, ?Hid);
    cbn [settingsRow log drive statsT entriesT clock reads localData stats entries
         checksum metadata builtAt];
    rewrite <- ?app_assoc; cbn [app]; eexists _, _; repeat split;
    rewrite ?app_nil_r; try reflexivity.
Qed.

(** Both sides changed and the user keeps the local data. *)
Lemma run_keep_local (tok : string) (w : World) (fid : FileId) (cloud : BackupFile) :
  quiet w ->
  remoteBackup w = Some (fid, cloud) ->
  checksum (metadata cloud) <> generateChecksum (localData w) ->
  watermark w <> Some (checksum (metadata cloud)) ->
  exists r w',
    performSync Date_parse tok (Some KeepLocal) w = (r, w') /\
    uploadedInto fid "Local data uploaded to cloud" w r w'.
Proof.
  intros Hq Hr Hne Hwm.
  destruct w as [st en se dr fr cr cl rd fa ca lg].
  unfold quiet, remoteBackup, localData, watermark, uploadedInto, tables in *.
  cbn in Hq, Hr, Hne, Hwm.
  destruct dr as [f|]; [|discriminate].
  destruct (backupOfJSON (body f)) as [b|] eqn:Hb; [|discriminate].
  injection Hr as <- <-.
  unfold performSync, syncBody, buildBackupFile.
  repeat (go Hq; rewrite ?Pos.eqb_refl, ?Hb).
  cbn [checksum metadata data].
  destruct (String.eqb_spec (checksum (metadata b))
              (generateChecksum {| stats := rows st; entries := rows en |}))
    as [E|_]; [contradiction|].
  rewrite sameString_false by (destruct se; exact Hwm).
  cbn [resolveConflict].
  unfold uploadBackup, updateSettings, settingsAfter, writtenBy.
  destruct se as [s|]; [destruct (Settings.id s) as [k|] eqn:Hid|];
    repeat (go Hq; rewrite ?Pos.eqb_refl, ?Hid);
    cbn [settingsRow log drive statsT entriesT clock reads localData stats entries
         checksum metadata builtAt];
    rewrite <- ?app_assoc; cbn [app]; eexists _, _; repeat split;
    rewrite ?app_nil_r; try reflexivity.
Qed.

#[local] Existing Instance StatLaws.
#[local] Existing Instance EntryLaws.

Lemma merged_importable {A : Type} `{RowLaws A} (same : A -> A) (local cloud : list A)
    (clock : nat -> Z) (k : Z) (n : nat) :
  (forall c, row_id (same c) = row_id c) ->
  exists t' n',
    stampAll (map same (mergeRecords Date_parse local cloud)) (mkTable [] k) clock n
    = (Some t', n').
Proof.
  intros Hid.
  destruct (mergeRecords_spec Date_parse local cloud) as (Hnd & Hin & _).
  assert (Hids : map row_id (map same (mergeRecords Date_parse local cloud))
                 = map row_id (mergeRecords Date_parse local cloud)).
  { rewrite map_map. apply map_ext. exact Hid. }
  apply stampAll_succeeds.
  - intros o Ho. apply in_map_iff in Ho. destruct Ho as (c & <- & Hc).
    destruct (Hin c Hc) as (_ & j & Hj & _). exists j. rewrite Hid. split; [exact Hj|reflexivity].
  - rewrite Hids. exact Hnd.
Qed.

Lemma id_rehydrated_stat (s : Stat.t) :
  row_id (rehydrate Date_parse (wireStat s)) = row_id s.
Proof. reflexivity. Qed.

Lemma id_rehydrated_entry (e : Entry.t) :
  row_id (rehydrate Date_parse (wireEntry e)) = row_id e.
Proof. reflexivity. Qed.

Lemma resolve_merge (tok : string) (fid : FileId) (local cloud : BackupFile) (w : World)
    (f : DriveFile) :
  quiet w -> drive w = Some f -> fileId f = fid ->
  exists w',
    resolveConflict Date_parse tok fid local cloud Merge w =
      (Ok (success "Data merged successfully"), w') /\
    (tableKeyed (statsT w) ->
     replacedBy (clock w) (reads w) (reads w')
                (mergeRecords Date_parse (stats (data local)) (stats (data cloud)))
                (statsT w) (statsT w')) /\
    (tableKeyed (entriesT w) ->
     replacedBy (clock w) (reads w) (reads w')
                (mergeRecords Date_parse (entries (data local)) (entries (data cloud)))
                (entriesT w) (entriesT w')) /\
    mergeRecorded fid w w'.
Proof.
  intros Hq Hd Hf.
  destruct w as [st en se dr fr cr cl rd fa ca lg].
  unfold quiet, mergeRecorded in *. cbn in Hq, Hd. subst dr.
  cbn [resolveConflict]. go Hq. unfold importText.
  set (ms := mergeRecords Date_parse (stats (data local)) (stats (data cloud))).
  set (me := mergeRecords Date_parse (entries (data local)) (entries (data cloud))).
  cbn [mergeData data stats entries]. fold ms me.
  match goal with
  | |- context [importData Date_parse (TextOf ?d) ?W] => set (dat := d); set (W1 := W)
  end.
  destruct (merged_importable (fun s => rehydrate Date_parse (wireStat s))
              (stats (data local)) (stats (data cloud)) cl (keygen st) (S (S rd))
              id_rehydrated_stat) as (ts & n1 & S1).
  destruct (merged_importable (fun e => rehydrate Date_parse (wireEntry e))
              (entries (data local)) (entries (data cloud)) cl (keygen en) n1
              id_rehydrated_entry) as (te & n2 & S2).
  fold ms in S1. fold me in S2.
  destruct (importData_quiet Date_parse dat _ _ ts te n1 n2 W1 Hq
              (itemsToImport_stats Date_parse ms me _)
              (itemsToImport_entries Date_parse ms me _) S1 S2)
    as (w1 & E1 & Hst & Hen & Hrd & Hse & Hdr).
  rewrite E1.
  assert (Henv : environment w1 = environment W1).
  { exact (keeps_importData environment (TextOf dat) environment_bookkeepingFree
                            environment_tablesFree _ _ _ E1). }
  destruct w1 as [st1 en1 se1 dr1 fr1 cr1 cl1 rd1 fa1 ca1 lg1].
  unfold environment in Henv. cbn in Hst, Hen, Hrd, Hse, Hdr, Henv.
  injection Henv as -> -> ->. subst st1 en1 rd1 se1 dr1.
  unfold buildBackupFile, uploadBackup, updateSettings, settingsAfter.
  repeat (go Hq; rewrite ?Hf, ?Pos.eqb_refl).
  destruct (stampAll_spec _ _ _ _ _ _ S1) as (Hn1 & _).
  destruct (stampAll_spec _ _ _ _ _ _ S2) as (Hn2 & _).
  assert (R1 : forall hi, (n2 <= hi)%nat -> tableKeyed st -> replacedBy cl rd hi ms st ts).
  { intros hi Hhi Hks.
    apply (stampAll_replaces cl (map (fun s => rehydrate Date_parse (wireStat s)) ms) ms
             (fun s => rehydrate Date_parse (wireStat s)) st ts (S (S rd)) n1 rd hi);
      try reflexivity; try assumption; lia. }
  assert (R2 : forall hi, (n2 <= hi)%nat -> tableKeyed en -> replacedBy cl rd hi me en te).
  { intros hi Hhi Hke.
    apply (stampAll_replaces cl (map (fun e => rehydrate Date_parse (wireEntry e)) me) me
             (fun e => rehydrate Date_parse (wireEntry e)) en te n1 n2 rd hi);
      try reflexivity; try assumption; lia. }
  destruct se as [s|]; [destruct (Settings.id s) as [k|] eqn:Hid|];
    repeat (go Hq; rewrite ?Hid); cbn [settingsRow log drive statsT entriesT reads clock];
    (eexists; split; [reflexivity|]);
    (split; [apply R1; lia|split; [apply R2; lia|]]);
    exists (cl n2), (cl (S n2)), (cl (S (S n2))); split; reflexivity.
Qed.

Lemma replacedBy_wider {A : Type} `{RowLaws A} (clock : nat -> Z) (lo lo' hi : nat)
    (source : list A) (t t' : Table A) :
  (lo' <= lo)%nat -> replacedBy clock lo hi source t t' -> replacedBy clock lo' hi source t t'.
Proof.
  intros Hlo (H1 & H2 & H3). split; [|split; [|exact H3]].
  - intros c Hc. destruct (H1 c Hc) as (r & Hr & Hs). exists r. split; [exact Hr|].
    apply (storedAs_wider clock lo lo' hi (keygen t) (keygen t)); [exact Hlo|lia|exact Hs].
  - intros r Hr. destruct (H2 r Hr) as (c & Hc & Hs). exists c. split; [exact Hc|].
    apply (storedAs_wider clock lo lo' hi (keygen t) (keygen t)); [exact Hlo|lia|exact Hs].
Qed.

(** Both sides changed and the user merges. *)
Lemma run_merge (tok : string) (w : World) (fid : FileId) (cloud : BackupFile) :
  quiet w ->
  remoteBackup w = Some (fid, cloud) ->
  checksum (metadata cloud) <> generateChecksum (localData w) ->
  watermark w <> Some (checksum (metadata cloud)) ->
  exists w',
    performSync Date_parse tok (Some Merge) w = (success "Data merged successfully", w') /\
    (tableKeyed (statsT w) ->
     replacedBy (clock w) (reads w) (reads w')
                (mergeRecords Date_parse (rows (statsT w)) (stats (data cloud)))
                (statsT w) (statsT w')) /\
    (tableKeyed (entriesT w) ->
     replacedBy (clock w) (reads w) (reads w')
                (mergeRecords Date_parse (rows (entriesT w)) (entries (data cloud)))
                (entriesT w) (entriesT w')) /\
    mergeRecorded fid w w'.
Proof.
  intros Hq Hr Hne Hwm.
  destruct w as [st en se dr fr cr cl rd fa ca lg].
  unfold quiet, remoteBackup, localData, watermark in *. cbn in Hq, Hr, Hne, Hwm.
  destruct dr as [f|]; [|discriminate].
  destruct (backupOfJSON (body f)) as [b|] eqn:Hb; [|discriminate].
  injection Hr as <- <-.
  unfold performSync, syncBody, buildBackupFile.
  repeat (go Hq; rewrite ?Pos.eqb_refl, ?Hb).
  cbn [checksum metadata data].
  destruct (String.eqb_spec (checksum (metadata b))
              (generateChecksum {| stats := rows st; entries := rows en |}))
    as [E|_]; [contradiction|].
  rewrite sameString_false by (destruct se; exact Hwm).
  match goal with
  | |- context [resolveConflict Date_parse tok ?i ?l ?c Merge ?W] =>
      destruct (resolve_merge tok i l c W f Hq eq_refl eq_refl)
        as (w' & E & R1 & R2 & Rec)
  end.
  rewrite E. exists w'. split; [reflexivity|].
  cbn [statsT entriesT clock reads data stats entries] in R1, R2.
  split; [|split].
  - intros Hk. apply (replacedBy_wider cl (S rd) rd); [lia|]. exact (R1 Hk).
  - intros Hk. apply (replacedBy_wider cl (S rd) rd); [lia|]. exact (R2 Hk).
  - exact Rec.
Qed.

(** Both sides changed and no resolution is given. *)
Lemma run_conflict (tok : string) (w : World) (fid : FileId) (cloud : BackupFile) :
  quiet w ->
  remoteBackup w = Some (fid, cloud) ->
  checksum (metadata cloud) <> generateChecksum (localData w) ->
  watermark w <> Some (checksum (metadata cloud)) ->
  exists w',
    performSync Date_parse tok None w =
      (mkResult StConflict "Both local and cloud data have changed" (Some cloud)
                (Some (builtAt (clock w (reads w)) (localData w))), w') /\
    tables w' = tables w /\ drive w' = drive w /\ settingsRow w' = settingsRow w.
Proof.
  intros Hq Hr Hne Hwm.
  destruct w as [st en se dr fr cr cl rd fa ca lg].
  unfold quiet, remoteBackup, localData, watermark in *. cbn in Hq, Hr, Hne, Hwm.
  destruct dr as [f|]; [|discriminate].
  destruct (backupOfJSON (body f)) as [b|] eqn:Hb; [|discriminate].
  injection Hr as <- <-.
  unfold performSync, syncBody, buildBackupFile.
  repeat (go Hq; rewrite ?Pos.eqb_refl, ?Hb).
  cbn [checksum metadata data].
  destruct (String.eqb_spec (checksum (metadata b))
              (generateChecksum {| stats := rows st; entries := rows en |}))
    as [E|_]; [contradiction|].
  rewrite sameString_false by (destruct se; exact Hwm).
  eexists. repeat split.
Qed.

(** The remote file does not hold a backup file. *)
Lemma run_unreadable (tok : string) (res : option ConflictResolution) (w : World)
    (f : DriveFile) :
  quiet w -> drive w = Some f -> backupOfJSON (body f) = None ->
  status (fst (performSync Date_parse tok res w)) = StError.
Proof.
  intros Hq Hd Hb.
  destruct w as [st en se dr fr cr cl rd fa ca lg].
  unfold quiet in *. cbn in Hq, Hd. subst dr.
  unfold performSync, syncBody, buildBackupFile.
  repeat (go Hq; rewrite ?Pos.eqb_refl, ?Hb). reflexivity.
Qed.

Lemma sidesAgree_of_drive (w : World) (fid : FileId) (t : Z) :
  drive w = Some (mkDriveFile fid (backupToJSON (builtAt t (localData w)))) ->
  sidesAgree w.
Proof.
  intros Hd. exists fid, (wireBackup (builtAt t (localData w))). split.
  - unfold remoteBackup. rewrite Hd. cbn [body fileId].
    rewrite backupOfJSON_backupToJSON. reflexivity.
  - reflexivity.
Qed.

Lemma localData_tables (w w' : World) : tables w' = tables w -> localData w' = localData w.
Proof. unfold tables, localData. intros E. injection E as -> ->. reflexivity. Qed.

Lemma sidesAgree_uploaded (fid : FileId) (msg : string) (w : World) (r : SyncResult)
    (w' : World) :
  uploadedInto fid msg w r w' -> sidesAgree w'.
Proof.
  intros (_ & Hd & Ht & _). apply localData_tables in Ht.
  apply (sidesAgree_of_drive w' fid (clock w (reads w))). rewrite Ht. exact Hd.
Qed.

Lemma option_string_dec (a b : option string) : {a = b} + {a <> b}.
Proof. decide equality. apply string_dec. Qed.

(** A run that succeeded otherwise than by restoring the cloud data has
    left the two sides in sync. *)
Lemma success_in_sync (tok : string) (res : option ConflictResolution) (w : World) :
  quiet w -> res <> Some UseCloud ->
  status (fst (performSync Date_parse tok res w)) = StSuccess ->
  sidesAgree (snd (performSync Date_parse tok res w)).
Proof.
  intros Hq Hres Hs.
  destruct (drive w) as [f|] eqn:Hd.
  - destruct (backupOfJSON (body f)) as [b|] eqn:Hb.
    + assert (Hr : remoteBackup w = Some (fileId f, b)).
      { unfold remoteBackup. rewrite Hd, Hb. reflexivity. }
      destruct (string_dec (checksum (metadata b)) (generateChecksum (localData w)))
        as [He|Hne].
      * destruct (run_in_sync tok res w _ _ Hq Hr He) as (w' & E & _).
        rewrite E in Hs. discriminate Hs.
      * destruct (option_string_dec (watermark w) (Some (checksum (metadata b))))
          as [Hw|Hw].
        { destruct (run_local_change tok res w _ _ Hq Hr Hne Hw) as (r & w' & E & U).
          rewrite E. exact (sidesAgree_uploaded _ _ _ _ _ U). }
        destruct res as [[| |]|].
        { destruct (run_keep_local tok w _ _ Hq Hr Hne Hw) as (r & w' & E & U).
          rewrite E. exact (sidesAgree_uploaded _ _ _ _ _ U). }
        { congruence. }
        { destruct (run_merge tok w _ _ Hq Hr Hne Hw)
            as (w' & E & _ & _ & t1 & t2 & t3 & D & _).
          rewrite E. exact (sidesAgree_of_drive _ _ _ D). }
        { destruct (run_conflict tok w _ _ Hq Hr Hne Hw) as (w' & E & _).
          rewrite E in Hs. discriminate Hs. }
    + rewrite (run_unreadable tok res w f Hq Hd Hb) in Hs. discriminate Hs.
  - destruct (run_no_remote tok res w Hq Hd) as (w' & E & D & Ht & _).
    rewrite E. cbn [snd]. apply localData_tables in Ht.
    apply (sidesAgree_of_drive w' (freshId w (created w)) (clock w (reads w))).
    rewrite Ht. exact D.
Qed.

(** X4. After a synchronisation that succeeded, with no resolution or with
    keep-local or merge, a further synchronisation, whatever resolution it
    is given, finds the two sides in sync: it reports no-changes, and
    leaves the remote file and both tables as they are. *)
Theorem second_sync_finds_no_changes (tok tok' : string)
    (res res' : option ConflictResolution) (w : World) :
  quiet w -> res <> Some UseCloud ->
  status (fst (performSync Date_parse tok res w)) = StSuccess ->
  let w1 := snd (performSync Date_parse tok res w) in
  exists w2,
    performSync Date_parse tok' res' w1 =
      (mkResult StNoChanges "Data is already in sync" None None, w2) /\
    drive w2 = drive w1 /\ tables w2 = tables w1.
Proof.
  intros Hq Hres Hs w1.
  destruct (success_in_sync tok res w Hq Hres Hs) as (fid & b & Hr & Hc).
  destruct (run_in_sync tok' res' w1 fid b (quiet_kept tok res w Hq) Hr Hc)
    as (w2 & E & D & T & _).
  exists w2. repeat split; assumption.
Qed.

Lemma watermark_recorded (changes : Settings.partial) (stamp : Z) (c : string)
    (w w' : World) (s : Settings.t) :
  settingsRow w = Some s -> Settings.id s <> None ->
  Settings.p_lastSyncChecksum changes = Some c ->
  settingsRow w' = settingsAfter changes stamp (settingsRow w) ->
  watermark w' = Some c.
Proof.
  intros Hs Hid Hc Hw'. unfold watermark. rewrite Hw', Hs. unfold settingsAfter.
  destruct (Settings.id s); [|contradiction]. cbn. rewrite Hc. reflexivity.
Qed.

Lemma remoteBackup_uploaded (w : World) (fid : FileId) (b : BackupFile) :
  drive w = Some (mkDriveFile fid (backupToJSON b)) ->
  remoteBackup w = Some (fid, wireBackup b).
Proof.
  intros Hd. unfold remoteBackup. rewrite Hd. cbn [body fileId].
  rewrite backupOfJSON_backupToJSON. reflexivity.
Qed.

(** X1. When the remote folder holds no backup file, performSync creates
    one from the local dataset (a POST: no identifier is passed), whatever
    resolution it is given; the tables are left as they are; the settings
    row records the identifier Drive gave to the file and the local
    checksum. Without a settings row nothing is recorded, though the run
    reports success. *)
Theorem first_backup_created (tok : string) (res : option ConflictResolution)
    (w : World) :
  quiet w -> drive w = None ->
  let local := builtAt (clock w (reads w)) (localData w) in
  let fid := freshId w (created w) in
  exists w',
    performSync Date_parse tok res w = (success "Backup created in Google Drive", w') /\
    remoteBackup w' = Some (fid, wireBackup local) /\
    tables w' = tables w /\
    (exists written,
        log w' = (log w ++ [CallList; CallUpload local None; Uploaded fid local]
                        ++ written)%list) /\
    match settingsRow w with
    | Some s =>
        Settings.id s <> None ->
        watermark w' = Some (generateChecksum (localData w)) /\
        option_map Settings.driveFileId (settingsRow w') = Some (Some fid)
    | None => settingsRow w' = None
    end.
Proof.
  intros Hq Hd local fid.
  destruct (run_no_remote tok res w Hq Hd) as (w' & E & D & T & S & L).
  exists w'. split; [exact E|]. split; [exact (remoteBackup_uploaded _ _ _ D)|].
  split; [exact T|]. split; [eexists; exact L|].
  destruct (settingsRow w) as [s|] eqn:Hs.
  - intros Hid. split.
    + eapply watermark_recorded; [exact Hs|exact Hid| |rewrite Hs; exact S]; reflexivity.
    + rewrite S. cbn. destruct (Settings.id s); [reflexivity|contradiction].
  - exact S.
Qed.

(** X2. When both sides have changed and the user keeps the local data,
    performSync, no call rejecting, overwrites the remote file (a PATCH of
    that file) with the local backup file, leaves the tables as they are
    and records the local checksum as the watermark in the settings row
    the store has under its key. *)
Theorem keep_local_overwrites_remote (tok : string) (w : World) (fid : FileId)
    (cloud : BackupFile) :
  quiet w ->
  remoteBackup w = Some (fid, cloud) ->
  checksum (metadata cloud) <> generateChecksum (localData w) ->
  watermark w <> Some (checksum (metadata cloud)) ->
  let local := builtAt (clock w (reads w)) (localData w) in
  exists w',
    performSync Date_parse tok (Some KeepLocal) w =
      (success "Local data uploaded to cloud", w') /\
    remoteBackup w' = Some (fid, wireBackup local) /\
    tables w' = tables w /\
    (exists written,
        log w' = (log w ++ [CallList; CallDownload fid; CallUpload local (Some fid);
                            Uploaded fid local] ++ written)%list) /\
    (forall s, settingsRow w = Some s -> Settings.id s <> None ->
               watermark w' = Some (generateChecksum (localData w))).
Proof.
  intros Hq Hr Hne Hwm local.
  destruct (run_keep_local tok w fid cloud Hq Hr Hne Hwm) as (r & w' & E & -> & D & T & S & L).
  exists w'. split; [exact E|]. split; [exact (remoteBackup_uploaded _ _ _ D)|].
  split; [exact T|]. split; [eexists; exact L|].
  intros s Hs Hid. eapply watermark_recorded; [exact Hs|exact Hid| |exact S]; reflexivity.
Qed.

(** X3. When both sides have changed and the user merges, performSync
    replaces both tables by the merge of the local and the cloud records
    (stamped anew by the store), uploads the backup file built from the
    store after that into the remote file, and records its checksum: the
    two sides are in sync afterwards, and the watermark of the settings
    row the store has under its key is that checksum. No call rejecting,
    the merge always goes through: its records have pairwise distinct
    identifiers. *)
Theorem merge_resolution_run (tok : string) (w : World) (fid : FileId)
    (cloud : BackupFile) :
  quiet w ->
  tableKeyed (statsT w) -> tableKeyed (entriesT w) ->
  remoteBackup w = Some (fid, cloud) ->
  checksum (metadata cloud) <> generateChecksum (localData w) ->
  watermark w <> Some (checksum (metadata cloud)) ->
  exists w',
    performSync Date_parse tok (Some Merge) w = (success "Data merged successfully", w') /\
    replacedBy (clock w) (reads w) (reads w')
               (mergeRecords Date_parse (rows (statsT w)) (stats (data cloud)))
               (statsT w) (statsT w') /\
    replacedBy (clock w) (reads w) (reads w')
               (mergeRecords Date_parse (rows (entriesT w)) (entries (data cloud)))
               (entriesT w) (entriesT w') /\
    (exists t, remoteBackup w' = Some (fid, wireBackup (builtAt t (localData w')))) /\
    sidesAgree w' /\
    (forall s, settingsRow w = Some s -> Settings.id s <> None ->
               watermark w' = Some (generateChecksum (localData w'))).
Proof.
  intros Hq Hks Hke Hr Hne Hwm.
  destruct (run_merge tok w fid cloud Hq Hr Hne Hwm)
    as (w' & E & R1 & R2 & t1 & t2 & t3 & D & S).
  exists w'. split; [exact E|]. split; [exact (R1 Hks)|]. split; [exact (R2 Hke)|].
  split; [exists t1; exact (remoteBackup_uploaded _ _ _ D)|].
  split; [exact (sidesAgree_of_drive _ _ _ D)|].
  intros s Hs Hid. eapply watermark_recorded; [exact Hs|exact Hid| |exact S]; reflexivity.
Qed.

(** What a use-cloud resolution that returned has recorded. *)
Lemma resolve_use_cloud_ok (tok : string) (fid : FileId) (local cloud : BackupFile)
    (w : World) (r : SyncResult) (w' : World) (s : Settings.t) :
  settingsRow w = Some s -> Settings.id s <> None ->
  resolveConflict Date_parse tok fid local cloud UseCloud w = (Ok r, w') ->
  watermark w' = Some (checksum (metadata cloud)).
Proof.
  intros Hs Hid E. cbn [resolveConflict] in E. unfold bind at 1 in E.
  destruct (importData _ _ w) as [[[]|e] w1] eqn:E1; [|discriminate].
  destruct (importData_ok _ _ _ _ E1) as (Hse & _).
  unfold bind at 1, newDate at 1 in E. unfold bind in E.
  destruct (updateSettings _ _) as [[[]|e] w2] eqn:E2; [|discriminate].
  unfold ret in E. injection E as _ <-.
  destruct (updateSettings_inv _ _ _ E2) as ([stamp Hst] & _).
  cbn [settingsRow set_reads] in Hst. rewrite Hse in Hst.
  eapply watermark_recorded; [exact Hs|exact Hid| |exact Hst]; reflexivity.
Qed.

(** Both sides changed and the user restores the cloud data. *)
Lemma run_use_cloud (tok : string) (w : World) (fid : FileId) (cloud : BackupFile)
    (s : Settings.t) :
  quiet w ->
  settingsRow w = Some s -> Settings.id s <> None ->
  remoteBackup w = Some (fid, cloud) ->
  checksum (metadata cloud) <> generateChecksum (localData w) ->
  watermark w <> Some (checksum (metadata cloud)) ->
  status (fst (performSync Date_parse tok (Some UseCloud) w)) = StSuccess ->
  watermark (snd (performSync Date_parse tok (Some UseCloud) w))
  = Some (checksum (metadata cloud)).
Proof.
  intros Hq Hs Hid Hr Hne Hwm.
  destruct w as [st en se dr fr cr cl rd fa ca lg].
  unfold quiet, remoteBackup, localData in *. unfold watermark in Hwm.
  cbn in Hq, Hr, Hne, Hwm, Hs. subst se.
  destruct dr as [f|]; [|discriminate].
  destruct (backupOfJSON (body f)) as [b|] eqn:Hb; [|discriminate].
  injection Hr as <- <-.
  unfold performSync, syncBody, buildBackupFile.
  repeat (go Hq; rewrite ?Pos.eqb_refl, ?Hb).
  cbn [checksum metadata data].
  destruct (String.eqb_spec (checksum (metadata b))
              (generateChecksum {| stats := rows st; entries := rows en |}))
    as [E|_]; [contradiction|].
  rewrite sameString_false by exact Hwm.
  match goal with
  | |- context [resolveConflict Date_parse tok ?i ?l ?c UseCloud ?W] =>
      destruct (resolveConflict Date_parse tok i l c UseCloud W) as [[r|e] w'] eqn:ER
  end; cbn [fst snd status]; [intros _|discriminate].
  refine (resolve_use_cloud_ok _ _ _ _ _ _ _ s _ Hid ER). reflexivity.
Qed.

(** X5. After a use-cloud resolution that succeeded in a store that has its
    settings row, a further synchronisation, no call rejecting, never
    reports a conflict,
    whatever resolution it is given: the watermark is the checksum of the
    remote file, so the run either finds the two sides in sync or uploads
    the restored local data (which the store has stamped anew) into the
    remote file; it leaves both tables as they are. *)
Theorem sync_after_use_cloud (tok tok' : string) (res' : option ConflictResolution)
    (w : World) (fid : FileId) (cloud : BackupFile) (s : Settings.t) :
  quiet w ->
  settingsRow w = Some s -> Settings.id s <> None ->
  remoteBackup w = Some (fid, cloud) ->
  checksum (metadata cloud) <> generateChecksum (localData w) ->
  watermark w <> Some (checksum (metadata cloud)) ->
  status (fst (performSync Date_parse tok (Some UseCloud) w)) = StSuccess ->
  let w1 := snd (performSync Date_parse tok (Some UseCloud) w) in
  exists r2 w2,
    performSync Date_parse tok' res' w1 = (r2, w2) /\
    tables w2 = tables w1 /\
    ((r2 = mkResult StNoChanges "Data is already in sync" None None /\
      drive w2 = drive w1 /\
      checksum (metadata cloud) = generateChecksum (localData w1)) \/
     (r2 = success "Backup updated in Google Drive" /\
      sidesAgree w2 /\
      checksum (metadata cloud) <> generateChecksum (localData w1))).
Proof.
  intros Hq Hs Hid Hr Hne Hwm Hok w1.
  assert (Hq1 : quiet w1) by exact (quiet_kept tok (Some UseCloud) w Hq).
  assert (Hw1 : watermark w1 = Some (checksum (metadata cloud)))
    by exact (run_use_cloud tok w fid cloud s Hq Hs Hid Hr Hne Hwm Hok).
  assert (Hd1 : drive w1 = drive w).
  { subst w1. unfold performSync.
    destruct (syncBody Date_parse tok (Some UseCloud) w) as [[r|e] w'] eqn:E; cbn [snd].
    all: revert E; destruct w as [st en se dr fr cr cl rd fa ca lg];
      unfold quiet, remoteBackup, localData in *; unfold watermark in Hwm;
      cbn in Hq, Hr, Hne, Hwm;
      (destruct dr as [f|]; [|discriminate]);
      (destruct (backupOfJSON (body f)) as [b|] eqn:Hb; [|discriminate]);
      injection Hr as <- <-;
      unfold syncBody, buildBackupFile;
      repeat (go Hq; rewrite ?Pos.eqb_refl, ?Hb);
      cbn [checksum metadata data];
      (destruct (String.eqb_spec (checksum (metadata b))
                   (generateChecksum {| stats := rows st; entries := rows en |}))
        as [E|_]; [contradiction|]);
      rewrite sameString_false by (destruct se; exact Hwm);
      intros E;
      exact (keeps_resolveConflict drive tok _ _ _ UseCloud drive_bookkeepingFree
               drive_settingsFree ltac:(congruence) ltac:(intros _; exact drive_tablesFree)
               _ _ _ E). }
  assert (Hr1 : remoteBackup w1 = Some (fid, cloud)).
  { unfold remoteBackup in *. rewrite Hd1. exact Hr. }
  destruct (string_dec (checksum (metadata cloud)) (generateChecksum (localData w1)))
    as [He|Hn].
  - destruct (run_in_sync tok' res' w1 fid cloud Hq1 Hr1 He) as (w2 & E & D & T & _).
    eexists; exists w2. split; [exact E|]. split; [exact T|]. left. repeat split; assumption.
  - destruct (run_local_change tok' res' w1 fid cloud Hq1 Hr1 Hn Hw1) as (r2 & w2 & E & U).
    exists r2, w2. split; [exact E|]. split; [exact (proj1 (proj2 (proj2 U)))|].
    right. split; [exact (proj1 U)|]. split; [exact (sidesAgree_uploaded _ _ _ _ _ U)|exact Hn].
Qed.

(** *** The identity of the remote file *)

Lemma remoteId_bookkeepingFree : bookkeepingFree remoteId.
Proof. repeat split. Qed.

Lemma remoteId_settingsFree : settingsFree remoteId.
Proof. intros s w. reflexivity. Qed.

Lemma remoteId_tablesFree : tablesFree remoteId.
Proof. split; intros t w; reflexivity. Qed.

(** A PATCH keeps the identifier of the file, or fails and writes nothing. *)
Lemma keeps_remoteId_patch (tok : string) (b : BackupFile) (fid : FileId) :
  keeps remoteId (uploadBackup tok b (Some fid)).
Proof.
  intros w r w' E. unfold uploadBackup, bind, emit, await_io, getWorld in E.
  cbn [fault calls set_log set_calls drive] in E.
  destruct (fault w (calls w)); [injection E as _ <-; reflexivity|].
  cbn [drive set_calls set_log] in E.
  destruct (drive w) as [f|] eqn:Hd; [|injection E as _ <-; unfold remoteId; cbn; rewrite Hd; reflexivity].
  destruct (Pos.eqb_spec (fileId f) fid) as [Hf|Hf].
  - injection E as _ <-. unfold remoteId. cbn. rewrite Hd. cbn. congruence.
  - injection E as _ <-. unfold remoteId; cbn; rewrite Hd; reflexivity.
Qed.

Lemma keeps_remoteId_resolveConflict (tok : string) (fid : FileId)
    (local cloud : BackupFile) (resolution : ConflictResolution) :
  keeps remoteId (resolveConflict Date_parse tok fid local cloud resolution).
Proof.
  pose proof remoteId_bookkeepingFree as Hf. pose proof remoteId_settingsFree as Hs.
  pose proof remoteId_tablesFree as Ht.
  destruct resolution; cbn [resolveConflict].
  - apply keeps_bind; [apply keeps_remoteId_patch|intros _].
    apply keeps_recording; assumption.
  - apply keeps_bind; [apply keeps_importData; assumption|intros _].
    apply keeps_recording; assumption.
  - apply keeps_bind; [apply keeps_newDate; exact Hf|intros t].
    apply keeps_bind; [apply keeps_newDate; exact Hf|intros t'].
    apply keeps_bind; [apply keeps_importData; assumption|intros _].
    apply keeps_bind; [apply keeps_buildBackupFile; exact Hf|intros b].
    apply keeps_bind; [apply keeps_remoteId_patch|intros _].
    apply keeps_recording; assumption.
Qed.

(** What findBackupFile answers is the identifier of the file that is
    there. *)
Lemma findBackupFile_answer (tok : string) (w : World) (found : option FileId)
    (w' : World) :
  findBackupFile tok w = (Ok found, w') -> found = remoteId w' /\ drive w' = drive w.
Proof.
  unfold findBackupFile, listAppDataFiles, bind, emit, await_io, getWorld, ret.
  cbn [fault calls set_log set_calls drive].
  destruct (fault w (calls w)); [discriminate|].
  intros E. injection E as <- <-. unfold remoteId. cbn.
  destruct (drive w); split; reflexivity.
Qed.

(** X8. Once the remote folder holds a backup file, no synchronisation
    replaces it by a file with another identifier or removes it, whatever
    resolution is given and whichever calls fail: a file is created only
    when the folder was found empty. *)
Theorem remote_file_identity_kept (tok : string) (res : option ConflictResolution)
    (w : World) (f : DriveFile) :
  drive w = Some f ->
  remoteId (snd (performSync Date_parse tok res w)) = Some (fileId f).
Proof.
  intros Hd.
  assert (G : forall r w', syncBody Date_parse tok res w = (r, w') ->
                           remoteId w' = remoteId w).
  { pose proof remoteId_bookkeepingFree as Hf. pose proof remoteId_settingsFree as Hs.
    intros r w' E. unfold syncBody in E. unfold bind at 1 in E.
    destruct (getSettings w) as [[settings|e] w1] eqn:E1;
      [|injection E as _ <-; exact (keeps_getSettings remoteId Hf _ _ _ E1)].
    rewrite <- (keeps_getSettings remoteId Hf _ _ _ E1).
    pose proof (keeps_getSettings drive drive_bookkeepingFree _ _ _ E1) as D1.
    unfold bind at 1 in E.
    destruct (buildBackupFile w1) as [[local|e] w2] eqn:E2;
      [|injection E as _ <-; exact (keeps_buildBackupFile remoteId Hf _ _ _ E2)].
    rewrite <- (keeps_buildBackupFile remoteId Hf _ _ _ E2).
    pose proof (keeps_buildBackupFile drive drive_bookkeepingFree _ _ _ E2) as D2.
    unfold bind at 1 in E.
    destruct (findBackupFile tok w2) as [[found|e] w3] eqn:E3;
      [|injection E as _ <-; exact (keeps_findBackupFile remoteId Hf _ _ _ _ E3)].
    rewrite <- (keeps_findBackupFile remoteId Hf _ _ _ _ E3).
    destruct (findBackupFile_answer _ _ _ _ E3) as [Hfound D3].
    destruct found as [existing|].
    - revert E. apply (keeps_bind remoteId).
      + apply keeps_downloadBackup. exact Hf.
      + intros cloud. destruct (String.eqb _ _); [apply keeps_recording; assumption|].
        destruct (sameString _ _).
        * apply keeps_bind; [apply keeps_remoteId_patch|intros _].
          apply keeps_recording; assumption.
        * destruct res as [resolution|]; [|apply keeps_ret].
          apply keeps_remoteId_resolveConflict.
    - exfalso. unfold remoteId in Hfound. rewrite D3, D2, D1, Hd in Hfound.
      discriminate Hfound. }
  unfold performSync.
  destruct (syncBody Date_parse tok res w) as [[r|e] w']; cbn [snd];
    rewrite (G _ _ eq_refl); unfold remoteId; rewrite Hd; reflexivity.
Qed.

End SyncRuns.

(** * db.ts: the first start *)

Ltac boot Hq :=
  cbv [bind ret throw await_io newDate emit getWorld putTable count add settingsCount
       addSettings creatingHook
       tget tset statsRef entriesRef
       set_calls set_reads set_log set_drive set_created set_settingsRow
       set_statsT set_entriesT
       statsT entriesT settingsRow drive freshId created clock reads fault calls log];
  try rewrite Hq.

(** X9. On a store without stats and without settings row, and when no call
    rejects, initializeDatabase adds the stat mood (first colour of the
    palette, order 0, the next key of the table, stamped by the creating
    hook) and the settings row (14 days, its key); entries and the remote
    folder are not touched. *)
Theorem initializeDatabase_first_start (key : positive) (w : World) :
  quiet w -> rows (statsT w) = [] -> settingsRow w = None ->
  exists w',
    initializeDatabase key w = (Ok tt, w') /\
    rows (statsT w') =
      [Stat.mk (Some (keygen (statsT w))) "mood" "#e07a5f" 0
               (DateObj (Some (clock w (reads w))))
               (DateObj (Some (clock w (S (reads w)))))] /\
    keygen (statsT w') = keygen (statsT w) + 1 /\
    settingsRow w' =
      Some (Settings.mk (Some key) None 14 None None None None
                        (Some (DateObj (Some (clock w (S (S (reads w)))))))
                        (Some (DateObj (Some (clock w (S (S (S (reads w))))))))) /\
    entriesT w' = entriesT w /\ drive w' = drive w /\ log w' = log w /\
    initialized w'.
Proof.
  intros Hq Hs Hn.
  destruct w as [[rs kg] en se dr fr cr cl rd fa ca lg].
  unfold quiet in Hq. cbn in Hq, Hs, Hn. subst rs se.
  unfold initializeDatabase. repeat (boot Hq; unfold tableAdd; cbn).
  eexists. repeat split. - discriminate. - eexists. split; [reflexivity|discriminate].
Qed.

Ltac boot_in E :=
  cbv [bind ret throw await_io newDate emit getWorld putTable count add settingsCount
       addSettings creatingHook
       tget tset statsRef entriesRef
       set_calls set_reads set_log set_drive set_created set_settingsRow
       set_statsT set_entriesT
       statsT entriesT settingsRow drive freshId created clock reads fault calls log] in E.

Lemma initializeDatabase_settled (key : positive) (w : World) (r : Result unit)
    (w' : World) :
  rows (statsT w) <> [] -> settingsRow w <> None ->
  initializeDatabase key w = (r, w') ->
  tables w' = tables w /\ settingsRow w' = settingsRow w /\ drive w' = drive w /\
  log w' = log w.
Proof.
  intros Hs Hn E.
  destruct w as [[rs kg] en se dr fr cr cl rd fa ca lg]. cbn in Hs, Hn.
  destruct rs as [|s0 rs]; [contradiction|]. destruct se as [s|]; [|contradiction].
  unfold initializeDatabase in E. boot_in E.
  destruct (fa ca); [injection E as _ <-; repeat split|].
  cbn in E. destruct (fa (S ca)); injection E as _ <-; repeat split.
Qed.

(** X10. initializeDatabase never changes a store that has a stat and its
    settings row, whichever calls fail; and when it returns, the store has
    a stat and a settings row with its key, the rows that were there are
    still there, so that running it again changes nothing. *)
Theorem initializeDatabase_idempotent (key key' : positive) (w w1 : World) :
  settingsKeyed w ->
  initializeDatabase key w = (Ok tt, w1) ->
  initialized w1 /\
  (rows (statsT w) <> [] -> statsT w1 = statsT w) /\
  (settingsRow w <> None -> settingsRow w1 = settingsRow w) /\
  entriesT w1 = entriesT w /\ drive w1 = drive w /\
  forall r w2,
    initializeDatabase key' w1 = (r, w2) ->
    tables w2 = tables w1 /\ settingsRow w2 = settingsRow w1 /\ drive w2 = drive w1.
Proof.
  intros Hk E.
  assert (G : initialized w1 /\
              (rows (statsT w) <> [] -> statsT w1 = statsT w) /\
              (settingsRow w <> None -> settingsRow w1 = settingsRow w) /\
              entriesT w1 = entriesT w /\ drive w1 = drive w).
  { destruct w as [[rs kg] en se dr fr cr cl rd fa ca lg].
    unfold settingsKeyed, initialized in *. cbn in Hk.
    unfold initializeDatabase in E. boot_in E.
    destruct (fa ca); [discriminate E|].
    destruct rs as [|s0 rs]; cbn in E.
    - destruct (fa (S ca)); [discriminate E|].
      unfold tableAdd in E. cbn in E.
      destruct (fa (S (S ca))); [discriminate E|].
      destruct se as [s|]; cbn in E.
      + injection E as <-. cbn. repeat split; try discriminate; try contradiction.
        exists s. split; [reflexivity|exact (Hk s eq_refl)].
      + destruct (fa (S (S (S ca)))); [discriminate E|].
        injection E as <-. cbn. repeat split; try discriminate; try contradiction.
        eexists. split; [reflexivity|discriminate].
    - destruct (fa (S ca)); [discriminate E|].
      destruct se as [s|]; cbn in E.
      + injection E as <-. cbn. repeat split; try discriminate.
        exists s. split; [reflexivity|exact (Hk s eq_refl)].
      + destruct (fa (S (S ca))); [discriminate E|].
        injection E as <-. cbn. repeat split; try discriminate; try contradiction.
        eexists. split; [reflexivity|discriminate]. }
  destruct G as (I & G1 & G2 & G3 & G4).
  split; [exact I|]. split; [exact G1|]. split; [exact G2|]. split; [exact G3|].
  split; [exact G4|].
  intros r w2 E2. destruct I as (Hs & s & Hse & _).
  destruct (initializeDatabase_settled key' w1 r w2 Hs ltac:(congruence) E2)
    as (T & S & D & _).
  repeat split; assumption.
Qed.

(** * db.ts: getNextColor *)

Lemma used_colour (c : string) (used : list string) :
  existsb (String.eqb c) used = true <-> In c used.
Proof.
  rewrite existsb_exists. split.
  - intros (x & Hx & E). apply String.eqb_eq in E. subst x. exact Hx.
  - intros H. exists c. split; [exact H|apply String.eqb_refl].
Qed.

Lemma palette_distinct : NoDup DEFAULT_COLORS.
Proof.
  unfold DEFAULT_COLORS.
  repeat (constructor; [cbn; intros H; repeat (destruct H as [H|H]; [discriminate H|]);
                        exact H|]).
  constructor.
Qed.

(** X11. getNextColor always answers with a colour of the palette. As long
    as a colour of the palette is unused, it answers with the first unused
    one in palette order, whatever the random number; that is so whenever
    there are fewer than eight stats. Only when all eight colours are in
    use does the random number choose. *)
Theorem getNextColor_unused (random : nat) (existingStats : list Stat.t) :
  (random < 8)%nat ->
  let used := map Stat.color existingStats in
  let c := getNextColor random existingStats in
  In c DEFAULT_COLORS /\
  ((List.length existingStats < 8)%nat -> ~ In c used) /\
  (~ In c used ->
     exists before after,
       DEFAULT_COLORS = (before ++ c :: after)%list /\ forall b, In b before -> In b used) /\
  (In c used -> (forall d, In d DEFAULT_COLORS -> In d used) /\
                c = nth random DEFAULT_COLORS "").
Proof.
  intros Hr used c. subst c. unfold getNextColor. fold used.
  destruct (find (fun c => negb (existsb (String.eqb c) used)) DEFAULT_COLORS)
    as [a|] eqn:F.
  - destruct (find_some _ _ F) as [Hin Hun].
    assert (Ha : ~ In a used).
    { intros H. apply used_colour in H. rewrite H in Hun. discriminate Hun. }
    split; [exact Hin|]. split; [intros _; exact Ha|]. split; [|intros H; contradiction].
    intros _. clear Hin Hun Ha. revert F. generalize DEFAULT_COLORS.
    induction l as [|x l IH]; cbn [find]; [discriminate|].
    destruct (existsb (String.eqb x) used) eqn:Ex; cbn [negb].
    + intros F. destruct (IH F) as (before & after & -> & Hb).
      exists (x :: before), after. split; [reflexivity|].
      intros b [<-|Hin]; [apply used_colour; exact Ex|exact (Hb b Hin)].
    + intros F. injection F as <-. exists [], l. split; [reflexivity|intros b []].
  - assert (Hall : forall d, In d DEFAULT_COLORS -> In d used).
    { intros d Hd. pose proof (find_none _ _ F d Hd) as H. cbn in H.
      apply negb_false_iff in H. apply used_colour. exact H. }
    split; [apply nth_In; exact Hr|]. split; [|split].
    + intros Hlen. exfalso.
      pose proof (NoDup_incl_length palette_distinct Hall) as L.
      unfold used in L. rewrite length_map in L. cbn in L. lia.
    + intros Hn. exfalso. apply Hn. apply Hall. apply nth_In. exact Hr.
    + intros _. split; [exact Hall|reflexivity].
Qed.

(** * db.ts: getTodayDateString *)

Lemma firstField_app (sep : ascii) (s r : string) :
  avoids sep s = true -> firstField sep (s ++ String sep r) = s.
Proof.
  induction s as [|c s IH]; cbn [append firstField avoids].
  - intros _. rewrite Ascii.eqb_refl. reflexivity.
  - intros H. apply andb_true_iff in H. destruct H as [Hc Hs].
    apply negb_true_iff in Hc. rewrite Hc, IH by exact Hs. reflexivity.
Qed.

Lemma firstField_skip (sep : ascii) (a b : string) :
  avoids sep a = true -> firstField sep (a ++ b) = a ++ firstField sep b.
Proof.
  induction a as [|c a IH]; cbn [append firstField avoids]; [reflexivity|].
  intros H. apply andb_true_iff in H. destruct H as [Hc Ha].
  apply negb_true_iff in Hc. rewrite Hc, IH by exact Ha. reflexivity.
Qed.

Lemma avoids_app (c : ascii) (a b : string) :
  avoids c (a ++ b) = avoids c a && avoids c b.
Proof.
  induction a as [|x a IH]; cbn [append avoids]; [reflexivity|].
  rewrite IH. apply andb_assoc.
Qed.

Lemma avoids_digits (c : ascii) (k : nat) :
  charCode c > 57 ->
  forall n acc, avoids c (digits k n acc) = avoids c acc.
Proof.
  intros Hc. induction k as [|k IH]; intros n acc; cbn [digits]; [reflexivity|].
  rewrite IH. cbn [avoids].
  replace (Ascii.eqb (digit n) c) with false; [reflexivity|].
  symmetry. apply Ascii.eqb_neq. intros E.
  pose proof (charCode_digit n) as G. rewrite E in G.
  assert (H : 0 <= n mod 10 < 10) by (apply Z.mod_pos_bound; lia). lia.
Qed.

Lemma avoids_year (y : Z) : avoids "T" (yearToString y) = true.
Proof.
  unfold yearToString, pad.
  destruct ((0 <=? y) && (y <=? 9999)); [|destruct (y <? 0)]; cbn [append avoids];
    rewrite ?avoids_digits by (cbn; lia); reflexivity.
Qed.

(** The date part of what toISOString writes. *)
Lemma firstField_toISOString (t : Z) :
  firstField "T" (toISOString t) =
  let '(y, m, d) := civilFromDays (t / msPerDay) in
  yearToString y ++ "-" ++ pad 2 m ++ "-" ++ pad 2 d.
Proof.
  unfold toISOString. cbv zeta.
  destruct (civilFromDays (t / msPerDay)) as [[y m] d].
  assert (Hpad : forall n, avoids "T" (pad 2 n) = true).
  { intros n. unfold pad. rewrite avoids_digits by (cbn; lia). reflexivity. }
  rewrite firstField_skip by apply avoids_year.
  rewrite (firstField_skip "T" "-") by reflexivity.
  rewrite firstField_skip by apply Hpad.
  rewrite (firstField_skip "T" "-") by reflexivity.
  cbn [append]. rewrite firstField_app by apply Hpad. reflexivity.
Qed.

Lemma toISOString_midnight (day : Z) :
  toISOString (day * msPerDay) =
  (let '(y, m, d) := civilFromDays day in
   yearToString y ++ "-" ++ pad 2 m ++ "-" ++ pad 2 d) ++ "T00:00:00.000Z".
Proof.
  unfold toISOString. cbv zeta.
  rewrite Z.div_mul by (unfold msPerDay; lia).
  rewrite Z.mod_mul by (unfold msPerDay; lia).
  destruct (civilFromDays day) as [[y m] d].
  change (pad 2 (0 / 3600000)) with "00". change (pad 2 (0 / 60000 mod 60)) with "00".
  change (pad 2 (0 / 1000 mod 60)) with "00". change (pad 3 (0 mod 1000)) with "000".
  assert (A : forall a b c : string, (a ++ b) ++ c = a ++ b ++ c).
  { intros a b c. induction a as [|x a IH]; cbn; [reflexivity|]. rewrite IH. reflexivity. }
  rewrite !A. reflexivity.
Qed.

Lemma year_of_our_era (day : Z) :
  0 <= day < 2932897 ->
  let '(y, m, d) := civilFromDays day in 0 <= y <= 9999.
Proof.
  intros Hd. pose proof (civil_round_trip day) as C.
  destruct (civilFromDays day) as [[y m] d].
  destruct C as (E & Hm & Hdd & _).
  unfold daysFromCivil in E. cbv zeta in E.
  destruct (Z.leb_spec m 2); destruct (Z.ltb_spec 2 m); try lia;
    split; Z.div_mod_to_equations; lia.
Qed.

Lemma length_digits (k : nat) : forall n acc,
  String.length (digits k n acc) = (k + String.length acc)%nat.
Proof.
  induction k as [|k IH]; intros n acc; cbn [digits]; [reflexivity|].
  rewrite IH. cbn [String.length]. lia.
Qed.

Lemma length_append (a b : string) :
  String.length (a ++ b) = (String.length a + String.length b)%nat.
Proof. induction a as [|c a IH]; cbn; [reflexivity|]. rewrite IH. reflexivity. Qed.

(** X12. getTodayDateString names the day of the clock in universal time:
    read back by [Date.parse] as the midnight that begins it, its answer
    gives the start of the day of 86400000 milliseconds that holds the
    clock reading (not the day of the local time zone). From 1970 to the
    year 9999 it has the ten characters YYYY-MM-DD. *)
Theorem today_is_the_utc_day (w : World) :
  validTime (clock w (reads w)) ->
  let now := clock w (reads w) in
  exists today w',
    getTodayDateString w = (Ok today, w') /\
    isoParse (today ++ "T00:00:00.000Z") = Some (now / msPerDay * msPerDay) /\
    now / msPerDay * msPerDay <= now < now / msPerDay * msPerDay + msPerDay /\
    (0 <= now < 253402300800000 ->
     String.length today = 10%nat /\
     exists y m d, 0 <= y <= 9999 /\ 1 <= m <= 12 /\ 1 <= d <= 31 /\
                   today = pad 4 y ++ "-" ++ pad 2 m ++ "-" ++ pad 2 d).
Proof.
  intros Hv now.
  exists (firstField "T" (toISOString now)), (set_reads (S (reads w)) w).
  split; [reflexivity|].
  assert (Hday : now / msPerDay * msPerDay <= now < now / msPerDay * msPerDay + msPerDay).
  { unfold msPerDay. Z.div_mod_to_equations. lia. }
  split; [|split; [exact Hday|]].
  - rewrite firstField_toISOString, <- toISOString_midnight.
    apply isoParse_toISOString. unfold validTime, msPerDay in *.
    fold now in Hv. Z.div_mod_to_equations. lia.
  - intros Hn. rewrite firstField_toISOString.
    assert (Hd : 0 <= now / msPerDay < 2932897)
      by (unfold msPerDay; Z.div_mod_to_equations; lia).
    pose proof (year_of_our_era _ Hd) as Hy.
    pose proof (civil_round_trip (now / msPerDay)) as C.
    destruct (civilFromDays (now / msPerDay)) as [[y m] d].
    destruct C as (_ & Hm & Hdd & _).
    unfold yearToString.
    destruct (Z.leb_spec 0 y); [|lia]. destruct (Z.leb_spec y 9999); [|lia]. cbn [andb].
    split.
    + rewrite !length_append. unfold pad. rewrite !length_digits. reflexivity.
    + exists y, m, d. repeat split; try lia.
Qed.

(** * Import: what is refused and what is not *)

Section ImportEdges.

Variable Date_parse : string -> option Z.

#[local] Existing Instance StatLaws.
#[local] Existing Instance EntryLaws.

Lemma tableAdd_rows {A : Type} `{RowLaws A} (obj : A) (t t' : Table A) (k : Z) :
  tableAdd obj t = Some t' ->
  (hasKey k (rows t) = true -> hasKey k (rows t') = true) /\
  (row_id obj = Some k -> hasKey k (rows t) = false /\ hasKey k (rows t') = true).
Proof.
  intros E. destruct (tableAdd_Some obj t t' E) as (key & Hkey & Hin & _).
  split.
  - intros Hk. apply hasKey_true in Hk. destruct Hk as (r & Hr & Hid).
    apply hasKey_true. exists r. split; [apply Hin; right; exact Hr|exact Hid].
  - intros Hid. rewrite Hid in Hkey. subst key. split.
    + unfold tableAdd in E. rewrite Hid in E.
      destruct (hasKey k (rows t)); [discriminate E|reflexivity].
    + apply hasKey_true. exists (with_id k obj).
      split; [apply Hin; left; reflexivity|apply id_with_id].
Qed.

Lemma stampAll_present {A : Type} `{RowLaws A} (clock : nat -> Z) (k : Z) (b : A)
    (items : list A) :
  In b items -> row_id b = Some k ->
  forall t n, hasKey k (rows t) = true -> fst (stampAll items t clock n) = None.
Proof.
  intros Hin Hb. induction items as [|o rest IH]; [destruct Hin|].
  intros t n Hk. cbn [stampAll].
  destruct (tableAdd _ t) as [t'|] eqn:E; [|reflexivity].
  destruct (tableAdd_rows _ t t' k E) as [Hmono Hnew].
  destruct Hin as [->|Hin].
  - rewrite id_with_stamps in Hnew. destruct (Hnew Hb) as [Hf _]. congruence.
  - apply IH; [exact Hin|exact (Hmono Hk)].
Qed.

Lemma stampAll_repeated {A : Type} `{RowLaws A} (clock : nat -> Z) (k : Z) (a b : A)
    (l1 l2 l3 : list A) :
  row_id a = Some k -> row_id b = Some k ->
  forall t n, fst (stampAll (l1 ++ a :: l2 ++ b :: l3) t clock n) = None.
Proof.
  intros Ha Hb. induction l1 as [|o l1 IH]; intros t n; cbn [app stampAll].
  - destruct (tableAdd _ t) as [t'|] eqn:E; [|reflexivity].
    destruct (tableAdd_rows _ t t' k E) as [_ Hnew].
    rewrite id_with_stamps in Hnew. destruct (Hnew Ha) as [_ Hk].
    apply (stampAll_present clock k b); [|exact Hb|exact Hk].
    apply in_or_app. right. left. reflexivity.
  - destruct (tableAdd _ t) as [t'|]; [apply IH|reflexivity].
Qed.

Lemma repeated_map {A B : Type} (f : A -> B) (a b : A) (l1 l2 l3 : list A) :
  map f (l1 ++ a :: l2 ++ b :: l3) = (map f l1 ++ f a :: map f l2 ++ f b :: map f l3)%list.
Proof. rewrite map_app. cbn [map]. rewrite map_app. reflexivity. Qed.

Lemma import_repeated_stat (ss : list Stat.t) (es : list Entry.t) (x : string)
    (w : World) (k : Z) (a b : Stat.t) (l1 l2 l3 : list Stat.t) :
  ss = (l1 ++ a :: l2 ++ b :: l3)%list -> Stat.id a = Some k -> Stat.id b = Some k ->
  fst (importData Date_parse (importText ss es x) w) <> Ok tt.
Proof.
  intros Hss Ha Hb Hok.
  destruct (importData Date_parse (importText ss es x) w) as [[[]|e] w'] eqn:E;
    [|discriminate Hok].
  destruct (importData_inv _ _ _ _ E) as (d & ss0 & es0 & n & Ht & Hs & _ & S1 & _).
  unfold importText in Ht. injection Ht as <-.
  rewrite itemsToImport_stats in Hs. injection Hs as <-.
  rewrite Hss, repeated_map in S1.
  set (f := fun s => rehydrate Date_parse (wireStat s)).
  pose proof (@stampAll_repeated Stat.t StatRow StatLaws (clock w) k (f a) (f b)
                (map f l1) (map f l2) (map f l3) Ha Hb
                (mkTable [] (keygen (statsT w))) (reads w)) as F.
  assert (G : fst (Some (statsT w'), n) = None) by (rewrite <- S1; exact F).
  discriminate G.
Qed.

Lemma import_repeated_entry (ss : list Stat.t) (es : list Entry.t) (x : string)
    (w : World) (k : Z) (a b : Entry.t) (l1 l2 l3 : list Entry.t) :
  es = (l1 ++ a :: l2 ++ b :: l3)%list -> Entry.id a = Some k -> Entry.id b = Some k ->
  fst (importData Date_parse (importText ss es x) w) <> Ok tt.
Proof.
  intros Hes Ha Hb Hok.
  destruct (importData Date_parse (importText ss es x) w) as [[[]|e] w'] eqn:E;
    [|discriminate Hok].
  destruct (importData_inv _ _ _ _ E) as (d & ss0 & es0 & n & Ht & _ & Hs & _ & S2 & _).
  unfold importText in Ht. injection Ht as <-.
  rewrite itemsToImport_entries in Hs. injection Hs as <-.
  rewrite Hes, repeated_map in S2.
  set (f := fun e => rehydrate Date_parse (wireEntry e)).
  pose proof (@stampAll_repeated Entry.t EntryRow EntryLaws (clock w) k (f a) (f b)
                (map f l1) (map f l2) (map f l3) Ha Hb
                (mkTable [] (keygen (entriesT w))) n) as F.
  assert (G : fst (Some (entriesT w'), reads w') = None) by (rewrite <- S2; exact F).
  discriminate G.
Qed.

(** X13. When the import fails, whatever the reason (a text that is not
    JSON, a record with a key that is taken, a rejected call), the user is
    told that the file format is invalid and both tables are as they were.
    A file in which two stats, or two entries, have the same identifier
    always fails so, though it is well-formed. *)
Theorem import_failure_keeps_store :
  (forall text w,
      let '(msg, w') := handleImportFile Date_parse text w in
      (msg = "" /\ fst (importData Date_parse text w) = Ok tt) \/
      (msg = "failed to import: invalid file format" /\ tables w' = tables w)) /\
  (forall w, fst (handleImportFile Date_parse NotJSON w)
             = "failed to import: invalid file format") /\
  (forall ss es x w k (a b : Stat.t) l1 l2 l3,
      ss = (l1 ++ a :: l2 ++ b :: l3)%list -> Stat.id a = Some k -> Stat.id b = Some k ->
      fst (handleImportFile Date_parse (importText ss es x) w)
      = "failed to import: invalid file format") /\
  (forall ss es x w k (a b : Entry.t) l1 l2 l3,
      es = (l1 ++ a :: l2 ++ b :: l3)%list -> Entry.id a = Some k -> Entry.id b = Some k ->
      fst (handleImportFile Date_parse (importText ss es x) w)
      = "failed to import: invalid file format").
Proof.
  split; [|split; [|split]].
  - intros text w. unfold handleImportFile.
    destruct (importData Date_parse text w) as [[[]|e] w'] eqn:E.
    + left. split; reflexivity.
    + right. split; [reflexivity|].
      destruct (importData_atomic _ _ _ _ _ E) as [Hs He].
      unfold tables. rewrite Hs, He. reflexivity.
  - intros w. reflexivity.
  - intros ss es x w k a b l1 l2 l3 Hss Ha Hb. unfold handleImportFile.
    pose proof (import_repeated_stat ss es x w k a b l1 l2 l3 Hss Ha Hb) as H.
    destruct (importData Date_parse (importText ss es x) w) as [[[]|e] w'];
      [exfalso; apply H; reflexivity|reflexivity].
  - intros ss es x w k a b l1 l2 l3 Hes Ha Hb. unfold handleImportFile.
    pose proof (import_repeated_entry ss es x w k a b l1 l2 l3 Hes Ha Hb) as H.
    destruct (importData Date_parse (importText ss es x) w) as [[[]|e] w'];
      [exfalso; apply H; reflexivity|reflexivity].
Qed.

(** X14. importData checks no shape: given the text of a number, a string,
    a boolean, an array or an object without the members stats and
    entries, it reports no error and leaves both tables empty. *)
Theorem import_without_records_empties_store (data : json) (w : World) :
  quiet w -> holdsNoRecords data ->
  exists w',
    handleImportFile Date_parse (TextOf data) w = ("", w') /\
    rows (statsT w') = [] /\ rows (entriesT w') = [] /\
    keygen (statsT w') = keygen (statsT w) /\ keygen (entriesT w') = keygen (entriesT w) /\
    settingsRow w' = settingsRow w /\ drive w' = drive w.
Proof.
  intros Hq Hd.
  assert (Hs : itemsToImport Date_parse "stats" statOfJSON data = Ok []).
  { unfold itemsToImport, arrayToImport.
    destruct data as [| | | | |m]; try reflexivity; [contradiction|].
    destruct Hd as [-> _]. reflexivity. }
  assert (He : itemsToImport Date_parse "entries" entryOfJSON data = Ok []).
  { unfold itemsToImport, arrayToImport.
    destruct data as [| | | | |m]; try reflexivity; [contradiction|].
    destruct Hd as [_ ->]. reflexivity. }
  destruct (importData_quiet Date_parse data [] [] _ _ _ _ w Hq Hs He eq_refl eq_refl)
    as (w' & E & Hst & Hen & _ & Hse & Hdr).
  exists w'. unfold handleImportFile. rewrite E. rewrite Hst, Hen.
  repeat split; assumption.
Qed.

End ImportEdges.

(** * Signing in and the callers of the sync service *)

Lemma truthyString_Some (tok : string) : tok <> "" -> truthyString (Some tok) = true.
Proof.
  intros H. cbn. destruct (String.eqb_spec tok ""); [contradiction|reflexivity].
Qed.

(** X15. A token obtained at the time [t0] with a lifetime of [L] seconds
    (its expiry, [t0 + 1000 L], not being the time value 0) is handed out
    by getValidAccessToken as long as the clock is at least five minutes
    short of its expiry, and withheld from then on; after a sign-out
    nothing is handed out. *)
Theorem token_withheld_before_expiry (tok : string) (L : Z)
    (userInfo : option (option string * option string)) (t0 : Z) (w : World) :
  tok <> "" -> t0 + L * 1000 <> 0 ->
  let now := clock w (reads w) in
  fst (getValidAccessToken (onSuccess tok L userInfo t0) w) =
    Ok (if now <=? t0 + L * 1000 - 300000 then Some tok else None) /\
  fst (getValidAccessToken handleLogout w) = Ok None.
Proof.
  intros Ht He now. split; [|reflexivity].
  unfold getValidAccessToken.
  assert (E : GoogleAuthState.accessToken (onSuccess tok L userInfo t0) = Some tok)
    by (destruct userInfo as [[e p]|]; reflexivity).
  assert (E' : GoogleAuthState.expiresAt (onSuccess tok L userInfo t0)
               = Some (t0 + L * 1000))
    by (destruct userInfo as [[e p]|]; reflexivity).
  rewrite E, E', truthyString_Some by exact Ht. cbn [negb].
  destruct (Z.eqb_spec (t0 + L * 1000) 0) as [H0|_]; [contradiction|].
  unfold bind, newDate, ret. fold now.
  destruct (Z.ltb_spec (t0 + L * 1000 - 300000) now);
    destruct (Z.leb_spec now (t0 + L * 1000 - 300000)); try lia; reflexivity.
Qed.

Section CallerProperties.

Variable Date_parse : string -> option Z.

Lemma keeps_getValidAccessToken {X : Type} (f : World -> X)
    (authState : GoogleAuthState.t) :
  bookkeepingFree f -> keeps f (getValidAccessToken authState).
Proof.
  intros Hf. unfold getValidAccessToken.
  destruct (negb _); [apply keeps_ret|].
  destruct (GoogleAuthState.expiresAt authState) as [e|]; [|apply keeps_ret].
  destruct (e =? 0); [apply keeps_ret|].
  apply keeps_bind; [apply keeps_newDate; exact Hf|intros now].
  destruct (_ <? _); apply keeps_ret.
Qed.

Lemma keeps_awaitSync {X : Type} (f : World -> X) (tok : string)
    (res : option ConflictResolution) :
  keeps f (syncBody Date_parse tok res) -> keeps f (awaitSync Date_parse tok res).
Proof.
  intros H w r w' E. unfold awaitSync in E.
  pose proof (keeps_performSync Date_parse f tok res w H) as K.
  destruct (performSync Date_parse tok res w) as [r0 w0]. injection E as _ <-. exact K.
Qed.

Lemma awaitSync_answers (tok : string) (res : option ConflictResolution) (w : World) :
  awaitSync Date_parse tok res w =
  (Ok (fst (performSync Date_parse tok res w)), snd (performSync Date_parse tok res w)).
Proof.
  unfold awaitSync. destruct (performSync Date_parse tok res w). reflexivity.
Qed.

Lemma keeps_triggerSync (onLine : bool) (authState : GoogleAuthState.t)
    (onConflict : bool) :
  keeps tables (triggerSync Date_parse onLine authState onConflict).
Proof.
  unfold triggerSync.
  destruct (negb onLine); [apply keeps_ret|].
  destruct (negb (isAuthenticated authState)); [apply keeps_ret|].
  apply keeps_bind; [apply keeps_getSettings; exact tables_bookkeepingFree|intros settings].
  destruct (Settings.syncEnabled settings) as [[|]|]; try apply keeps_ret.
  apply keeps_bind;
    [apply keeps_getValidAccessToken; exact tables_bookkeepingFree|intros [token|]];
    [|apply keeps_ret].
  apply keeps_bind.
  - apply keeps_awaitSync.
    apply keeps_syncBody;
      [exact tables_bookkeepingFree|exact tables_settingsFree|exact tables_driveFree|].
    intros H; congruence.
  - intros result. destruct (isConflict result && onConflict); apply keeps_ret.
Qed.

(** X16. The automatic synchronisation never changes the stats and entries
    tables. Unless the browser is online, a token is held and the user has
    switched the automatic backup on, it calls neither Drive nor the
    settings write: the trace, the remote folder and the settings row are
    as they were, and its callback is not called. The only result it ever
    hands to its callback is a conflict. *)
Theorem auto_sync_guarded (onLine : bool) (authState : GoogleAuthState.t)
    (onConflict : bool) (w : World) :
  let '(r, w') := triggerSync Date_parse onLine authState onConflict w in
  tables w' = tables w /\
  (onLine = false \/ isAuthenticated authState = false \/ ~ syncSwitchedOn w ->
   (forall res, r <> Ok (Some res)) /\
   log w' = log w /\ drive w' = drive w /\ settingsRow w' = settingsRow w) /\
  (forall res, r = Ok (Some res) -> status res = StConflict /\ onConflict = true).
Proof.
  destruct (triggerSync Date_parse onLine authState onConflict w) as [r w'] eqn:E.
  split; [exact (keeps_triggerSync onLine authState onConflict _ _ _ E)|].
  unfold triggerSync in E.
  destruct onLine; cbn [negb] in E;
    [|injection E as <- <-; repeat split; easy].
  destruct (isAuthenticated authState) eqn:Ha; cbn [negb] in E;
    [|injection E as <- <-; repeat split; easy].
  unfold bind at 1 in E. unfold getSettings, bind, await_io, getWorld, ret in E.
  destruct (fault w (calls w)) as [e|].
  { injection E as <- <-. repeat split; easy. }
  cbn [settingsRow set_calls] in E.
  destruct (settingsRow w) as [s|] eqn:Hs.
  - destruct (Settings.syncEnabled s) as [[|]|] eqn:Hen.
    + split.
      * intros [H|[H|H]]; try discriminate. exfalso. apply H. exists s. split; assumption.
      * destruct (getValidAccessToken authState _) as [[[token|]|e] w1];
          [|injection E as <- <-; intros res; discriminate
           |injection E as <- <-; intros res; discriminate].
        rewrite awaitSync_answers in E.
        cbv beta iota in E.
        destruct (isConflict _) eqn:Hc; destruct onConflict; cbn [andb] in E;
          cbv beta iota in E; injection E as <- <-; intros res Hr; try discriminate Hr.
        injection Hr as <-. split; [|reflexivity].
        unfold isConflict in Hc. destruct (status _); try discriminate Hc. reflexivity.
    + injection E as <- <-. repeat split; easy.
    + injection E as <- <-. repeat split; easy.
  - cbn [Settings.syncEnabled DEFAULT_SETTINGS] in E.
    injection E as <- <-. repeat split; easy.
Qed.

Lemma token_handed (authState : GoogleAuthState.t) (tok : string) (w : World) :
  tokenStaysValid authState tok w ->
  exists n, getValidAccessToken authState w = (Ok (Some tok), set_reads n w).
Proof.
  intros (Ht & Hne & Hv). unfold getValidAccessToken.
  rewrite Ht, truthyString_Some by exact Hne. cbn [negb].
  destruct (GoogleAuthState.expiresAt authState) as [e|].
  - destruct (e =? 0).
    + exists (reads w). rewrite set_reads_same. reflexivity.
    + unfold bind, newDate, ret.
      destruct (Z.ltb_spec (e - 300000) (clock w (reads w))) as [H|_].
      * pose proof (Hv e eq_refl (reads w)). lia.
      * exists (S (reads w)). reflexivity.
  - exists (reads w). rewrite set_reads_same. reflexivity.
Qed.

Lemma token_world (authState : GoogleAuthState.t) (w : World) (r : Result (option string))
    (w' : World) :
  getValidAccessToken authState w = (r, w') -> exists n, w' = set_reads n w.
Proof.
  unfold getValidAccessToken, bind, newDate, ret. intros E.
  assert (Same : w = set_reads (reads w) w) by (symmetry; apply set_reads_same).
  destruct (negb _); [injection E as _ <-; exists (reads w); exact Same|].
  destruct (GoogleAuthState.expiresAt authState) as [e|];
    [|injection E as _ <-; exists (reads w); exact Same].
  destruct (e =? 0); [injection E as _ <-; exists (reads w); exact Same|].
  destruct (_ <? _); injection E as _ <-; exists (S (reads w)); reflexivity.
Qed.

Lemma bothChanged_later (w : World) (fid : FileId) (cloud : BackupFile) (n : nat) :
  bothChanged w fid cloud -> bothChanged (set_reads n w) fid cloud.
Proof. intros H. exact H. Qed.

Lemma bothChanged_same (w w' : World) (fid : FileId) (cloud : BackupFile) :
  tables w' = tables w -> drive w' = drive w -> settingsRow w' = settingsRow w ->
  bothChanged w fid cloud -> bothChanged w' fid cloud.
Proof.
  intros Ht Hd Hs (Hr & Hne & Hw). apply localData_tables in Ht.
  unfold bothChanged, remoteBackup, watermark in *. rewrite Hd, Hs, Ht.
  repeat split; assumption.
Qed.

(** X17. The conflict dialog of the sync section, from end to end: with a
    token that stays valid and no call rejected, a manual sync of data that
    have changed on both sides changes nothing, leaves the section idle and
    opens the dialog on the conflict (the cloud backup file and the local
    one); choosing keep-local there closes the dialog, shows the success
    message and leaves the local data in the remote file, the tables being
    as they were. *)
Theorem conflict_dialog_keep_local (authState : GoogleAuthState.t) (tok : string)
    (ui : SectionState) (w : World) (fid : FileId) (cloud : BackupFile) :
  quiet w -> tokenStaysValid authState tok w -> bothChanged w fid cloud ->
  exists r w1,
    handleManualSync Date_parse authState ui w =
      (Ok (mkSection UiIdle (syncMessage ui) (Some r)), w1) /\
    status r = StConflict /\ cloudBackup r = Some cloud /\
    option_map data (localBackup r) = Some (localData w) /\
    tables w1 = tables w /\ drive w1 = drive w /\ settingsRow w1 = settingsRow w /\
    exists w2 t,
      handleConflictResolution Date_parse authState KeepLocal
        (mkSection UiIdle (syncMessage ui) (Some r)) w1 =
        (Ok (mkSection UiSuccess "Local data uploaded to cloud" None), w2) /\
      remoteBackup w2 = Some (fid, wireBackup (builtAt t (localData w))) /\
      tables w2 = tables w.
Proof.
  intros Hq Hv Hc.
  destruct (token_handed authState tok w Hv) as (n & Et).
  destruct (run_conflict Date_parse tok (set_reads n w) fid cloud Hq
              (proj1 Hc) (proj1 (proj2 Hc)) (proj2 (proj2 Hc)))
    as (w1 & E1 & T1 & D1 & S1).
  eexists _, w1. split.
  { unfold handleManualSync, bind. rewrite Et, awaitSync_answers, E1. reflexivity. }
  split; [reflexivity|]. split; [reflexivity|]. split; [reflexivity|].
  split; [exact T1|]. split; [exact D1|]. split; [exact S1|].
  assert (Env : environment w1 = environment (set_reads n w)).
  { pose proof (keeps_performSync Date_parse environment tok None (set_reads n w)) as K.
    rewrite E1 in K. apply K.
    apply keeps_syncBody;
      [exact environment_bookkeepingFree|exact environment_settingsFree
      |exact environment_driveFree|intros _ _; exact environment_tablesFree]. }
  unfold environment in Env. cbn [fault clock freshId set_reads] in Env.
  injection Env as Hf Hcl _.
  assert (Hq1 : quiet w1) by (intros k; rewrite Hf; apply Hq).
  assert (Hv1 : tokenStaysValid authState tok w1).
  { destruct Hv as (A & B & C). repeat split; try assumption.
    intros e He k. rewrite Hcl. exact (C e He k). }
  destruct (token_handed authState tok w1 Hv1) as (n1 & Et1).
  assert (Hc1 : bothChanged (set_reads n1 w1) fid cloud).
  { apply bothChanged_later. apply (bothChanged_same w w1); assumption. }
  destruct (run_keep_local Date_parse tok (set_reads n1 w1) fid cloud Hq1
              (proj1 Hc1) (proj1 (proj2 Hc1)) (proj2 (proj2 Hc1)))
    as (r2 & w2 & E2 & -> & D2 & T2 & _).
  exists w2, (clock w1 n1). split.
  { unfold handleConflictResolution, bind. rewrite Et1, awaitSync_answers, E2.
    reflexivity. }
  cbn [clock reads set_reads localData statsT entriesT] in D2.
  assert (L : localData w1 = localData w) by (apply localData_tables; exact T1).
  split.
  - rewrite <- L. exact (remoteBackup_uploaded _ _ _ D2).
  - rewrite T2. exact T1.
Qed.

(** X18. When getValidAccessToken hands out no token (the user has signed
    out, or the token is within five minutes of its expiry), neither
    handler of the sync section calls the sync service: nothing of the
    store or of the remote folder changes. The manual sync then shows the
    error asking to sign in again; the resolution of a conflict closes the
    dialog and leaves the section in the state syncing. *)
Theorem section_without_token (authState : GoogleAuthState.t)
    (resolution : ConflictResolution) (ui : SectionState) (w w0 : World) :
  getValidAccessToken authState w = (Ok None, w0) ->
  handleManualSync Date_parse authState ui w =
    (Ok (mkSection UiError "Please sign in again" (conflictResult ui)), w0) /\
  handleConflictResolution Date_parse authState resolution ui w =
    (Ok (mkSection UiSyncing (syncMessage ui) None), w0) /\
  tables w0 = tables w /\ drive w0 = drive w /\ settingsRow w0 = settingsRow w /\
  log w0 = log w.
Proof.
  intros E. unfold handleManualSync, handleConflictResolution, bind. rewrite E.
  split; [reflexivity|]. split; [reflexivity|].
  destruct (token_world authState w _ _ E) as [n ->]. repeat split.
Qed.

End CallerProperties.

(** * Settings: deleting a stat *)

Lemma hasKey_filter {A : Type} `{Row A} (k : Z) (p : A -> bool) (l : list A) :
  hasKey k (filter p l) = true <-> exists r, In r l /\ p r = true /\ row_id r = Some k.
Proof.
  unfold hasKey. rewrite existsb_exists. split.
  - intros (r & Hin & Hk). apply filter_In in Hin. destruct Hin as [Hin Hp].
    exists r. repeat split; try assumption.
    unfold keyIs in Hk. destruct (row_id r) as [j|]; [|discriminate].
    apply Z.eqb_eq in Hk. congruence.
  - intros (r & Hin & Hp & Hid). exists r. split; [apply filter_In; split; assumption|].
    unfold keyIs. rewrite Hid. apply Z.eqb_refl.
Qed.

(** X19. Deleting a stat in the settings removes the stat and all its
    entries, and nothing else, in one transaction: when the handler
    returns no entry refers to the stat any more, the other stats and
    entries are there in their order, and if every entry belonged to a
    stat before, every entry still does; when it fails, both tables are as
    they were. When no call rejects it returns. *)
Theorem delete_stat_with_entries (id : Z) (w : World) :
  (forall w',
      handleDelete id w = (Ok tt, w') ->
      rows (statsT w') = filter (fun s => negb (keyIs id s)) (rows (statsT w)) /\
      rows (entriesT w') = filter (fun e => negb (Entry.statId e =? id)) (rows (entriesT w)) /\
      hasKey id (rows (statsT w')) = false /\
      (forall e, In e (rows (entriesT w')) -> Entry.statId e <> id) /\
      (referencesKept w -> referencesKept w') /\
      keygen (statsT w') = keygen (statsT w) /\
      keygen (entriesT w') = keygen (entriesT w) /\
      settingsRow w' = settingsRow w /\ drive w' = drive w) /\
  (forall e w', handleDelete id w = (Throw e, w') -> tables w' = tables w) /\
  (quiet w -> exists w', handleDelete id w = (Ok tt, w')).
Proof.
  split; [|split].
  - intros w' E.
    assert (G : rows (statsT w') = filter (fun s => negb (keyIs id s)) (rows (statsT w)) /\
                rows (entriesT w')
                = filter (fun e => negb (Entry.statId e =? id)) (rows (entriesT w)) /\
                keygen (statsT w') = keygen (statsT w) /\
                keygen (entriesT w') = keygen (entriesT w) /\
                settingsRow w' = settingsRow w /\ drive w' = drive w).
    { destruct w as [st en se dr fr cr cl rd fa ca lg].
      unfold handleDelete, transaction, deleteWhere, bind, await_io, getWorld, putTable in E.
      cbn in E.
      destruct (fa ca); [discriminate E|]. cbn in E.
      destruct (fa (S ca)); [discriminate E|]. cbn in E.
      destruct (fa (S (S ca))); [discriminate E|]. cbn in E.
      destruct (fa (S (S (S ca)))); [discriminate E|].
      injection E as <-. cbn. repeat split. }
    destruct G as (Hs & He & Ks & Ke & Se & Dr).
    split; [exact Hs|]. split; [exact He|].
    assert (Hgone : hasKey id (rows (statsT w')) = false).
    { rewrite Hs. destruct (hasKey id (filter _ _)) eqn:Hk; [|reflexivity].
      apply hasKey_filter in Hk. destruct Hk as (r & _ & Hp & Hid).
      unfold keyIs in Hp. rewrite Hid, Z.eqb_refl in Hp. discriminate Hp. }
    split; [exact Hgone|].
    assert (Hent : forall e, In e (rows (entriesT w')) -> Entry.statId e <> id).
    { intros e Hin. rewrite He in Hin. apply filter_In in Hin. destruct Hin as [_ Hp].
      apply negb_true_iff, Z.eqb_neq in Hp. exact Hp. }
    split; [exact Hent|]. split; [|repeat split; assumption].
    intros Href e Hin. pose proof (Hent e Hin) as Hne.
    rewrite He in Hin. apply filter_In in Hin. destruct Hin as [Hin _].
    pose proof (Href e Hin) as Hk. apply hasKey_true in Hk. destruct Hk as (s & Hs' & Hid).
    rewrite Hs. apply hasKey_filter. exists s. repeat split; try assumption.
    unfold keyIs. rewrite Hid. apply negb_true_iff, Z.eqb_neq. exact Hne.
  - intros e w' E. destruct (transaction_throws _ _ _ _ E) as [Hs He].
    unfold tables. rewrite Hs, He. reflexivity.
  - intros Hq. destruct w as [st en se dr fr cr cl rd fa ca lg].
    unfold quiet in Hq. cbn in Hq.
    unfold handleDelete, transaction, deleteWhere, bind, await_io, getWorld, putTable.
    repeat (cbn; rewrite ?Hq). eexists. reflexivity.
Qed.

(** * Maps in insertion order, grouping, sorting *)

Section KeyedMapFacts.

Context {K V : Type} (eqb : K -> K -> bool).
Hypothesis eqb_eq : forall a b, eqb a b = true <-> a = b.

Lemma eqb_same (a : K) : eqb a a = true.
Proof. apply eqb_eq. reflexivity. Qed.

Lemma eqb_trans_l (a b c : K) : eqb a b = true -> eqb a c = eqb b c.
Proof. intros H. apply eqb_eq in H. subst b. reflexivity. Qed.

Lemma assoc_upsert (k k' : K) (init : V) (change : V -> V) (m : list (K * V)) :
  assoc eqb k' (upsert eqb k init change m) =
  if eqb k k'
  then Some (change (match assoc eqb k m with Some v => v | None => init end))
  else assoc eqb k' m.
Proof.
  induction m as [|[j v] r IH]; cbn [upsert assoc].
  - destruct (eqb k k'); reflexivity.
  - destruct (eqb j k) eqn:Ejk; cbn [assoc].
    + rewrite (eqb_trans_l j k k' Ejk). destruct (eqb k k'); reflexivity.
    + rewrite IH. destruct (eqb j k') eqn:Ejk'; [|reflexivity].
      destruct (eqb k k') eqn:Ekk'; [|reflexivity].
      apply eqb_eq in Ejk', Ekk'. subst. rewrite eqb_same in Ejk. discriminate Ejk.
Qed.

Lemma keys_upsert (k : K) (init : V) (change : V -> V) (m : list (K * V)) :
  map fst (upsert eqb k init change m) =
  (if existsb (fun j => eqb j k) (map fst m) then map fst m else map fst m ++ [k])%list.
Proof.
  induction m as [|[j v] r IH]; cbn [upsert map fst existsb]; [reflexivity|].
  destruct (eqb j k); cbn [orb map fst]; [reflexivity|].
  rewrite IH. destruct (existsb _ _); reflexivity.
Qed.

Lemma keys_upsert_In (k j : K) (init : V) (change : V -> V) (m : list (K * V)) :
  In j (map fst (upsert eqb k init change m)) <-> j = k \/ In j (map fst m).
Proof.
  rewrite keys_upsert. destruct (existsb _ _) eqn:E.
  - split; [intros H; right; exact H|]. intros [->|H]; [|exact H].
    apply existsb_exists in E. destruct E as (x & Hx & Ex). apply eqb_eq in Ex.
    subst x. exact Hx.
  - rewrite in_app_iff. cbn. split; [intros [H|[H|[]]]|intros [H|H]]; auto.
Qed.

Lemma keys_upsert_NoDup (k : K) (init : V) (change : V -> V) (m : list (K * V)) :
  NoDup (map fst m) -> NoDup (map fst (upsert eqb k init change m)).
Proof.
  intros H. rewrite keys_upsert. destruct (existsb _ _) eqn:E; [exact H|].
  apply NoDup_app; [exact H|repeat constructor; intros []|].
  intros j Hj [Ej|[]]. subst j.
  assert (F : existsb (fun x => eqb x k) (map fst m) = true)
    by (apply existsb_exists; exists k; split; [exact Hj|apply eqb_same]).
  congruence.
Qed.

Lemma In_assoc (k : K) (v : V) (m : list (K * V)) :
  NoDup (map fst m) -> (In (k, v) m <-> assoc eqb k m = Some v).
Proof.
  induction m as [|[j u] r IH]; cbn [map fst assoc In]; intros Hnd.
  - split; [intros []|discriminate].
  - inversion Hnd as [|? ? Hnot Hr]; subst.
    destruct (eqb j k) eqn:E.
    + apply eqb_eq in E. subst j. split.
      * intros [H|H]; [congruence|]. exfalso. apply Hnot.
        apply in_map_iff. exists (k, v). split; [reflexivity|exact H].
      * intros H. left. congruence.
    + rewrite <- (IH Hr). split; [|intros H; right; exact H].
      intros [H|H]; [|exact H]. injection H as -> _. rewrite eqb_same in E. discriminate E.
Qed.

Section Collect.

Context {X : Type} (key : X -> K) (step : X -> V -> V) (init : V).

Lemma assoc_collect (l : list X) : forall (m : list (K * V)) (k : K),
  assoc eqb k (collect eqb key step init l m) =
  match filter (fun x => eqb (key x) k) l with
  | [] => assoc eqb k m
  | xs => Some (fold_left (fun v x => step x v) xs
                          (match assoc eqb k m with Some v => v | None => init end))
  end.
Proof.
  induction l as [|x l IH]; intros m k; cbn [collect fold_left filter]; [reflexivity|].
  fold (collect eqb key step init l (upsert eqb (key x) init (step x) m)).
  rewrite IH, assoc_upsert.
  destruct (eqb (key x) k) eqn:E.
  - assert (Ek : key x = k) by (apply eqb_eq; exact E).
    rewrite Ek. cbn [fold_left].
    destruct (filter _ l); reflexivity.
  - destruct (filter _ l); reflexivity.
Qed.

Lemma keys_collect_In (l : list X) : forall (m : list (K * V)) (k : K),
  In k (map fst (collect eqb key step init l m)) <-> In k (map fst m) \/ exists x, In x l /\ key x = k.
Proof.
  induction l as [|x l IH]; intros m k; cbn [collect fold_left].
  - split; [intros H; left; exact H|]. intros [H|(x & [] & _)]. exact H.
  - fold (collect eqb key step init l (upsert eqb (key x) init (step x) m)).
    rewrite IH, keys_upsert_In. split.
    + intros [[->|H]|(y & Hy & Ey)].
      * right. exists x. split; [left; reflexivity|reflexivity].
      * left. exact H.
      * right. exists y. split; [right; exact Hy|exact Ey].
    + intros [H|(y & [->|Hy] & Ey)].
      * left. right. exact H.
      * left. left. symmetry. exact Ey.
      * right. exists y. split; assumption.
Qed.

Lemma keys_collect_NoDup (l : list X) : forall (m : list (K * V)),
  NoDup (map fst m) -> NoDup (map fst (collect eqb key step init l m)).
Proof.
  induction l as [|x l IH]; intros m H; cbn [collect fold_left]; [exact H|].
  apply IH. apply keys_upsert_NoDup. exact H.
Qed.

End Collect.

End KeyedMapFacts.

Lemma fold_append {A B : Type} (f : A -> B) (xs : list A) : forall acc,
  fold_left (fun v x => v ++ [f x])%list xs acc = (acc ++ map f xs)%list.
Proof.
  induction xs as [|x xs IH]; intros acc; cbn [fold_left map].
  - rewrite app_nil_r. reflexivity.
  - rewrite IH, <- app_assoc. reflexivity.
Qed.

Lemma string_eqb_eq (a b : string) : String.eqb a b = true <-> a = b.
Proof. apply String.eqb_eq. Qed.

Lemma insertSorted_perm {A : Type} (before : A -> A -> bool) (x : A) (l : list A) :
  Permutation (insertSorted before x l) (x :: l).
Proof.
  induction l as [|y r IH]; cbn [insertSorted]; [reflexivity|].
  destruct (before x y); [reflexivity|].
  rewrite IH. apply perm_swap.
Qed.

Lemma sortBy_perm {A : Type} (before : A -> A -> bool) (l : list A) :
  Permutation (sortBy before l) l.
Proof.
  induction l as [|x l IH]; cbn [sortBy fold_right]; [reflexivity|].
  fold (sortBy before l). rewrite insertSorted_perm, IH. reflexivity.
Qed.

Lemma insertSorted_sorted {A : Type} (before : A -> A -> bool) (x : A) (l : list A) :
  (forall a b, before a b = true \/ before b a = true) ->
  Sorted (fun a b => before a b = true) l ->
  Sorted (fun a b => before a b = true) (insertSorted before x l).
Proof.
  intros Htot Hs. induction Hs as [|y r Hr IH Hy]; cbn [insertSorted].
  - repeat constructor.
  - destruct (before x y) eqn:E.
    + constructor; [constructor; assumption|constructor; exact E].
    + constructor; [exact IH|].
      assert (Hyx : before y x = true) by (destruct (Htot x y); congruence).
      destruct Hy as [|z r' Hz]; cbn [insertSorted].
      * constructor. exact Hyx.
      * destruct (before x z); constructor; assumption.
Qed.

Lemma sortBy_sorted {A : Type} (before : A -> A -> bool) (l : list A) :
  (forall a b, before a b = true \/ before b a = true) ->
  Sorted (fun a b => before a b = true) (sortBy before l).
Proof.
  intros Htot. induction l as [|x l IH]; cbn [sortBy fold_right]; [constructor|].
  apply insertSorted_sorted; assumption.
Qed.

Lemma concat_perm {A : Type} (l l' : list (list A)) :
  Permutation l l' -> Permutation (List.concat l) (List.concat l').
Proof.
  induction 1; cbn [List.concat].
  - reflexivity.
  - apply Permutation_app_head. assumption.
  - rewrite !app_assoc. apply Permutation_app_tail. apply Permutation_app_comm.
  - etransitivity; eassumption.
Qed.

(** * History: the entries by day *)

Section HistoryFacts.

Variable localeCompare : string -> string -> Z.

Lemma upsert_append_perm {A : Type} (k : string) (x : A) (m : list (string * list A)) :
  Permutation (List.concat (map snd (upsert String.eqb k [] (fun es => es ++ [x])%list m)))
              (x :: List.concat (map snd m)).
Proof.
  induction m as [|[j es] r IH]; cbn [upsert map snd List.concat].
  - reflexivity.
  - destruct (String.eqb j k); cbn [map snd List.concat].
    + rewrite <- app_assoc. cbn [app]. symmetry. apply Permutation_middle.
    + rewrite IH. symmetry. apply Permutation_middle.
Qed.

Lemma collect_append_perm (entries : list Entry.t) : forall m,
  Permutation
    (List.concat (map snd (collect String.eqb Entry.date (fun e es => es ++ [e])%list []
                                   entries m)))
    (List.concat (map snd m) ++ entries).
Proof.
  induction entries as [|e l IH]; intros m; cbn [collect fold_left].
  - rewrite app_nil_r. reflexivity.
  - fold (collect String.eqb Entry.date (fun e es => (es ++ [e])%list) [] l
               (upsert String.eqb (Entry.date e) [] (fun es => (es ++ [e])%list) m)).
    rewrite IH, upsert_append_perm. cbn [app]. apply Permutation_middle.
Qed.

(** X20. The history shows every entry exactly once, under its date: the
    groups of groupEntriesByDate have pairwise distinct dates, the group of
    a date holds the entries of that date, all of them and in the order of
    the list given, no group is empty, and the groups together are a
    permutation of the entries; whatever order the locale gives to the
    dates. *)
Theorem history_groups (entries : list Entry.t) :
  let groups := groupEntriesByDate localeCompare entries in
  NoDup (map fst groups) /\
  (forall date es,
      In (date, es) groups <-> es = entriesOn date entries /\ es <> []) /\
  Permutation (List.concat (map snd groups)) entries.
Proof.
  intros groups. subst groups. unfold groupEntriesByDate.
  set (before := fun a b : string * list Entry.t => localeCompare (fst b) (fst a) <=? 0).
  set (g := fold_left _ entries []).
  assert (Eg : g = collect String.eqb Entry.date (fun e es => es ++ [e])%list [] entries [])
    by reflexivity.
  assert (Hnd : NoDup (map fst g)).
  { rewrite Eg. apply keys_collect_NoDup; [exact string_eqb_eq|constructor]. }
  assert (Hget : forall date,
             assoc String.eqb date g =
             match entriesOn date entries with [] => None | xs => Some xs end).
  { intros date. rewrite Eg, (assoc_collect String.eqb string_eqb_eq).
    fold (entriesOn date entries). cbn [assoc].
    destruct (entriesOn date entries) as [|x xs] eqn:E; [reflexivity|].
    rewrite (fold_append (fun e => e)), map_id. reflexivity. }
  pose proof (sortBy_perm before g) as P.
  split; [|split].
  - apply (Permutation_NoDup (l := map fst g)); [|exact Hnd].
    apply Permutation_map, Permutation_sym, P.
  - intros date es. split.
    + intros Hin. apply (Permutation_in _ P) in Hin.
      apply (In_assoc String.eqb string_eqb_eq) in Hin; [|exact Hnd].
      rewrite Hget in Hin. destruct (entriesOn date entries); [discriminate|].
      injection Hin as <-. split; [reflexivity|discriminate].
    + intros [-> Hne]. apply (Permutation_in _ (Permutation_sym P)).
      apply (In_assoc String.eqb string_eqb_eq); [exact Hnd|].
      rewrite Hget. destruct (entriesOn date entries); [contradiction|reflexivity].
  - rewrite (concat_perm _ _ (Permutation_map snd P)).
    rewrite Eg. apply (collect_append_perm entries []).
Qed.

End HistoryFacts.

(** * Chart: the series *)

Section ChartFacts.

Variable number : Type.
Variable divide : Z -> Z -> number.

Lemma optZ_eqb_eq (a b : option Z) : optZ_eqb a b = true <-> a = b.
Proof.
  destruct a as [x|], b as [y|]; cbn; try (split; congruence).
  rewrite Z.eqb_eq. split; congruence.
Qed.

Lemma Z_eqb_eq (a b : Z) : (a =? b) = true <-> a = b.
Proof. apply Z.eqb_eq. Qed.

(** What the two-level map holds for a date and a stat. *)
Lemma byDateAndStat_get (entries : list Entry.t) (date : string) (k : Z) :
  match assoc String.eqb date (byDateAndStat entries) with
  | Some dateMap =>
      match assoc Z.eqb k dateMap with Some vals => vals | None => [] end
  | None => []
  end = ratingsOn date k entries.
Proof.
  unfold byDateAndStat, ratingsOn.
  change (fold_left _ entries [])
    with (collect String.eqb Entry.date
            (fun e dateMap =>
               upsert Z.eqb (Entry.statId e) [] (fun vals => vals ++ [Entry.value e])%list
                      dateMap)
            [] entries []).
  rewrite (assoc_collect String.eqb string_eqb_eq). fold (entriesOn date entries).
  cbn [assoc]. destruct (entriesOn date entries) as [|x xs]; [reflexivity|].
  change (fold_left _ (x :: xs) [])
    with (collect Z.eqb Entry.statId (fun e vals => vals ++ [Entry.value e])%list []
            (x :: xs) []).
  rewrite (assoc_collect Z.eqb Z_eqb_eq). cbn [assoc].
  destruct (filter _ (x :: xs)) as [|y ys]; [reflexivity|].
  rewrite (fold_append Entry.value). reflexivity.
Qed.

Lemma seriesValue_spec (entries : list Entry.t) (k : Z) (date : string) :
  seriesValue number divide (byDateAndStat entries) (Some k) date =
  match ratingsOn date k entries with
  | [] => None
  | vals => Some (average number divide vals)
  end.
Proof.
  rewrite <- byDateAndStat_get. unfold seriesValue.
  destruct (assoc String.eqb date (byDateAndStat entries)) as [dateMap|]; [|reflexivity].
  destruct (assoc Z.eqb k dateMap) as [[|v vals]|]; reflexivity.
Qed.

Lemma series_get (m : list (string * list (Z * list Z))) (dates : list string)
    (stats : list Stat.t) : forall acc k,
  assoc optZ_eqb k
        (fold_left (fun series stat =>
                      assocSet optZ_eqb (Stat.id stat)
                               (map (seriesValue number divide m (Stat.id stat)) dates)
                               series)
                   stats acc) =
  if existsb (fun s => optZ_eqb (Stat.id s) k) stats
  then Some (map (seriesValue number divide m k) dates)
  else assoc optZ_eqb k acc.
Proof.
  induction stats as [|s r IH]; intros acc k; cbn [fold_left existsb]; [reflexivity|].
  rewrite IH. unfold assocSet. rewrite (assoc_upsert optZ_eqb optZ_eqb_eq).
  destruct (existsb _ r); [destruct (optZ_eqb (Stat.id s) k); reflexivity|].
  destruct (optZ_eqb (Stat.id s) k) eqn:E; cbn [orb]; [|reflexivity].
  apply optZ_eqb_eq in E. rewrite E. reflexivity.
Qed.

(** X21. processChartData gives the dates on which there are entries, each
    once and sorted by their code units (which for dates YYYY-MM-DD is the
    order of time), and for every stat given a series with one value per
    date: null when the stat has no entry that day, and otherwise the
    average of its ratings of that day. *)
Theorem chart_series (entries : list Entry.t) (stats : list Stat.t) :
  let '(dates, series) := processChartData number divide entries stats in
  NoDup dates /\
  (forall d, In d dates <-> exists e, In e entries /\ Entry.date e = d) /\
  Sorted (fun a b => String.leb a b = true) dates /\
  forall s, In s stats ->
    assoc optZ_eqb (Stat.id s) series =
    Some (map (fun d =>
                 match Stat.id s with
                 | Some k =>
                     match ratingsOn d k entries with
                     | [] => None
                     | vals => Some (average number divide vals)
                     end
                 | None => None
                 end) dates).
Proof.
  unfold processChartData. cbv zeta.
  set (m := byDateAndStat entries).
  pose proof (sortBy_perm String.leb (map fst m)) as P.
  assert (Em : m = collect String.eqb Entry.date
                     (fun e dateMap =>
                        upsert Z.eqb (Entry.statId e) []
                               (fun vals => vals ++ [Entry.value e])%list dateMap)
                     [] entries []) by reflexivity.
  split; [|split; [|split]].
  - apply (Permutation_NoDup (Permutation_sym P)). rewrite Em.
    apply keys_collect_NoDup; [exact string_eqb_eq|constructor].
  - intros d. split.
    + intros H. apply (Permutation_in _ P) in H. rewrite Em in H.
      apply (keys_collect_In String.eqb string_eqb_eq) in H.
      destruct H as [[]|H]. exact H.
    + intros H. apply (Permutation_in _ (Permutation_sym P)). rewrite Em.
      apply (keys_collect_In String.eqb string_eqb_eq). right. exact H.
  - apply sortBy_sorted. exact String.leb_total.
  - intros s Hs. rewrite series_get.
    replace (existsb _ stats) with true.
    + f_equal. apply map_ext. intros d. destruct (Stat.id s) as [k|].
      * apply seriesValue_spec.
      * unfold seriesValue. destruct (assoc String.eqb d m); reflexivity.
    + symmetry. apply existsb_exists. exists s. split; [exact Hs|apply optZ_eqb_eq; reflexivity].
Qed.

Lemma combine_seq_In {A : Type} (l : list A) (x : A) (i : nat) : forall start,
  In (x, i) (combine l (seq start (List.length l))) ->
  (start <= i)%nat /\ nth_error l (i - start) = Some x.
Proof.
  induction l as [|y r IH]; intros start; cbn [List.length seq combine]; [intros []|].
  intros [H|H].
  - injection H as -> ->. rewrite Nat.sub_diag. split; [lia|reflexivity].
  - destruct (IH _ H) as [Hle Hn]. split; [lia|].
    replace (i - start)%nat with (S (i - S start)) by lia. exact Hn.
Qed.

Lemma combine_seq_sorted {A : Type} (l : list A) : forall start,
  StronglySorted (fun a b : A * nat => (snd a < snd b)%nat)
                 (combine l (seq start (List.length l))).
Proof.
  induction l as [|y r IH]; intros start; cbn [List.length seq combine]; constructor.
  - apply IH.
  - apply Forall_forall. intros [x i] Hin. destruct (combine_seq_In r x i _ Hin) as [H _].
    cbn. lia.
Qed.

(** X22. getXLabels writes at most three dates under the axis, each with its
    own index in the list of dates, from left to right and no index twice;
    when there are dates, the first and the last are among them. *)
Theorem x_labels (dates : list string) :
  let labels := getXLabels dates in
  (List.length labels <= 3)%nat /\
  (forall d i, In (d, i) labels -> nth_error dates i = Some d) /\
  StronglySorted (fun a b => (snd a < snd b)%nat) labels /\
  (dates <> [] ->
   In 0%nat (map snd labels) /\ In (List.length dates - 1)%nat (map snd labels)).
Proof.
  intros labels. subst labels. unfold getXLabels.
  set (n := List.length dates).
  destruct (Nat.eqb_spec n 0) as [H0|H0].
  { split; [cbn; lia|]. split; [intros d i []|]. split; [constructor|].
    intros H. destruct dates; [contradiction|discriminate H0]. }
  destruct (Nat.leb_spec n 3) as [H3|H3].
  - split; [rewrite length_combine, length_seq; fold n; lia|].
    split; [|split; [apply combine_seq_sorted|]].
    + intros d i Hin. destruct (combine_seq_In dates d i 0%nat Hin) as [_ H].
      rewrite Nat.sub_0_r in H. exact H.
    + intros _. unfold n in *.
      destruct dates as [|a [|b [|c [|d r]]]]; cbn in *; try lia; auto.
  - pose proof (Nat.div_mod_eq n 2) as Hdiv.
    pose proof (Nat.mod_upper_bound n 2 ltac:(lia)) as Hmod.
    cbv zeta. split; [cbn [List.length]; lia|]. split; [|split].
    + intros d i [H|[H|[H|[]]]]; injection H as <- <-;
        apply nth_error_nth'; fold n;
        change (fst (Nat.divmod n 1 0 1)) with (n / 2)%nat; lia.
    + repeat constructor; cbn [snd]; lia.
    + intros _. cbn [map snd In]. fold n. auto.
Qed.

End ChartFacts.

(** * Adding a stat, recording a rating *)

Lemma insertByKey_last {A : Type} `{Row A} (key : Z) (obj : A) (l : list A) :
  (forall r, In r l -> exists k, row_id r = Some k /\ k < key) ->
  insertByKey key obj l = (l ++ [obj])%list.
Proof.
  induction l as [|r l IH]; intros Hl; cbn [insertByKey app]; [reflexivity|].
  destruct (Hl r (or_introl eq_refl)) as (k & -> & Hk).
  destruct (Z.ltb_spec key k); [lia|].
  rewrite IH; [reflexivity|]. intros r' Hr'. apply Hl. right. exact Hr'.
Qed.

Lemma hasKey_fresh {A : Type} `{Row A} (key : Z) (l : list A) :
  (forall r, In r l -> exists k, row_id r = Some k /\ k < key) ->
  hasKey key l = false.
Proof.
  intros Hl. unfold hasKey. destruct (existsb (keyIs key) l) eqn:E; [|reflexivity].
  apply existsb_exists in E. destruct E as (r & Hr & Hk).
  destruct (Hl r Hr) as (k & Hid & Hlt). unfold keyIs in Hk. rewrite Hid in Hk.
  apply Z.eqb_eq in Hk. lia.
Qed.

(** The insertion of an object without key into a table whose rows carry
    their keys: the object goes to the end, under the next key. *)
Lemma tableAdd_appends {A : Type} `{Row A} (obj : A) (t : Table A) :
  row_id obj = None -> tableKeyed t ->
  tableAdd obj t =
  Some (mkTable (rows t ++ [with_id (keygen t) obj])%list (keygen t + 1)).
Proof.
  intros Hid Hk. unfold tableAdd. rewrite Hid.
  rewrite (hasKey_fresh _ _ Hk), (insertByKey_last _ _ _ Hk). reflexivity.
Qed.

Lemma maxOrder_bound (stats : list Stat.t) (s : Stat.t) :
  In s stats -> Stat.order s <= maxOrder stats.
Proof.
  unfold maxOrder. destruct stats as [|s0 rest]; [intros []|]. cbn [map].
  assert (G : forall l a x, x = a \/ In x l -> x <= fold_left Z.max l a).
  { induction l as [|y l IH]; intros a x Hx; cbn [fold_left].
    - destruct Hx as [->|[]]. lia.
    - destruct Hx as [->|[->|Hx]].
      + transitivity (Z.max a y); [lia|]. apply IH. left. reflexivity.
      + transitivity (Z.max a x); [lia|]. apply IH. left. reflexivity.
      + apply IH. right. exact Hx. }
  intros [<-|Hs]; apply G; [left; reflexivity|right; apply in_map; exact Hs].
Qed.

Lemma maxOrder_attained (stats : list Stat.t) :
  stats <> [] -> exists s, In s stats /\ Stat.order s = maxOrder stats.
Proof.
  unfold maxOrder. destruct stats as [|s0 rest]; [contradiction|]. intros _. cbn [map].
  assert (G : forall l a, fold_left Z.max l a = a \/ In (fold_left Z.max l a) l).
  { induction l as [|y l IH]; intros a; cbn [fold_left]; [left; reflexivity|].
    destruct (IH (Z.max a y)) as [E|E].
    - rewrite E. destruct (Z.max_spec a y) as [[_ ->]|[_ ->]]; [right; left|left]; reflexivity.
    - right. right. exact E. }
  destruct (G (map Stat.order rest) (Stat.order s0)) as [E|E].
  - exists s0. split; [left; reflexivity|symmetry; exact E].
  - apply in_map_iff in E. destruct E as (s & E & Hs). exists s. split; [right; exact Hs|exact E].
Qed.

(** ** White space and case *)

Lemma isWhiteSpace_lowerChar (c : ascii) : isWhiteSpace (lowerChar c) = isWhiteSpace c.
Proof. destruct c as [[] [] [] [] [] [] [] []]; vm_compute; reflexivity. Qed.

Lemma lowerChar_twice (c : ascii) : lowerChar (lowerChar c) = lowerChar c.
Proof. destruct c as [[] [] [] [] [] [] [] []]; vm_compute; reflexivity. Qed.

Lemma toLowerCase_twice (s : string) : toLowerCase (toLowerCase s) = toLowerCase s.
Proof.
  induction s as [|c s IH]; cbn [toLowerCase]; [reflexivity|].
  rewrite lowerChar_twice, IH. reflexivity.
Qed.

Lemma trimStart_toLowerCase (s : string) :
  trimStart (toLowerCase s) = toLowerCase (trimStart s).
Proof.
  induction s as [|c s IH]; cbn [toLowerCase trimStart]; [reflexivity|].
  rewrite isWhiteSpace_lowerChar. destruct (isWhiteSpace c); [exact IH|reflexivity].
Qed.

Lemma trimEnd_toLowerCase (s : string) :
  trimEnd (toLowerCase s) = toLowerCase (trimEnd s).
Proof.
  induction s as [|c s IH]; cbn [toLowerCase trimEnd]; [reflexivity|].
  rewrite IH, isWhiteSpace_lowerChar.
  destruct (trimEnd s) as [|d r]; cbn [toLowerCase]; [|reflexivity].
  destruct (isWhiteSpace c); reflexivity.
Qed.

Lemma trim_toLowerCase (s : string) : trim (toLowerCase s) = toLowerCase (trim s).
Proof. unfold trim. rewrite trimStart_toLowerCase, trimEnd_toLowerCase. reflexivity. Qed.

Lemma trimEnd_twice (s : string) : trimEnd (trimEnd s) = trimEnd s.
Proof.
  induction s as [|c s IH]; cbn [trimEnd]; [reflexivity|].
  destruct (trimEnd s) as [|d r] eqn:E.
  - destruct (isWhiteSpace c) eqn:W; cbn [trimEnd]; [reflexivity|]. rewrite W. reflexivity.
  - cbn [trimEnd] in *. rewrite IH. reflexivity.
Qed.

(** What trimStart leaves begins with a character that is no white space. *)
Lemma trimStart_head (s : string) :
  match trimStart s with
  | EmptyString => True
  | String c _ => isWhiteSpace c = false
  end.
Proof.
  induction s as [|c s IH]; cbn [trimStart]; [exact I|].
  destruct (isWhiteSpace c) eqn:W; [exact IH|exact W].
Qed.

Lemma trimEnd_head (c : ascii) (r : string) :
  isWhiteSpace c = false -> exists r', trimEnd (String c r) = String c r'.
Proof.
  intros W. cbn [trimEnd]. destruct (trimEnd r) as [|d r'].
  - rewrite W. eexists. reflexivity.
  - eexists. reflexivity.
Qed.

Lemma trim_twice (s : string) : trim (trim s) = trim s.
Proof.
  unfold trim. pose proof (trimStart_head s) as Hh.
  destruct (trimStart s) as [|c r]; [reflexivity|].
  destruct (trimEnd_head c r Hh) as (r' & E). rewrite E.
  cbn [trimStart]. rewrite Hh, <- E. apply trimEnd_twice.
Qed.

Lemma toLowerCase_empty (s : string) : toLowerCase s = "" -> s = "".
Proof. destruct s; [reflexivity|discriminate]. Qed.

(** X23. handleAddStat. A name that is empty or white space only adds
    nothing, whatever the store does. Otherwise, when no call rejects and
    the rows of the table carry their keys, there is one stat more, at the
    end of the table under the next key: its name is the input trimmed
    and in lower case (not empty, and trimming or lowering it again
    changes nothing), its colour is what getNextColor gives, its order is
    above the order of every stat the page was given (0 when it was given
    none, one more than the largest otherwise), both stamps are read from
    the clock; the input field is emptied; entries, settings and the
    remote folder are as before. *)
Theorem add_stat_appended (newStatName : string) (stats : list Stat.t) (random : nat)
    (w : World) :
  (trim newStatName = "" -> handleAddStat newStatName stats random w = (Ok newStatName, w)) /\
  (trim newStatName <> "" -> quiet w -> tableKeyed (statsT w) ->
   exists w' name order,
     handleAddStat newStatName stats random w = (Ok "", w') /\
     rows (statsT w') =
       (rows (statsT w) ++
        [Stat.mk (Some (keygen (statsT w))) name (getNextColor random stats) order
                 (DateObj (Some (clock w (reads w))))
                 (DateObj (Some (clock w (S (reads w)))))])%list /\
     keygen (statsT w') = keygen (statsT w) + 1 /\
     name = toLowerCase (trim newStatName) /\
     name <> "" /\ trim name = name /\ toLowerCase name = name /\
     (forall s, In s stats -> Stat.order s < order) /\
     (stats = [] -> order = 0) /\
     (stats <> [] -> exists s, In s stats /\ order = Stat.order s + 1) /\
     entriesT w' = entriesT w /\ settingsRow w' = settingsRow w /\ drive w' = drive w /\
     log w' = log w).
Proof.
  split.
  - intros E. unfold handleAddStat. rewrite E. reflexivity.
  - intros Hne Hq Hk. unfold handleAddStat.
    destruct (String.eqb_spec (trim newStatName) ""); [contradiction|].
    destruct w as [st en se dr fr cr cl rd fa ca lg].
    unfold quiet in Hq. cbn in Hq, Hk.
    boot Hq. cbn.
    rewrite tableAdd_appends by (try reflexivity; exact Hk).
    cbn. eexists _, _, _. split; [reflexivity|].
    cbn. repeat split.
    + intros E. apply toLowerCase_empty in E. contradiction.
    + rewrite trim_toLowerCase, trim_twice. reflexivity.
    + apply toLowerCase_twice.
    + intros s Hs. pose proof (maxOrder_bound _ _ Hs). lia.
    + intros ->. reflexivity.
    + intros Hs. destruct (maxOrder_attained _ Hs) as (s & Hin & E).
      exists s. split; [exact Hin|]. rewrite E. reflexivity.
Qed.

(** X24. handleSubmit of the entry form. Without a selected stat, or while
    a submission is under way, nothing happens: the form is left as it
    was, so a call made while a submission is under way returns with the
    form still submitting. Otherwise, when no call rejects and the rows
    of the table carry their keys, one entry is added at the end of the
    table under the next key: for the selected stat, with the value of
    the slider, dated with the day of the clock in universal time as read
    before the insertion, and stamped by the two readings after it; the
    slider goes back to 5 and the success mark is shown. A call leaves
    isSubmitting as it found it: every call that gets past the guard ends
    with it false, also when the insertion rejects. The selection is
    kept; on a rejection the entries, the slider and the success mark are
    as before; stats, settings and the remote folder are never touched. *)
Theorem rating_recorded (st : QuickEntry.state) (w : World) :
  (truthyKey (QuickEntry.selectedStatId st) = None \/ QuickEntry.isSubmitting st = true ->
   handleSubmit st w = ((Ok tt, st), w)) /\
  (forall statId,
     QuickEntry.selectedStatId st = Some statId -> statId <> 0 ->
     QuickEntry.isSubmitting st = false ->
     quiet w -> tableKeyed (entriesT w) ->
     exists w',
       handleSubmit st w = ((Ok tt, QuickEntry.mk (Some statId) 5 false true), w') /\
       rows (entriesT w') =
         (rows (entriesT w) ++
          [Entry.mk (Some (keygen (entriesT w))) statId (QuickEntry.value st)
                    (firstField "T" (toISOString (clock w (reads w))))
                    (DateObj (Some (clock w (S (reads w)))))
                    (DateObj (Some (clock w (S (S (reads w))))))])%list /\
       keygen (entriesT w') = keygen (entriesT w) + 1) /\
  (forall r st' w',
     handleSubmit st w = ((r, st'), w') ->
     QuickEntry.isSubmitting st' = QuickEntry.isSubmitting st /\
     (truthyKey (QuickEntry.selectedStatId st) <> None ->
      QuickEntry.isSubmitting st = false ->
      QuickEntry.isSubmitting st' = false /\ (calls w < calls w')%nat) /\
     QuickEntry.selectedStatId st' = QuickEntry.selectedStatId st /\
     (forall e, r = Throw e ->
        entriesT w' = entriesT w /\ QuickEntry.value st' = QuickEntry.value st /\
        QuickEntry.showSuccess st' = QuickEntry.showSuccess st) /\
     statsT w' = statsT w /\ settingsRow w' = settingsRow w /\ drive w' = drive w /\
     log w' = log w).
Proof.
  destruct st as [sel v sub ok]. cbn [QuickEntry.selectedStatId QuickEntry.isSubmitting
    QuickEntry.value QuickEntry.showSuccess].
  split; [|split].
  - intros [E| ->]; unfold handleSubmit;
      cbn [QuickEntry.selectedStatId QuickEntry.isSubmitting].
    + rewrite E. reflexivity.
    + destruct (truthyKey sel); reflexivity.
  - intros statId -> Hz -> Hq Hk. unfold handleSubmit.
    cbn [QuickEntry.selectedStatId QuickEntry.isSubmitting QuickEntry.value
         QuickEntry.showSuccess].
    assert (T : truthyKey (Some statId) = Some statId).
    { unfold truthyKey. destruct (Z.eqb_spec statId 0); [contradiction|reflexivity]. }
    rewrite T.
    destruct w as [stt en se dr fr cr cl rd fa ca lg].
    unfold quiet in Hq. cbn in Hq, Hk.
    unfold getTodayDateString. boot Hq. cbn.
    rewrite tableAdd_appends by (try reflexivity; exact Hk).
    cbn. eexists. repeat split.
  - intros r st' w' E. unfold handleSubmit in E.
    cbn [QuickEntry.selectedStatId QuickEntry.isSubmitting QuickEntry.value
         QuickEntry.showSuccess] in E.
    destruct (truthyKey sel) as [statId|] eqn:T.
    + destruct sub.
      * injection E as <- <- <-. cbn. repeat split; try discriminate.
      * destruct w as [stt en se dr fr cr cl rd fa ca lg].
        unfold getTodayDateString in E. boot_in E. cbn in E.
        destruct (fa ca).
        -- injection E as <- <- <-. cbn. repeat split; try lia; intros e' _; reflexivity.
        -- cbn in E.
           destruct (tableAdd _ en); cbn in E; injection E as <- <- <-; cbn;
             repeat split; try discriminate; try lia; intros e' _; reflexivity.
    + injection E as <- <- <-. cbn. repeat split; try discriminate; contradiction.
Qed.

(** X25. handleDaysChange and what getSettings answers afterwards, when no
    call rejects. With a settings row the store answers the new number of
    days, and what the row says of the synchronisation, and the two
    tables, are as before. Without a settings row the change is lost
    without an error: the slider shows the new number, the store has no
    row still and getSettings goes on answering the default of 14 days. *)
Theorem days_setting_kept_or_lost (value : Z) (w : World) :
  quiet w ->
  (forall s, settingsRow w = Some s -> Settings.id s <> None ->
     exists w' s',
       handleDaysChange value w = ((Ok tt, value), w') /\
       fst (getSettings w') = Ok s' /\
       Settings.daysToShow s' = value /\
       Settings.id s' = Settings.id s /\
       Settings.syncEnabled s' = Settings.syncEnabled s /\
       Settings.lastSyncTime s' = Settings.lastSyncTime s /\
       Settings.lastSyncChecksum s' = Settings.lastSyncChecksum s /\
       Settings.driveFileId s' = Settings.driveFileId s /\
       tables w' = tables w /\ drive w' = drive w) /\
  (settingsRow w = None ->
     exists w',
       handleDaysChange value w = ((Ok tt, value), w') /\
       settingsRow w' = None /\
       fst (getSettings w') = Ok DEFAULT_SETTINGS /\
       Settings.daysToShow DEFAULT_SETTINGS = 14 /\
       tables w' = tables w /\ drive w' = drive w /\ log w' = log w).
Proof.
  intros Hq. destruct w as [st en se dr fr cr cl rd fa ca lg].
  unfold quiet in Hq. cbn in Hq. split.
  - intros s Hs Hid. cbn in Hs. subst se.
    destruct s as [[i|] a b c d e f g h]; [|contradiction].
    unfold handleDaysChange, updateSettings, getSettings. boot Hq. cbn.
    repeat (rewrite ?Hq; cbn). eexists _, _. split; [reflexivity|].
    repeat (boot Hq; cbn). repeat split.
  - intros Hs. cbn in Hs. subst se.
    unfold handleDaysChange, updateSettings, getSettings. boot Hq. cbn.
    repeat (rewrite ?Hq; cbn). eexists. split; [reflexivity|].
    repeat (boot Hq; cbn). repeat split.
Qed.

(** * The further properties on the examples *)

Lemma quiet_frozen : quiet Sample.frozen.
Proof. intros n. reflexivity. Qed.

Lemma remote_of_example : remoteBackup Example.conflicting = Some (7%positive, Example.cloud).
Proof. vm_compute. reflexivity. Qed.

Lemma example_checksums_differ :
  checksum (metadata Example.cloud) <> generateChecksum (localData Example.conflicting).
Proof. vm_compute. discriminate. Qed.

Lemma example_watermark_differs :
  watermark Example.conflicting <> Some (checksum (metadata Example.cloud)).
Proof. vm_compute. discriminate. Qed.

(** X1 on the example: the first backup of the device. *)
Lemma first_backup_created_witness :
  exists w',
    performSync isoParse "token" None Sample.neverSynced =
      (success "Backup created in Google Drive", w') /\
    watermark w' = Some (generateChecksum (localData Sample.neverSynced)).
Proof.
  destruct (first_backup_created isoParse "token" None Sample.neverSynced
              (quiet_example _ _ _ _) eq_refl) as (w' & E & _ & _ & _ & S).
  exists w'. split; [exact E|].
  exact (proj1 (S ltac:(discriminate))).
Defined.

(** X2 on the example. *)
Lemma keep_local_overwrites_remote_witness :
  exists w',
    performSync isoParse "token" (Some KeepLocal) Example.conflicting =
      (success "Local data uploaded to cloud", w') /\
    remoteBackup w' =
      Some (7%positive,
            wireBackup (builtAt (Example.clock 0) (localData Example.conflicting))).
Proof.
  destruct (keep_local_overwrites_remote isoParse "token" Example.conflicting 7%positive
              Example.cloud (quiet_example _ _ _ _) remote_of_example
              example_checksums_differ example_watermark_differs)
    as (w' & E & R & _).
  exists w'. split; [exact E|exact R].
Defined.

(** X3 on the example. *)
Lemma merge_resolution_run_witness :
  exists w',
    performSync isoParse "token" (Some Merge) Example.conflicting =
      (success "Data merged successfully", w') /\
    sidesAgree w' /\
    watermark w' = Some (generateChecksum (localData w')).
Proof.
  destruct (merge_resolution_run isoParse "token" Example.conflicting 7%positive
              Example.cloud (quiet_example _ _ _ _) keyed_localStats keyed_localEntries
              remote_of_example example_checksums_differ example_watermark_differs)
    as (w' & E & _ & _ & _ & A & W).
  exists w'. split; [exact E|]. split; [exact A|].
  apply (W Example.settings); [reflexivity|discriminate].
Defined.

(** X4 on the example: a second sync right after the first backup. *)
Lemma second_sync_finds_no_changes_witness :
  exists w2,
    performSync isoParse "token" None
      (snd (performSync isoParse "token" None Sample.neverSynced)) =
      (mkResult StNoChanges "Data is already in sync" None None, w2).
Proof.
  destruct (second_sync_finds_no_changes isoParse "token" "token" None None
              Sample.neverSynced (quiet_example _ _ _ _) ltac:(discriminate)
              ltac:(vm_compute; reflexivity)) as (w2 & E & _).
  exists w2. exact E.
Defined.

(** X5 on the example: the sync that follows a use-cloud resolution uploads
    the restored data. *)
Lemma sync_after_use_cloud_witness :
  exists r2 w2,
    performSync isoParse "token" None
      (snd (performSync isoParse "token" (Some UseCloud) Example.conflicting)) = (r2, w2) /\
    status r2 <> StConflict.
Proof.
  destruct (sync_after_use_cloud isoParse "token" "token" None Example.conflicting
              7%positive Example.cloud Example.settings (quiet_example _ _ _ _)
              eq_refl ltac:(discriminate) remote_of_example example_checksums_differ
              example_watermark_differs ltac:(vm_compute; reflexivity))
    as (r2 & w2 & E & _ & [(-> & _)|(-> & _)]);
    eexists; exists w2; (split; [exact E|discriminate]).
Defined.

(** X8 on the example: the merge writes into the file 7. *)
Lemma remote_file_identity_kept_witness :
  remoteId (snd (performSync isoParse "token" (Some Merge) Example.conflicting))
  = Some 7%positive.
Proof.
  exact (remote_file_identity_kept isoParse "token" (Some Merge) Example.conflicting
           (mkDriveFile 7%positive (backupToJSON Example.cloud)) eq_refl).
Defined.

(** X9 on the example: the first start in a fresh browser. *)
Lemma initializeDatabase_first_start_witness :
  exists w', initializeDatabase 1%positive Sample.freshBrowser = (Ok tt, w') /\
             initialized w'.
Proof.
  destruct (initializeDatabase_first_start 1%positive Sample.freshBrowser
              (quiet_example _ _ _ _) eq_refl eq_refl)
    as (w' & E & _ & _ & _ & _ & _ & _ & I).
  exists w'. split; [exact E|exact I].
Defined.

(** X10 on the example: the second start. *)
Lemma initializeDatabase_idempotent_witness :
  match initializeDatabase 1%positive Sample.freshBrowser with
  | (Ok _, w1) =>
      tables (snd (initializeDatabase 2%positive w1)) = tables w1
  | (Throw _, _) => False
  end.
Proof.
  assert (R : fst (initializeDatabase 1%positive Sample.freshBrowser) = Ok tt)
    by (vm_compute; reflexivity).
  destruct (initializeDatabase 1%positive Sample.freshBrowser) as [r w1] eqn:E.
  cbn [fst] in R. subst r.
  destruct (initializeDatabase_idempotent 1%positive 2%positive Sample.freshBrowser w1
              ltac:(intros s Hs; discriminate Hs) E) as (_ & _ & _ & _ & _ & K).
  destruct (initializeDatabase 2%positive w1) as [r2 w2] eqn:E2.
  exact (proj1 (K r2 w2 eq_refl)).
Defined.

(** X11 on the example: the second stat gets the second colour. *)
Lemma getNextColor_unused_witness :
  ~ In (getNextColor 0 (rows Example.localStats))
       (map Stat.color (rows Example.localStats)).
Proof.
  apply (proj1 (proj2 (getNextColor_unused 0 (rows Example.localStats) ltac:(lia)))).
  cbn. lia.
Defined.

(** X12 on the example. *)
Lemma today_is_the_utc_day_witness :
  exists today w',
    getTodayDateString Example.conflicting = (Ok today, w') /\
    String.length today = 10%nat.
Proof.
  destruct (today_is_the_utc_day Example.conflicting
              ltac:(unfold validTime; cbn; lia))
    as (today & w' & E & _ & _ & L).
  exists today, w'. split; [exact E|].
  apply L. cbn. lia.
Defined.

(** X13 on the example: a file that holds the stat of the device twice. *)
Lemma import_failure_keeps_store_witness :
  fst (handleImportFile isoParse
         (importText (rows Example.localStats ++ rows Example.localStats) [] Example.jan1)
         Example.conflicting)
  = "failed to import: invalid file format".
Proof.
  destruct (import_failure_keeps_store isoParse) as (_ & _ & D & _).
  apply (D _ _ _ _ 1 (hd Example.zeroStat (rows Example.localStats))
           (hd Example.zeroStat (rows Example.localStats)) [] [] []);
    reflexivity.
Defined.

(** X14 on the example: the text of an empty array empties the store. *)
Lemma import_without_records_empties_store_witness :
  exists w',
    handleImportFile isoParse (TextOf (JArr [])) Example.conflicting = ("", w') /\
    rows (statsT w') = [] /\ rows (entriesT w') = [].
Proof.
  destruct (import_without_records_empties_store isoParse (JArr []) Example.conflicting
              (quiet_example _ _ _ _) I) as (w' & E & S & N & _).
  exists w'. repeat split; assumption.
Defined.

(** X15 on the example: an hour's token, 56 minutes later. *)
Lemma token_withheld_before_expiry_witness :
  fst (getValidAccessToken (onSuccess "token" 3600 None 1700000000000)
         (Example.world Example.localStats Example.localEntries None None)) =
    Ok (Some "token") /\
  fst (getValidAccessToken (onSuccess "token" 3600 None (1700000000000 - 3360000))
         (Example.world Example.localStats Example.localEntries None None)) =
    Ok None.
Proof.
  split.
  - exact (proj1 (token_withheld_before_expiry "token" 3600 None 1700000000000
                    (Example.world Example.localStats Example.localEntries None None)
                    ltac:(discriminate) ltac:(lia))).
  - exact (proj1 (token_withheld_before_expiry "token" 3600 None
                    (1700000000000 - 3360000)
                    (Example.world Example.localStats Example.localEntries None None)
                    ltac:(discriminate) ltac:(lia))).
Defined.

(** X17 on the example. *)
Lemma conflict_dialog_keep_local_witness :
  exists r w1 w2,
    handleManualSync isoParse Sample.signedIn Sample.idle Sample.frozen =
      (Ok (mkSection UiIdle "" (Some r)), w1) /\
    handleConflictResolution isoParse Sample.signedIn KeepLocal
      (mkSection UiIdle "" (Some r)) w1 =
      (Ok (mkSection UiSuccess "Local data uploaded to cloud" None), w2).
Proof.
  destruct (conflict_dialog_keep_local isoParse Sample.signedIn "token" Sample.idle
              Sample.frozen 7%positive Example.cloud quiet_frozen)
    as (r & w1 & E1 & _ & _ & _ & _ & _ & _ & w2 & t & E2 & _).
  - split; [reflexivity|]. split; [discriminate|].
    intros e He n. injection He as <-. cbn. lia.
  - split; [vm_compute; reflexivity|]. split; vm_compute; discriminate.
  - exists r, w1, w2. split; [exact E1|exact E2].
Defined.

(** X18 on the example: signed out. *)
Lemma section_without_token_witness :
  handleConflictResolution isoParse handleLogout Merge Sample.idle Example.conflicting =
    (Ok (mkSection UiSyncing "" None), Example.conflicting).
Proof.
  exact (proj1 (proj2 (section_without_token isoParse handleLogout Merge Sample.idle
                         Example.conflicting Example.conflicting eq_refl))).
Defined.

(** X19 on the example: the stat 1 goes, and the entry 5 with it. *)
Lemma delete_stat_with_entries_witness :
  exists w',
    handleDelete 1 Example.conflicting = (Ok tt, w') /\
    rows (statsT w') = [] /\ rows (entriesT w') = [].
Proof.
  destruct (delete_stat_with_entries 1 Example.conflicting) as (D & _ & T).
  destruct (T (quiet_example _ _ _ _)) as (w' & E).
  destruct (D w' E) as (S & N & _).
  exists w'. split; [exact E|]. split; [rewrite S|rewrite N]; reflexivity.
Defined.

(** X22 on the example: five dates, three labels. *)
Lemma x_labels_witness :
  In 0%nat (map snd (getXLabels ["a"; "b"; "c"; "d"; "e"])) /\
  In 4%nat (map snd (getXLabels ["a"; "b"; "c"; "d"; "e"])).
Proof.
  exact (proj2 (proj2 (proj2 (x_labels ["a"; "b"; "c"; "d"; "e"])))
           ltac:(discriminate)).
Defined.

(** X16 on the example: offline, nothing is called. *)
Lemma auto_sync_guarded_witness :
  log (snd (triggerSync isoParse false Sample.signedIn true Example.conflicting))
  = log Example.conflicting.
Proof.
  pose proof (auto_sync_guarded isoParse false Sample.signedIn true Example.conflicting)
    as H.
  destruct (triggerSync isoParse false Sample.signedIn true Example.conflicting)
    as [r w'].
  destruct H as (_ & G & _).
  exact (proj1 (proj2 (G (or_introl eq_refl)))).
Defined.

(** X20 on the example: the two entries of the first day are one group,
    whatever the locale. *)
Lemma history_groups_witness :
  In ("2023-07-22", [Sample.morning; Sample.evening])
     (groupEntriesByDate (fun _ _ => 0) [Sample.morning; Sample.nextDay; Sample.evening]).
Proof.
  destruct (history_groups (fun _ _ => 0)
              [Sample.morning; Sample.nextDay; Sample.evening]) as (_ & G & _).
  apply G. split; [reflexivity|discriminate].
Defined.

(** X21 on the example: the stat 1 has the average 6 on the first day and
    no value on the second (with the division of integers for that of
    JavaScript). *)
Lemma chart_series_witness :
  assoc optZ_eqb (Some 1)
        (snd (processChartData Z Z.div [Sample.morning; Sample.nextDay; Sample.evening]
                               (rows Example.localStats)))
  = Some [Some 6; None].
Proof.
  pose proof (chart_series Z Z.div [Sample.morning; Sample.nextDay; Sample.evening]
                (rows Example.localStats)) as H.
  destruct (processChartData Z Z.div [Sample.morning; Sample.nextDay; Sample.evening]
              (rows Example.localStats)) as [dates series] eqn:E.
  destruct H as (_ & _ & _ & G).
  assert (Ed : dates = ["2023-07-22"; "2023-07-23"]).
  { apply (f_equal fst) in E. cbn [fst] in E. rewrite <- E. vm_compute. reflexivity. }
  cbn [snd]. rewrite Ed in G.
  exact (G (hd Example.zeroStat (rows Example.localStats)) (or_introl eq_refl)).
Defined.

(** X23 on the example: a second stat, named in lower case, second colour
    of the palette, order 1. *)
Lemma add_stat_appended_witness :
  exists w',
    handleAddStat "  Sleep " (rows Example.localStats) 0 Example.conflicting = (Ok "", w') /\
    map Stat.name (rows (statsT w')) = ["mood"; "sleep"] /\
    map Stat.color (rows (statsT w')) = ["#e07a5f"; "#3d405b"].
Proof.
  destruct (proj2 (add_stat_appended "  Sleep " (rows Example.localStats) 0
                     Example.conflicting)
              ltac:(discriminate) (quiet_example _ _ _ _) keyed_localStats)
    as (w' & name & order & E & R & _ & N & _).
  exists w'. split; [exact E|]. rewrite R, N. split; reflexivity.
Defined.

(** X24 on the example: a rating of 7 for the stat 1. *)
Lemma rating_recorded_witness :
  exists w',
    handleSubmit (QuickEntry.mk (Some 1) 7 false false) Example.conflicting
    = ((Ok tt, QuickEntry.mk (Some 1) 5 false true), w') /\
    map Entry.value (rows (entriesT w')) = [3; 7].
Proof.
  destruct (proj1 (proj2 (rating_recorded (QuickEntry.mk (Some 1) 7 false false)
                            Example.conflicting))
              1 eq_refl ltac:(discriminate) eq_refl (quiet_example _ _ _ _)
              keyed_localEntries)
    as (w' & E & R & _).
  exists w'. split; [exact E|]. rewrite R. reflexivity.
Defined.

(** X25 on the examples: 30 days on the device of the example; on a browser
    that has never run the application the change is lost. *)
Lemma days_setting_kept_or_lost_witness :
  (exists w' s', handleDaysChange 30 Example.conflicting = ((Ok tt, 30), w') /\
                 fst (getSettings w') = Ok s' /\ Settings.daysToShow s' = 30) /\
  (exists w', handleDaysChange 30 Sample.freshBrowser = ((Ok tt, 30), w') /\
              fst (getSettings w') = Ok DEFAULT_SETTINGS).
Proof.
  split.
  - destruct (proj1 (days_setting_kept_or_lost 30 Example.conflicting
                       (quiet_example _ _ _ _))
                Example.settings eq_refl ltac:(discriminate))
      as (w' & s' & E & G & D & _).
    exists w', s'. repeat split; assumption.
  - destruct (proj2 (days_setting_kept_or_lost 30 Sample.freshBrowser
                       (quiet_example _ _ _ _)) eq_refl)
      as (w' & E & _ & G & _).
    exists w'. split; assumption.
Defined.
